(** * molsim: the velocity-stacking pipeline of [molsim/functions.py]

    A shallow embedding of [velocity_stack] and of the local class
    [ObsChunk], and of [sum_spectra], followed by the properties of the
    stacking algorithm and of the sum.

    Conventions of the embedding.
    - A numpy float is a value of [fl]: an exact rational, one of the two
      infinities, or NaN (the "missing value" of the pipeline).  Rounding,
      overflow and the sign of zero are not modelled.
    - A numpy array of floats is a [list fl].  The windows [int_arr[x:y]] and
      [int_sim[a:b]] held by a chunk are numpy views: the chunk stores the
      offset and length of its window and every read or write goes through
      the shared buffer, so blanking done for one chunk is seen by every
      chunk whose window overlaps.
      [params['int_arr']] and [params['int_sim']] are taken to be two
      distinct arrays.
    - The [params] dictionary is a [gmap string pyval].
    - A raised exception is the [Raise] result of the error monad [res];
      what [print] writes is kept as a list of printed lines.
    - The helpers imported from [molsim.utils], [molsim.stats] and
      [molsim.constants] are parameters of the development: total functions
      of their arguments.  [np.interp], [np.arange], [np.nansum],
      [np.nanmax] and the builtin [max] are modelled after numpy and Python.
    - [sum_spectra], the other function of the file, is not part of the
      stacking pipeline; it is modelled on its own, with [np.exp],
      [find_limits] and the constants [h] and [k] as parameters, and with
      the simulations as records of the four attributes it reads. *)

From Stdlib Require Import QArith Qcanon Qround.
From stdpp Require Import base option list gmap strings.

Open Scope Qc_scope.

(** ** Floating-point values *)

Inductive fl : Type :=
  | NaN
  | NInf
  | Fin (q : Qc)
  | PInf.

#[global] Instance fl_eq_dec : EqDecision fl.
Proof. solve_decision. Defined.

#[global] Instance fl_inhabited : Inhabited fl := populate NaN.

Definition isnan (x : fl) : bool :=
  match x with NaN => true | _ => false end.

Definition fneg (x : fl) : fl :=
  match x with
  | NaN => NaN
  | NInf => PInf
  | Fin q => Fin (- q)
  | PInf => NInf
  end.

Definition fabs (x : fl) : fl :=
  match x with
  | NaN => NaN
  | NInf | PInf => PInf
  | Fin q => Fin (if bool_decide (q < 0) then - q else q)
  end.

Definition fadd (x y : fl) : fl :=
  match x, y with
  | NaN, _ | _, NaN => NaN
  | PInf, NInf | NInf, PInf => NaN
  | PInf, _ | _, PInf => PInf
  | NInf, _ | _, NInf => NInf
  | Fin a, Fin b => Fin (a + b)
  end.

Definition fsub (x y : fl) : fl := fadd x (fneg y).

(** The infinity carrying the sign of a non-zero rational. *)
Definition inf_of_sign (q : Qc) : fl :=
  if bool_decide (q < 0) then NInf else PInf.

Definition fmul (x y : fl) : fl :=
  match x, y with
  | NaN, _ | _, NaN => NaN
  | Fin a, Fin b => Fin (a * b)
  | PInf, PInf | NInf, NInf => PInf
  | PInf, NInf | NInf, PInf => NInf
  | PInf, Fin q | Fin q, PInf =>
      if bool_decide (q = 0) then NaN else inf_of_sign q
  | NInf, Fin q | Fin q, NInf =>
      if bool_decide (q = 0) then NaN else inf_of_sign (- q)
  end.

(** Division as numpy does it on float64: [x/0] is an infinity, [0/0] and
    [inf/inf] are NaN, nothing is raised. *)
Definition fdiv (x y : fl) : fl :=
  match x, y with
  | NaN, _ | _, NaN => NaN
  | Fin a, Fin b =>
      if bool_decide (b = 0)
      then (if bool_decide (a = 0) then NaN else inf_of_sign a)
      else Fin (a / b)
  | Fin _, (PInf | NInf) => Fin 0
  | (PInf | NInf), (PInf | NInf) => NaN
  | PInf, Fin b => inf_of_sign b
  | NInf, Fin b => inf_of_sign (- b)
  end.

(** [x ** 2] *)
Definition fpow2 (x : fl) : fl := fmul x x.

(** [x < y]; every comparison with NaN is false. *)
Definition fltb (x y : fl) : bool :=
  match x, y with
  | NaN, _ | _, NaN => false
  | _, NInf => false
  | NInf, _ => true
  | PInf, _ => false
  | Fin _, PInf => true
  | Fin a, Fin b => bool_decide (a < b)
  end.

Definition fgtb (x y : fl) : bool := fltb y x.

(** [x == y] on floats: NaN differs from itself. *)
Definition feqb (x y : fl) : bool :=
  match x, y with
  | NaN, _ | _, NaN => false
  | _, _ => bool_decide (x = y)
  end.

(** [x >= y] *)
Definition fgeb (x y : fl) : bool := fltb y x || feqb x y.

Definition fzero : fl := Fin 0.

Close Scope Qc_scope.

(** Literals: an integer, a fraction. *)
Definition fz (z : Z) : fl := Fin (Q2Qc (inject_Z z)).
Definition fq (n : Z) (d : positive) : fl := Fin (Q2Qc (n # d)).

(** ** Exceptions *)

Inductive pyerr : Type :=
  | KeyError (key : string)
  | IndexError
  | ValueError
  | TypeError
  | NameError
  | AttributeError.

Inductive res (A : Type) : Type :=
  | Ok (a : A)
  | Raise (e : pyerr).
Arguments Ok {A} a.
Arguments Raise {A} e.

#[global] Instance pyerr_eq_dec : EqDecision pyerr.
Proof. solve_decision. Defined.

#[global] Instance res_eq_dec {A} `{EqDecision A} : EqDecision (res A).
Proof. solve_decision. Defined.

#[global] Instance res_ret : MRet res := fun _ a => Ok a.
#[global] Instance res_bind : MBind res := fun _ _ f m =>
  match m with
  | Ok a => f a
  | Raise e => Raise e
  end.
#[global] Instance res_fmap : FMap res := fun _ _ f m =>
  match m with
  | Ok a => Ok (f a)
  | Raise e => Raise e
  end.

Definition of_option {A} (e : pyerr) (o : option A) : res A :=
  match o with
  | Some a => Ok a
  | None => Raise e
  end.

(** The value of a run that is known to succeed. *)
Definition res_default {A} (d : A) (r : res A) : A :=
  match r with
  | Ok a => a
  | Raise _ => d
  end.

(** [forM]: run [f] on every element, left to right, stopping at the first
    exception. *)
Fixpoint forM {A B} (f : A -> res B) (l : list A) : res (list B) :=
  match l with
  | [] => Ok []
  | a :: l' => b ← f a; bs ← forM f l'; Ok (b :: bs)
  end.

(** [foldM]: a [for] loop threading a state. *)
Fixpoint foldM {A S} (f : S -> A -> res S) (s : S) (l : list A) : res S :=
  match l with
  | [] => Ok s
  | a :: l' => s' ← f s a; foldM f s' l'
  end.

(** ** Python and numpy primitives *)

(** [l[x:y]] for non-negative [x], [y]: the bounds are clipped to the
    length, an empty range gives the empty list. *)
Definition py_slice {A} (l : list A) (x y : nat) : list A :=
  take (y - x) (drop x l).

(** [l[5:-5]] *)
Definition trim_edges {A} (l : list A) : list A :=
  take (length l - 10) (drop 5 l).

(** [int(round(n/2))] of Python 3: halves round to the even neighbour. *)
Definition round_half (n : nat) : nat :=
  if Nat.even n then n / 2
  else if Nat.even (n / 2) then n / 2 else S (n / 2).

(** [a[idx]] with a list of indices: a copy; [IndexError] when out of bounds. *)
Definition np_take (a : list fl) (idx : list nat) : res (list fl) :=
  forM (fun i => of_option IndexError (a !! i)) idx.

(** A view on a buffer, as made by [buf[x:y]] on a numpy array. *)
Record view : Type := View { v_off : nat; v_len : nat }.

#[global] Instance view_eq_dec : EqDecision view.
Proof. solve_decision. Defined.

(** [buf[x:y]] where [n = len(buf)] *)
Definition mk_view (n x y : nat) : view :=
  View (x `min` n) ((y `min` n) - (x `min` n)).

(** Reading the window of a view. *)
Definition deref (buf : list fl) (v : view) : list fl :=
  take (v_len v) (drop (v_off v) buf).

(** [v[:] = vals]: writing a whole window through the view. *)
Definition store (buf : list fl) (v : view) (vals : list fl) : list fl :=
  list_inserts (v_off v) (take (v_len v) vals) buf.

(** [v[x:y] = vals] where [vals] has the length of [v[x:y]]. *)
Definition store_slice (buf : list fl) (v : view) (x y : nat) (vals : list fl)
  : list fl :=
  store buf (View (v_off v + (x `min` v_len v))
                  ((y `min` v_len v) - (x `min` v_len v))) vals.

(** [v[x:y] = np.nan] *)
Definition blank_slice (buf : list fl) (v : view) (x y : nat) : list fl :=
  store_slice buf v x y (replicate (v_len v) NaN).

(** A view that lies within its buffer. *)
Definition view_ok (buf : list fl) (v : view) : Prop :=
  v_off v + v_len v <= length buf.

(** The builtin [max] on a sequence: keeps the first maximal element
    according to [>]; [ValueError] on an empty sequence. *)
Definition pymax (l : list fl) : res fl :=
  match l with
  | [] => Raise ValueError
  | x :: l' => Ok (fold_left (fun m y => if fgtb y m then y else m) l' x)
  end.

(** [np.fmax]: the larger operand, a NaN operand is ignored. *)
Definition ffmax (x y : fl) : fl :=
  if isnan x then y else if isnan y then x else if fltb x y then y else x.

(** [np.nanmax]: NaN only when every element is NaN. *)
Definition np_nanmax (l : list fl) : res fl :=
  match l with
  | [] => Raise ValueError
  | x :: l' => Ok (fold_left ffmax l' x)
  end.

Definition nan_to_zero (x : fl) : fl := if isnan x then fzero else x.

(** [np.nansum] of a one-dimensional array. *)
Definition np_nansum (l : list fl) : fl :=
  fold_left (fun acc x => fadd acc (nan_to_zero x)) l fzero.

(** The result of a numpy reduction or operation: a scalar or an array. *)
Inductive ndarray : Type :=
  | Scalar (x : fl)
  | Array (a : list fl).

(** Column [i] of a list of rows. *)
Definition column (i : nat) (rows : list (list fl)) : list fl :=
  (fun r => r !!! i) <$> rows.

(** [np.nansum(np.asarray(rows), axis=0)].  [np.asarray([])] has shape
    [(0,)], whose sum along axis 0 is the scalar [0.0]; otherwise the rows
    (all of one length) form a matrix that is summed column by column. *)
Definition np_nansum_axis0 (rows : list (list fl)) : ndarray :=
  match rows with
  | [] => Scalar fzero
  | r :: _ => Array ((fun i => np_nansum (column i rows)) <$> seq 0 (length r))
  end.

(** [x / d] with broadcasting of a scalar [x]. *)
Definition np_divide (x : ndarray) (d : list fl) : res (list fl) :=
  match x with
  | Scalar s => Ok (fdiv s <$> d)
  | Array a =>
      if bool_decide (length a = length d)
      then Ok (zip_with fdiv a d)
      else Raise ValueError
  end.

(** [np.arange(start, stop, step)] on floats: [ceil((stop-start)/step)]
    points [start + i*step]; numpy refuses a zero or non-finite step or
    bound. *)
Definition np_arange (start stop step : fl) : res (list fl) :=
  match start, stop, step with
  | Fin a, Fin b, Fin s =>
      if bool_decide (s = 0%Qc) then Raise ValueError
      else
        let n := Z.to_nat (Qceiling (this ((b - a) / s)%Qc)) in
        Ok ((fun i => Fin (a + Q2Qc (inject_Z (Z.of_nat i)) * s)%Qc) <$> seq 0 n)
  | _, _, _ => Raise ValueError
  end.

(** The search of [np.interp] once [key] is known to lie within
    [[xp[0], xp[-1]]]: the index before the first sample (from the second on)
    that exceeds [key].  On an increasing [xp], which numpy requires and does
    not check, this is the [j] with [xp[j] <= key < xp[j+1]] that numpy's
    linear search (short arrays) and bisection (long arrays) both find. *)
Fixpoint count_ge (key : fl) (l : list fl) : nat :=
  match l with
  | [] => 0
  | a :: l' => if fgeb key a then S (count_ge key l') else 0
  end.

(** One query point of [np.interp(x, xp, fp, left, right)], for a non-empty
    [xp]: points right of the last sample and left of the first one get
    [right] and [left], before anything is interpolated. *)
Definition interp_point (xp fp : list fl) (left right x : fl) : fl :=
  match xp with
  | [xp0] =>
      if fltb x xp0 then left
      else if fgtb x xp0 then right
      else fp !!! 0
  | _ =>
      if isnan x then x
      else if fgtb x (List.last xp NaN) then right
      else if fltb x (hd NaN xp) then left
      else
        let j := count_ge x (tl xp) in
        if bool_decide (j = length xp - 1) then fp !!! j
        else if feqb (xp !!! j) x then fp !!! j
        else
          let slope := fdiv (fsub (fp !!! S j) (fp !!! j))
                            (fsub (xp !!! S j) (xp !!! j)) in
          let r := fadd (fmul slope (fsub x (xp !!! j))) (fp !!! j) in
          if isnan r then
            let r' := fadd (fmul slope (fsub x (xp !!! S j))) (fp !!! S j) in
            if isnan r' && feqb (fp !!! j) (fp !!! S j) then fp !!! j else r'
          else r
  end.

(** [np.interp(x, xp, fp, left=..., right=...)] *)
Definition np_interp (x xp fp : list fl) (left right : fl) : res (list fl) :=
  if bool_decide (xp = []) then Raise ValueError
  else if bool_decide (length fp = length xp) then
    Ok (interp_point xp fp left right <$> x)
  else Raise ValueError.

(** ** Values of the [params] dictionary *)

Inductive pyval : Type :=
  | VFloat (x : fl)
  | VArray (a : list fl)
  | VBool (b : bool)
  | VStr (s : string)
  | VInts (l : list Z).

#[global] Instance pyval_eq_dec : EqDecision pyval.
Proof. solve_decision. Defined.

(** The dictionary values are used at one type each; a value of another
    type is reported as a [TypeError] where it is read. *)
Definition as_float (v : pyval) : res fl :=
  match v with VFloat x => Ok x | _ => Raise TypeError end.
Definition as_array (v : pyval) : res (list fl) :=
  match v with VArray a => Ok a | _ => Raise TypeError end.
Definition as_ints (v : pyval) : res (list Z) :=
  match v with VInts l => Ok l | _ => Raise TypeError end.

(** [v is True] *)
Definition is_True (v : pyval) : bool :=
  match v with VBool true => true | _ => false end.

(** [params[k]] *)
Definition getitem (params : gmap string pyval) (k : string) : res pyval :=
  of_option (KeyError k) (params !! k).

(** [k in params.keys()] *)
Definition has_key (params : gmap string pyval) (k : string) : bool :=
  bool_decide (is_Some (params !! k)).

(** What is written on standard output. *)
Inductive printed : Type :=
  | PrintValue (v : pyval)
  | PrintRange (lo c hi : fl).

#[global] Instance printed_eq_dec : EqDecision printed.
Proof. solve_decision. Defined.

(** ** The data model *)

(** The two arrays that the chunks window and that blanking writes to. *)
Record mem : Type := Mem { m_int_arr : list fl; m_int_sim : list fl }.

#[global] Instance mem_eq_dec : EqDecision mem.
Proof. solve_decision. Defined.

Record ObsChunk : Type := mkObsChunk {
  freq_obs : list fl;
  int_obs : view;
  freq_sim : list fl;
  int_sim : view;
  peak_int : fl;
  id : nat;
  flag : bool;
  rms : fl;
  cfreq : fl;
  velocity : list fl;
  sim_velocity : list fl;
  weight : option fl;
  int_weighted : option (list fl);
  int_sim_weighted : option (list fl);
  int_samp : option (list fl);
  int_sim_samp : option (list fl)
}.

#[global] Instance ObsChunk_eq_dec : EqDecision ObsChunk.
Proof. solve_decision. Defined.

(** [obs.int_obs] and [obs.int_sim] as they read in memory [M]. *)
Definition obs_ints (M : mem) (obs : ObsChunk) : list fl :=
  deref (m_int_arr M) (int_obs obs).
Definition sim_ints (M : mem) (obs : ObsChunk) : list fl :=
  deref (m_int_sim M) (int_sim obs).

(** Both windows of a chunk lie within the arrays of [M]. *)
Definition views_ok (M : mem) (obs : ObsChunk) : Prop :=
  view_ok (m_int_arr M) (int_obs obs) /\ view_ok (m_int_sim M) (int_sim obs).

#[global] Instance ObsChunk_inhabited : Inhabited ObsChunk :=
  populate (mkObsChunk [] (View 0 0) [] (View 0 0) NaN 0 false NaN NaN [] []
              None None None None None).

Definition with_flag (obs : ObsChunk) (b : bool) : ObsChunk :=
  mkObsChunk (freq_obs obs) (int_obs obs) (freq_sim obs) (int_sim obs)
    (peak_int obs) (id obs) b (rms obs) (cfreq obs) (velocity obs)
    (sim_velocity obs) (weight obs) (int_weighted obs) (int_sim_weighted obs)
    (int_samp obs) (int_sim_samp obs).

Definition with_rms (obs : ObsChunk) (r : fl) : ObsChunk :=
  mkObsChunk (freq_obs obs) (int_obs obs) (freq_sim obs) (int_sim obs)
    (peak_int obs) (id obs) (flag obs) r (cfreq obs) (velocity obs)
    (sim_velocity obs) (weight obs) (int_weighted obs) (int_sim_weighted obs)
    (int_samp obs) (int_sim_samp obs).

Definition with_cfreq (obs : ObsChunk) (c : fl) : ObsChunk :=
  mkObsChunk (freq_obs obs) (int_obs obs) (freq_sim obs) (int_sim obs)
    (peak_int obs) (id obs) (flag obs) (rms obs) c (velocity obs)
    (sim_velocity obs) (weight obs) (int_weighted obs) (int_sim_weighted obs)
    (int_samp obs) (int_sim_samp obs).

Definition with_velocity (obs : ObsChunk) (v : list fl) : ObsChunk :=
  mkObsChunk (freq_obs obs) (int_obs obs) (freq_sim obs) (int_sim obs)
    (peak_int obs) (id obs) (flag obs) (rms obs) (cfreq obs) v
    (sim_velocity obs) (weight obs) (int_weighted obs) (int_sim_weighted obs)
    (int_samp obs) (int_sim_samp obs).

Definition with_sim_velocity (obs : ObsChunk) (v : list fl) : ObsChunk :=
  mkObsChunk (freq_obs obs) (int_obs obs) (freq_sim obs) (int_sim obs)
    (peak_int obs) (id obs) (flag obs) (rms obs) (cfreq obs) (velocity obs)
    v (weight obs) (int_weighted obs) (int_sim_weighted obs)
    (int_samp obs) (int_sim_samp obs).

Definition with_weights (obs : ObsChunk) (w : fl) (iw isw : list fl)
  : ObsChunk :=
  mkObsChunk (freq_obs obs) (int_obs obs) (freq_sim obs) (int_sim obs)
    (peak_int obs) (id obs) (flag obs) (rms obs) (cfreq obs) (velocity obs)
    (sim_velocity obs) (Some w) (Some iw) (Some isw)
    (int_samp obs) (int_sim_samp obs).

Definition with_samples (obs : ObsChunk) (s ss : list fl) : ObsChunk :=
  mkObsChunk (freq_obs obs) (int_obs obs) (freq_sim obs) (int_sim obs)
    (peak_int obs) (id obs) (flag obs) (rms obs) (cfreq obs) (velocity obs)
    (sim_velocity obs) (weight obs) (int_weighted obs) (int_sim_weighted obs)
    (Some s) (Some ss).

(** The [Spectrum] container, with the fields the stack fills. *)
Module Spectrum.
Record t : Type := mk {
  name : string;
  velocity : list fl;
  snr : list fl;
  int_sim : list fl
}.

#[global] Instance eq_dec : EqDecision t.
Proof. solve_decision. Defined.
End Spectrum.

(** The local variables that [velocity_stack] unpacks from [params]. *)
Module Locals.
Record t : Type := mk {
  freq_arr : list fl;
  int_arr : list fl;
  freq_sim : list fl;
  int_sim : list fl;
  res_inp : fl;
  dV : fl;
  dV_ext : option fl;
  vlsr : pyval;
  vel_width : fl;
  v_res : fl;
  drops : list Z;
  blank_lines : bool;
  blank_keep_range : list fl;
  flag_lines : bool;
  flag_sigma : fl
}.

#[global] Instance eq_dec : EqDecision t.
Proof. solve_decision. Defined.
End Locals.

(** What a call leaves behind: the returned pair, the (possibly blanked)
    input arrays that the chunks window, and the printed lines. *)
Record StackOutput : Type := mkStackOutput {
  stacked_spectrum : Spectrum.t;
  obs_chunks : list ObsChunk;
  final_mem : mem;
  stdout : list printed
}.

#[global] Instance StackOutput_eq_dec : EqDecision StackOutput.
Proof. solve_decision. Defined.

(** ** The pipeline *)

Section VelocityStack.

(** [molsim.constants.ckm], the speed of light in km/s. *)
Variable ckm : fl.
(** [molsim.stats.get_rms] *)
Variable get_rms : list fl -> fl.
(** [molsim.utils.find_nearest]: the index of the sample nearest a value. *)
Variable find_nearest : list fl -> fl -> nat.
(** [molsim.utils._find_nans]: start and end indices of the NaN runs. *)
Variable _find_nans : list fl -> list nat * list nat.
(** [molsim.utils.find_peaks], called with [is_sim=True]. *)
Variable find_peaks : list fl -> list fl -> fl -> fl -> list nat.
(** [molsim.utils._get_res] *)
Variable _get_res : list fl -> fl.

(** *** [ObsChunk] *)

Definition set_rms (M : mem) (obs : ObsChunk) : ObsChunk :=
  with_rms obs (get_rms (obs_ints M obs)).

Definition set_cfreq (obs : ObsChunk) : res ObsChunk :=
  c ← of_option IndexError
        (freq_obs obs !! round_half (length (freq_obs obs)));
  Ok (with_cfreq obs c).

(** [(f - cfreq)*ckm/cfreq], added to an array of zeros. *)
Definition doppler (c : fl) (f : fl) : fl :=
  fadd fzero (fdiv (fmul (fsub f c) ckm) c).

Definition set_velocity (obs : ObsChunk) : ObsChunk :=
  with_velocity obs (doppler (cfreq obs) <$> freq_obs obs).

Definition set_sim_velocity (obs : ObsChunk) : ObsChunk :=
  with_sim_velocity obs (doppler (cfreq obs) <$> freq_sim obs).

(** [ObsChunk.__init__]; the fields that Python initialises to [None] or
    leaves unset start at a placeholder that the setters overwrite. *)
Definition ObsChunk_init (M : mem) (freq_obs : list fl) (int_obs : view)
    (freq_sim : list fl) (int_sim : view) (peak_int : fl) (id : nat)
  : res ObsChunk :=
  let self := mkObsChunk freq_obs int_obs freq_sim int_sim peak_int id
                false NaN NaN [] [] None None None None None in
  let self := set_rms M self in
  self ← set_cfreq self;
  let self := set_velocity self in
  let self := set_sim_velocity self in
  Ok self.

(** *** Unpacking [params] *)

Definition unpack (params : gmap string pyval) : res Locals.t :=
  freq_arr ← getitem params "freq_arr" ≫= as_array;
  int_arr ← getitem params "int_arr" ≫= as_array;
  freq_sim ← getitem params "freq_sim" ≫= as_array;
  int_sim ← getitem params "int_sim" ≫= as_array;
  res_inp ← (if has_key params "res_inp"
             then getitem params "res_inp" ≫= as_float
             else Ok (_get_res freq_arr));
  dV ← getitem params "dV" ≫= as_float;
  dV_ext ← (if has_key params "dV_ext"
            then Some <$> (getitem params "dV_ext" ≫= as_float)
            else Ok None);
  vlsr ← getitem params "vlsr";
  vel_width ← getitem params "vel_width" ≫= as_float;
  v_res ← (if has_key params "drops"
           then getitem params "v_res" ≫= as_float
           else Ok (fmul (fq 1 10) dV));
  drops ← (if has_key params "drops"
           then getitem params "drops" ≫= as_ints
           else Ok []);
  blank_lines ← (if has_key params "blank_lines"
                 then is_True <$> getitem params "blank_lines"
                 else Ok false);
  blank_keep_range ← (if has_key params "blank_keep_range"
                      then getitem params "blank_keep_range" ≫= as_array
                      else Ok [fmul (fz (-3)) dV; fmul (fz 3) dV]);
  flag_lines ← (if has_key params "flag_lines"
                then is_True <$> getitem params "flag_lines"
                else Ok false);
  flag_sigma ← (if has_key params "flag_sigma"
                then getitem params "flag_sigma" ≫= as_float
                else Ok (fz 5));
  Ok (Locals.mk freq_arr int_arr freq_sim int_sim res_inp dV dV_ext vlsr
        vel_width v_res drops blank_lines blank_keep_range flag_lines
        flag_sigma).

(** *** Selecting the features to stack *)

Definition select_peaks (L : Locals.t) : res (list fl * list fl) :=
  let peak_indices :=
    find_peaks (Locals.freq_sim L) (Locals.int_sim L) (Locals.res_inp L)
      (Locals.dV L) in
  peak_freqs ← np_take (Locals.freq_sim L) peak_indices;
  peak_ints ← np_take (Locals.int_sim L) peak_indices;
  Ok (peak_freqs, peak_ints).

Definition select_lines (L : Locals.t) : res (list fl * list fl) :=
  dV_ext ← of_option TypeError (Locals.dV_ext L);
  let width := fmul (Locals.dV L) dV_ext in
  let peak_indices :=
    find_peaks (Locals.freq_sim L) (Locals.int_sim L) (Locals.res_inp L)
      width in
  peak_freqs ← np_take (Locals.freq_sim L) peak_indices;
  let freq_widths := (fun pf => fdiv (fmul width pf) ckm) <$> peak_freqs in
  let lls :=
    zip_with (fun x y => find_nearest (Locals.freq_sim L)
                           (fsub x (fdiv y (fz 2))))
      peak_freqs freq_widths in
  let uls :=
    zip_with (fun x y => find_nearest (Locals.freq_sim L)
                           (fadd x (fdiv y (fz 2))))
      peak_freqs freq_widths in
  let peak_ints :=
    zip_with (fun x y => np_nansum (py_slice (Locals.int_sim L) x y))
      lls uls in
  Ok (peak_freqs, peak_ints).

(** The two [if params['selection'] == ...] blocks; with another selection
    [peak_freqs] is unbound where it is next read. *)
Definition select (params : gmap string pyval) (L : Locals.t)
  : res (list fl * list fl) :=
  selection ← getitem params "selection";
  if bool_decide (selection = VStr "peaks") then select_peaks L
  else if bool_decide (selection = VStr "lines") then select_lines L
  else Raise NameError.

(** *** Splitting out the chunks *)

Definition make_chunks (L : Locals.t) (peak_freqs peak_ints : list fl)
  : res (list ObsChunk) :=
  let M := Mem (Locals.int_arr L) (Locals.int_sim L) in
  let freq_widths :=
    (fun pf => fdiv (fmul (Locals.vel_width L) pf) ckm) <$> peak_freqs in
  let lls_obs :=
    zip_with (fun x y => find_nearest (Locals.freq_arr L) (fsub x y))
      peak_freqs freq_widths in
  let uls_obs :=
    zip_with (fun x y => find_nearest (Locals.freq_arr L) (fadd x y))
      peak_freqs freq_widths in
  let lls_sim :=
    zip_with (fun x y => find_nearest (Locals.freq_sim L) (fsub x y))
      peak_freqs freq_widths in
  let uls_sim :=
    zip_with (fun x y => find_nearest (Locals.freq_sim L) (fadd x y))
      peak_freqs freq_widths in
  forM (fun '(x, (y, (a, (b, (peak_int, c))))) =>
          ObsChunk_init M
            (py_slice (Locals.freq_arr L) x y)
            (mk_view (length (Locals.int_arr L)) x y)
            (py_slice (Locals.freq_sim L) a b)
            (mk_view (length (Locals.int_sim L)) a b)
            peak_int c)
       (zip lls_obs (zip uls_obs (zip lls_sim (zip uls_sim
          (zip peak_ints (seq 0 (length uls_sim))))))).

(** *** Flagging and blanking *)

(** The indices of the safe range in the observed and in the simulated
    window of a chunk, and the line that is printed with them. *)
Record SafeRange : Type := mkSafeRange {
  ll_obs : nat;
  ul_obs : nat;
  ll_sim : nat;
  ul_sim : nat;
  range_line : printed
}.

#[global] Instance SafeRange_eq_dec : EqDecision SafeRange.
Proof. solve_decision. Defined.

Definition safe_range (L : Locals.t) (obs : ObsChunk) : res SafeRange :=
  hi ← of_option IndexError (Locals.blank_keep_range L !! 1);
  lo ← of_option IndexError (Locals.blank_keep_range L !! 0);
  let f_ll := fsub (cfreq obs) (fdiv (fmul hi (cfreq obs)) ckm) in
  let f_ul := fsub (cfreq obs) (fdiv (fmul lo (cfreq obs)) ckm) in
  Ok (mkSafeRange
        (find_nearest (freq_obs obs) f_ll) (find_nearest (freq_obs obs) f_ul)
        (find_nearest (freq_sim obs) f_ll) (find_nearest (freq_sim obs) f_ul)
        (PrintRange f_ll (cfreq obs) f_ul)).

(** The blanking of one chunk (the body of [if blank_lines is True]). *)
Definition blank_chunk (L : Locals.t) (M : mem) (obs : ObsChunk)
  : res (mem * printed * ObsChunk) :=
  R ← safe_range L obs;
  let obs_safe := py_slice (obs_ints M obs) (ll_obs R) (ul_obs R) in
  let sim_safe := py_slice (sim_ints M obs) (ll_sim R) (ul_sim R) in
  let thr := fmul (Locals.flag_sigma L) (rms obs) in
  let I1 :=
    store (m_int_arr M) (int_obs obs)
      ((fun x => if fgtb (fabs x) thr then NaN else x) <$> obs_ints M obs) in
  let '(obs_nans_lls, obs_nans_uls) := _find_nans (deref I1 (int_obs obs)) in
  obs_nans_freqs_lls ← np_take (deref I1 (int_obs obs)) obs_nans_lls;
  obs_nans_freqs_uls ← np_take (deref I1 (int_obs obs)) obs_nans_uls;
  let sim_nans_lls := find_nearest (sim_ints M obs) <$> obs_nans_freqs_lls in
  let sim_nans_uls := find_nearest (sim_ints M obs) <$> obs_nans_freqs_uls in
  let S1 :=
    fold_left (fun S '(x, y) => blank_slice S (int_sim obs) x y)
      (zip sim_nans_lls sim_nans_uls) (m_int_sim M) in
  let I2 := store_slice I1 (int_obs obs) (ll_obs R) (ul_obs R) obs_safe in
  let S2 := store_slice S1 (int_sim obs) (ll_sim R) (ul_sim R) sim_safe in
  let M' := Mem I2 S2 in
  Ok (M', range_line R, set_rms M' obs).

(** One turn of the loop [for obs in obs_chunks] under [#flagging]. *)
Definition flag_chunk (L : Locals.t) (st : mem * list printed)
    (obs : ObsChunk) : res (mem * list printed * ObsChunk) :=
  let '(M, out) := st in
  if flag obs then Ok (M, out, obs)
  else if bool_decide (length (freq_obs obs) = 0)
  then Ok (M, out, with_flag obs true)
  else if bool_decide (Z.of_nat (id obs) ∈ Locals.drops L)
  then Ok (M, out, with_flag obs true)
  else
    '(M1, out1, obs1) ←
       (if Locals.blank_lines L
        then '(M', line, obs') ← blank_chunk L M obs;
             Ok (M', out ++ [line], obs')
        else Ok (M, out, obs));
    if Locals.flag_lines L then
      m ← np_nanmax (obs_ints M1 obs1);
      if fgtb m (fmul (Locals.flag_sigma L) (rms obs1))
      then Ok (M1, out1, with_flag obs1 true)
      else Ok (M1, out1, obs1)
    else Ok (M1, out1, obs1).

Fixpoint flag_loop (L : Locals.t) (st : mem * list printed)
    (chunks : list ObsChunk) : res (mem * list printed * list ObsChunk) :=
  match chunks with
  | [] => Ok (st, [])
  | obs :: rest =>
      '(M, out, obs') ← flag_chunk L st obs;
      '(M', out', rest') ← flag_loop L (M, out) rest;
      Ok (M', out', obs' :: rest')
  end.

(** *** Weights *)

Definition weight_chunk (M : mem) (max_int : fl) (obs : ObsChunk)
  : ObsChunk :=
  if flag obs then obs
  else
    let w := fdiv (peak_int obs) max_int in
    let w := fdiv w (fpow2 (rms obs)) in
    with_weights obs w
      ((fun x => fmul x w) <$> obs_ints M obs)
      ((fun x => fmul x w) <$> sim_ints M obs).

(** *** Resampling *)

Definition resample_chunk (velocity_avg : list fl) (obs : ObsChunk)
  : res ObsChunk :=
  if flag obs then Ok obs
  else
    iw ← of_option AttributeError (int_weighted obs);
    s ← np_interp velocity_avg (velocity obs) iw NaN NaN;
    isw ← of_option AttributeError (int_sim_weighted obs);
    ss ← np_interp velocity_avg (sim_velocity obs) isw NaN NaN;
    Ok (with_samples obs s ss).

(** *** Compositing *)

(** The three lists gathered from the unflagged chunks. *)
Record Interped : Type := mkInterped {
  interped_ints : list (list fl);
  interped_rms : list fl;
  interped_sim_ints : list (list fl)
}.

#[global] Instance Interped_eq_dec : EqDecision Interped.
Proof. solve_decision. Defined.

Definition gather (chunks : list ObsChunk) : res Interped :=
  let kept := filter (fun obs => flag obs = false) chunks in
  ints ← forM (fun obs => of_option AttributeError (int_samp obs)) kept;
  sims ← forM (fun obs => of_option AttributeError (int_sim_samp obs)) kept;
  Ok (mkInterped ints (rms <$> kept) sims).

(** The inner loop over [y] for one grid index [x]. *)
Definition rms_sum_at (ints : list (list fl)) (rmss : list fl) (x : nat)
  : fl :=
  fold_left
    (fun rms_sum y =>
       if isnan ((ints !!! y) !!! x) then rms_sum
       else fadd rms_sum (fpow2 (rmss !!! y)))
    (seq 0 (length rmss)) fzero.

Definition make_rms_arr (velocity_avg : list fl) (I : Interped) : list fl :=
  rms_sum_at (interped_ints I) (interped_rms I)
    <$> seq 0 (length velocity_avg).

(** The arrays before the edge channels are dropped. *)
Record Composite : Type := mkComposite {
  rms_arr : list fl;
  int_avg : list fl;
  int_sim_avg : list fl
}.

#[global] Instance Composite_eq_dec : EqDecision Composite.
Proof. solve_decision. Defined.

Definition composite (velocity_avg : list fl) (I : Interped)
  : res Composite :=
  let rms_arr := make_rms_arr velocity_avg I in
  int_avg ← np_divide (np_nansum_axis0 (interped_ints I)) rms_arr;
  int_sim_avg ← np_divide (np_nansum_axis0 (interped_sim_ints I)) rms_arr;
  Ok (mkComposite rms_arr int_avg int_sim_avg).

(** Dropping the edge channels and dividing by the final rms. *)
Definition finish (name : string) (velocity_avg : list fl) (C : Composite)
  : Spectrum.t :=
  let int_avg := trim_edges (int_avg C) in
  let int_sim_avg := trim_edges (int_sim_avg C) in
  let velocity_avg := trim_edges velocity_avg in
  let rms_tmp := get_rms int_avg in
  Spectrum.mk name velocity_avg
    ((fun x => fdiv x rms_tmp) <$> int_avg)
    ((fun x => fdiv x rms_tmp) <$> int_sim_avg).

(** From [#setting and applying the weights] to the resampled chunks: the
    shared velocity grid and the chunks with their samples. *)
Definition weigh_and_resample (L : Locals.t) (M : mem) (peak_ints : list fl)
    (chunks : list ObsChunk) : res (list fl * list ObsChunk) :=
  max_int ← pymax peak_ints;
  let chunks := weight_chunk M max_int <$> chunks in
  velocity_avg ←
    np_arange (fneg (Locals.vel_width L)) (Locals.vel_width L)
      (Locals.v_res L);
  chunks ← forM (resample_chunk velocity_avg) chunks;
  Ok (velocity_avg, chunks).

(** Everything after the flagging loop. *)
Definition stack_chunks (name : string) (L : Locals.t) (M : mem)
    (peak_ints : list fl) (chunks : list ObsChunk)
  : res (Spectrum.t * list ObsChunk) :=
  '(velocity_avg, chunks) ← weigh_and_resample L M peak_ints chunks;
  I ← gather chunks;
  C ← composite velocity_avg I;
  Ok (finish name velocity_avg C, chunks).

(** Everything up to and including the flagging loop: the unpacked locals,
    [peak_ints], the arrays as blanking left them, the printed lines and
    the chunks. *)
Definition prepare (params : gmap string pyval)
  : res (Locals.t * list fl * mem * list printed * list ObsChunk) :=
  L ← unpack params;
  '(peak_freqs, peak_ints) ← select params L;
  chunks ← make_chunks L peak_freqs peak_ints;
  let out := [PrintValue (Locals.vlsr L)] in
  let M := Mem (Locals.int_arr L) (Locals.int_sim L) in
  '(M, out, chunks) ← flag_loop L (M, out) chunks;
  Ok (L, peak_ints, M, out, chunks).

(** *** [velocity_stack(params, name)] *)

Definition velocity_stack (params : gmap string pyval) (name : string)
  : res StackOutput :=
  '(L, peak_ints, M, out, chunks) ← prepare params;
  '(spectrum, chunks) ← stack_chunks name L M peak_ints chunks;
  Ok (mkStackOutput spectrum chunks M out).

End VelocityStack.

(** ** A sample instance of the imported helpers

    Simple executable stand-ins for the helpers that [functions.py] imports,
    used to run the pipeline on concrete data.  The general theorems below
    hold for every choice of the helpers. *)

Module Sample.

(** 299792.458 km/s *)
Definition ckm : fl := fq 299792458 1000.

(** A noise estimate with rational values: the mean magnitude of the
    samples that are not NaN. *)
Definition get_rms (l : list fl) : fl :=
  let kept := filter (fun x => isnan x = false) l in
  fdiv (fold_left fadd (fabs <$> kept) fzero)
       (fz (Z.of_nat (length kept))).

(** The first index whose sample is nearest [v]. *)
Fixpoint nearest_from (l : list fl) (v : fl) (i : nat) (best : nat)
    (dist : fl) : nat :=
  match l with
  | [] => best
  | a :: l' =>
      let d := fabs (fsub a v) in
      if fltb d dist then nearest_from l' v (S i) i d
      else nearest_from l' v (S i) best dist
  end.

Definition find_nearest (l : list fl) (v : fl) : nat :=
  nearest_from l v 0 0 PInf.

(** The first and the last index of every run of NaN. *)
Fixpoint nan_runs (l : list fl) (i : nat) (start : option nat)
  : list nat * list nat :=
  match l with
  | [] =>
      match start with
      | Some s => ([s], [i - 1])
      | None => ([], [])
      end
  | a :: l' =>
      match start, isnan a with
      | None, true => nan_runs l' (S i) (Some i)
      | None, false => nan_runs l' (S i) None
      | Some s, true => nan_runs l' (S i) (Some s)
      | Some s, false =>
          let '(lls, uls) := nan_runs l' (S i) None in
          (s :: lls, (i - 1) :: uls)
      end
  end.

Definition _find_nans (l : list fl) : list nat * list nat :=
  nan_runs l 0 None.

(** The indices of the strict local maxima of the simulation. *)
Definition is_peak (int : list fl) (i : nat) : bool :=
  match i with
  | O => false
  | S j => fltb (int !!! j) (int !!! i) && fltb (int !!! S i) (int !!! i)
  end.

Definition find_peaks (freq int : list fl) (res width : fl) : list nat :=
  filter (fun i => is_peak int i = true) (seq 0 (length int)).

Definition _get_res (freq : list fl) : fl :=
  fsub (freq !!! 1) (freq !!! 0).

Definition prepare
  : gmap string pyval
    -> res (Locals.t * list fl * mem * list printed * list ObsChunk) :=
  prepare ckm get_rms find_nearest _find_nans find_peaks _get_res.

Definition velocity_stack : gmap string pyval -> string -> res StackOutput :=
  velocity_stack ckm get_rms find_nearest _find_nans find_peaks _get_res.

(** Sixty channels 0.01 MHz apart from 29979.0 MHz; two simulated lines,
    at channels 20 and 40, on a flat observed spectrum with a ripple. *)
Definition freq : list fl :=
  (fun i => fq (2997900 + Z.of_nat i) 100) <$> seq 0 60.
Definition sim : list fl :=
  (fun i => if bool_decide (i = 20) then fz 2
            else if bool_decide (i = 40) then fz 1
            else fz 0) <$> seq 0 60.
Definition obs : list fl :=
  (fun i => fq (Z.of_nat (i mod 3) - 1) 10) <$> seq 0 60.

Definition base_params : gmap string pyval :=
  <["selection" := VStr "peaks"]> (
  <["freq_arr" := VArray freq]> (
  <["int_arr" := VArray obs]> (
  <["freq_sim" := VArray freq]> (
  <["int_sim" := VArray sim]> (
  <["dV" := VFloat (fz 1)]> (
  <["vlsr" := VFloat (fz 0)]> (
  <["vel_width" := VFloat (fz 1)]> ∅))))))).

End Sample.

(** ** The statements of the specification, as definitions

    These follow the wording of the specification and are what the code is
    compared with. *)

(** A plain left-to-right sum. *)
Definition fsum (l : list fl) : fl := fold_left fadd l fzero.

(** Sample [i] of a resampled series, when the series exists. *)
Definition sample_at (s : option (list fl)) (i : nat) : fl :=
  match s with
  | Some a => a !!! i
  | None => NaN
  end.

(** "Surviving and not missing at index [i]" for the series [sel]. *)
Definition contributes (sel : ObsChunk -> option (list fl)) (i : nat)
    (obs : ObsChunk) : Prop :=
  flag obs = false /\ isnan (sample_at (sel obs) i) = false.

#[global] Instance contributes_dec sel i obs : Decision (contributes sel i obs).
Proof. unfold contributes. apply _. Defined.

(** The sum of [rms²] over exactly the chunks that contribute at [i]. *)
Definition noise_over (sel : ObsChunk -> option (list fl)) (i : nat)
    (chunks : list ObsChunk) : fl :=
  fsum ((fun obs => fpow2 (rms obs)) <$> filter (contributes sel i) chunks).

(** The missing-value-aware sum of the series [sel] at [i]. *)
Definition signal_over (sel : ObsChunk -> option (list fl)) (i : nat)
    (chunks : list ObsChunk) : fl :=
  fsum ((fun obs => sample_at (sel obs) i) <$> filter (contributes sel i) chunks).

(** A query point strictly outside the range of the samples [xs]. *)
Definition outside (x : fl) (xs : list fl) : Prop :=
  Forall (fun v => fltb x v = true) xs \/ Forall (fun v => fltb v x = true) xs.

(** A placeholder for the result of a run, where a default is required. *)
Definition no_output : StackOutput :=
  mkStackOutput (Spectrum.mk "none" [] [] []) [] (Mem [] []) [].

(** ** A two-line example

    Two lines, at [ckm] MHz and at twice that frequency, so that the chunk
    velocities are whole km/s.  The observed window of each line is four
    channels (velocities -2, -1, 0, 1); the simulated axis has fewer channels
    around the second line, whose simulated window only covers -1, 0, 1.
    The observed intensity is 1 around the first line and 2 around the
    second, which makes the sample noise estimates 1 and 2. *)

Module TwoLines.

Definition c : Z := 299792458.

Definition freq_arr : list fl :=
  ((fun k => fq (c + 1000 * k) 1000) <$> [-3; -2; -1; 0; 1; 2; 3]%Z)
  ++ ((fun k => fq (2 * c + 2000 * k) 1000) <$> [-3; -2; -1; 0; 1; 2; 3]%Z).

Definition int_arr : list fl := replicate 7 (fz 1) ++ replicate 7 (fz 2).

Definition freq_sim : list fl :=
  ((fun k => fq (c + 1000 * k) 1000) <$> [-3; -2; -1; 0; 1; 2; 3]%Z)
  ++ ((fun k => fq (2 * c + 2000 * k) 1000) <$> [-1; 0; 1; 2]%Z).

Definition int_sim : list fl :=
  fz <$> [0; 1; 1; 2; 1; 1; 0; 0; 1; 0; 0]%Z.

Definition params : gmap string pyval :=
  <["selection" := VStr "peaks"]> (
  <["freq_arr" := VArray freq_arr]> (
  <["int_arr" := VArray int_arr]> (
  <["freq_sim" := VArray freq_sim]> (
  <["int_sim" := VArray int_sim]> (
  <["dV" := VFloat (fz 10)]> (
  <["vlsr" := VFloat (fz 0)]> (
  <["vel_width" := VFloat (fz 2)]> ∅))))))).

(** The locals that [params] unpacks to: the grid step is [0.1*dV = 1]. *)
Definition L : Locals.t :=
  Locals.mk freq_arr int_arr freq_sim int_sim (fz 1) (fz 10) None
    (VFloat (fz 0)) (fz 2) (fz 1) [] false [fz (-30); fz 30] false (fz 5).

Definition M : mem := Mem int_arr int_sim.

Definition peak_freqs : list fl := [fq c 1000; fq (2 * c) 1000].
Definition peak_ints : list fl := [fz 2; fz 1].

(** The chunks as they leave the flagging loop (nothing is flagged). *)
Definition chunks0 : list ObsChunk :=
  res_default []
    (make_chunks Sample.ckm Sample.get_rms Sample.find_nearest L
       peak_freqs peak_ints).

(** The grid [-2, -1, 0, 1] and the resampled chunks. *)
Definition resampled : list fl * list ObsChunk :=
  res_default ([], []) (weigh_and_resample L M peak_ints chunks0).

Definition grid : list fl := resampled.1.
Definition chunks : list ObsChunk := resampled.2.

(** The arrays that are averaged, before the edge channels are dropped. *)
Definition averaged : Composite :=
  res_default (mkComposite [] [] [])
    (gather chunks ≫= composite grid).

(** The result of the sample run on the two-line example. *)
Definition output : StackOutput :=
  res_default no_output
    (Sample.velocity_stack params "stack").

(** The same call with the first chunk (the stronger line) excluded by
    [drops]; [v_res] has to be given along with [drops]. *)
Definition params_drop : gmap string pyval :=
  <["drops" := VInts [0%Z]]> (<["v_res" := VFloat (fz 1)]> params).

Definition output_drop : StackOutput :=
  res_default no_output
    (Sample.velocity_stack params_drop "stack").

End TwoLines.

(** The chunks that take part in the composite. *)
Definition kept (chunks : list ObsChunk) : list ObsChunk :=
  filter (fun obs => flag obs = false) chunks.

(** What resampling onto [grid] leaves in a chunk that is not flagged. *)
Definition resampled (grid : list fl) (obs : ObsChunk) : Prop :=
  flag obs = false ->
  exists s ss, int_samp obs = Some s /\ int_sim_samp obs = Some ss
               /\ length s = length grid /\ length ss = length grid.

(** A chunk after the flagging loop: only [flag] and [rms] may differ. *)
Definition reflagged (obs obs' : ObsChunk) : Prop :=
  exists b r, obs' = with_rms (with_flag obs b) r.

(** Two memories whose arrays have the same lengths. *)
Definition same_shape (M M' : mem) : Prop :=
  length (m_int_arr M') = length (m_int_arr M)
  /\ length (m_int_sim M') = length (m_int_sim M).

(** A finite value that does not exceed the rational [P]. *)
Definition at_most (P : Qc) (x : fl) : Prop :=
  match x with
  | Fin p => (p <= P)%Qc
  | _ => False
  end.

#[global] Instance at_most_dec P x : Decision (at_most P x).
Proof. destruct x; simpl; apply _. Defined.

(** [L] with another value for the local [vlsr]. *)
Definition with_vlsr (v : pyval) (L : Locals.t) : Locals.t :=
  Locals.mk (Locals.freq_arr L) (Locals.int_arr L) (Locals.freq_sim L)
    (Locals.int_sim L) (Locals.res_inp L) (Locals.dV L) (Locals.dV_ext L) v
    (Locals.vel_width L) (Locals.v_res L) (Locals.drops L)
    (Locals.blank_lines L) (Locals.blank_keep_range L) (Locals.flag_lines L)
    (Locals.flag_sigma L).

(** The part of a result that is returned or left in memory, without what
    was printed. *)
Definition returned (out : StackOutput)
  : Spectrum.t * list ObsChunk * mem :=
  (stacked_spectrum out, obs_chunks out, final_mem out).

(** Appending the lines printed by a stage to those printed before. *)
Definition after (out : list printed)
    {A} (r : mem * list printed * A) : mem * list printed * A :=
  (r.1.1, out ++ r.1.2, r.2).

(** ** The two-line example with interlopers

    The observed window of the first line reads 100, 1, 100, 1 at the
    velocities -2, -1, 0, 1.  Blanking is on with the safe range
    [-1, 1] km/s and [flag_sigma = 1]: the threshold is the sample noise
    estimate 50.5, so both samples of 100 are outliers, one outside the safe
    range and one inside it. *)

Module Spiky.

Definition int_arr : list fl :=
  (fz <$> [1; 100; 1; 100; 1; 1; 1]%Z) ++ replicate 7 (fz 2).

Definition params : gmap string pyval :=
  <["blank_lines" := VBool true]> (
  <["blank_keep_range" := VArray [fz (-1); fz 1]]> (
  <["flag_sigma" := VFloat (fz 1)]> (
  <["int_arr" := VArray int_arr]> TwoLines.params))).

Definition L : Locals.t :=
  Locals.mk TwoLines.freq_arr int_arr TwoLines.freq_sim TwoLines.int_sim
    (fz 1) (fz 10) None (VFloat (fz 0)) (fz 2) (fz 1) [] true
    [fz (-1); fz 1] false (fz 1).

Definition M : mem := Mem int_arr TwoLines.int_sim.

(** The chunks as they are made, before the flagging loop. *)
Definition made : list ObsChunk :=
  res_default []
    (make_chunks Sample.ckm Sample.get_rms Sample.find_nearest L
       TwoLines.peak_freqs TwoLines.peak_ints).

(** The chunk of the first line. *)
Definition obs : ObsChunk := made !!! 0.

(** Its safe range: the samples at -1 and 0 km/s in both windows. *)
Definition R : SafeRange :=
  mkSafeRange 1 3 1 3
    (PrintRange (fq (TwoLines.c - 1000) 1000) (fq TwoLines.c 1000)
       (fq (TwoLines.c + 1000) 1000)).

(** Memory, printed line and chunk after the blanking of [obs]. *)
Definition blanked : mem * printed * ObsChunk :=
  res_default (M, range_line R, obs)
    (blank_chunk Sample.ckm Sample.get_rms Sample.find_nearest
       Sample._find_nans L M obs).

End Spiky.

(** ** The two-line example with negative simulated intensities

    The simulated spectrum and the level of the observed window of the first
    line are parameters; everything else is as in [TwoLines]. *)

Module Negative.

Definition params (sim : list Z) (level : Z) : gmap string pyval :=
  <["int_sim" := VArray (fz <$> sim)]> (
  <["int_arr" := VArray (replicate 7 (fz level) ++ replicate 7 (fz 2))]>
    TwoLines.params).

Definition run (sim : list Z) (level : Z) : StackOutput :=
  res_default no_output
    (Sample.velocity_stack (params sim level) "stack").

(** Peaks of 2 and 1 (as in [TwoLines]) and of 3 and 1. *)
Definition sim_2 : list Z := [0; 1; 1; 2; 1; 1; 0; 0; 1; 0; 0]%Z.
Definition sim_3 : list Z := [0; 1; 1; 3; 1; 1; 0; 0; 1; 0; 0]%Z.

(** Peaks of -3 and -1, of -2 and -1, and of -1 and 1. *)
Definition sim_a : list Z := [-4; -4; -4; -3; -4; -4; -4; -4; -1; -4; -4]%Z.
Definition sim_b : list Z := [-4; -4; -4; -2; -4; -4; -4; -4; -1; -4; -4]%Z.
Definition sim_c : list Z := [-4; -4; -4; -1; -4; -4; -4; 0; 1; 0; 0]%Z.

End Negative.

(** An unflagged chunk with the given peak intensity and noise, for
    evaluating the weight formula on its own. *)
Definition probe (p r : fl) : ObsChunk :=
  mkObsChunk [fz 0] (View 0 0) [fz 0] (View 0 0) p 0 false r (fz 0)
    [fz 0] [fz 0] None None None None None.

(** ** Further inputs for the sample instance *)

Module Inputs.

(** The two-line example observed only around the first line: the window
    of the second line falls outside the observed axis and is empty. *)
Definition uncovered : gmap string pyval :=
  <["freq_arr" := VArray (take 7 TwoLines.freq_arr)]> (
  <["int_arr" := VArray (take 7 TwoLines.int_arr)]> TwoLines.params).

(** The two-line example with an empty exclusion list and no [v_res]. *)
Definition drops_only : gmap string pyval :=
  <["drops" := VInts []]> TwoLines.params.

(** The two-line example with [v_res = 2] and no exclusion list. *)
Definition v_res_only : gmap string pyval :=
  <["v_res" := VFloat (fz 2)]> TwoLines.params.

(** The sixty-channel example with both of its chunks excluded. *)
Definition all_dropped : gmap string pyval :=
  <["drops" := VInts [0; 1]%Z]> (
  <["v_res" := VFloat (fq 1 10)]> Sample.base_params).

Definition all_dropped_prepared
  : Locals.t * list fl * mem * list printed * list ObsChunk :=
  res_default (TwoLines.L, [], TwoLines.M, [], [])
    (Sample.prepare all_dropped).

Definition all_dropped_output : StackOutput :=
  res_default no_output
    (Sample.velocity_stack all_dropped "stack").

(** The grid of the sixty-channel example: -1, -0.9, ..., 0.9. *)
Definition grid20 : list fl :=
  (fun i => fq (Z.of_nat i - 10) 10) <$> seq 0 20.

End Inputs.

(** ** Predicates for the further properties *)

(** The keys that [velocity_stack] reads without a default. *)
Definition required_keys : list string :=
  ["freq_arr"; "int_arr"; "freq_sim"; "int_sim"; "dV"; "vlsr"; "vel_width";
   "selection"].

(** Two states of one chunk: the windows, the identity and the velocity
    axes are those that [ObsChunk.__init__] set. *)
Definition same_window (obs obs' : ObsChunk) : Prop :=
  freq_obs obs' = freq_obs obs /\ int_obs obs' = int_obs obs
  /\ freq_sim obs' = freq_sim obs /\ int_sim obs' = int_sim obs
  /\ peak_int obs' = peak_int obs /\ id obs' = id obs
  /\ cfreq obs' = cfreq obs /\ velocity obs' = velocity obs
  /\ sim_velocity obs' = sim_velocity obs.

(** A chunk that carries none of the fields of the later stages. *)
Definition unweighted (obs : ObsChunk) : Prop :=
  weight obs = None /\ int_weighted obs = None /\ int_sim_weighted obs = None
  /\ int_samp obs = None /\ int_sim_samp obs = None.

(** A chunk that carries all of them. *)
Definition weighted (obs : ObsChunk) : Prop :=
  is_Some (weight obs) /\ is_Some (int_weighted obs)
  /\ is_Some (int_sim_weighted obs) /\ is_Some (int_samp obs)
  /\ is_Some (int_sim_samp obs).

(** Every sample of [cur] is the sample of [orig] at its place, or NaN. *)
Definition only_blanked (orig cur : list fl) : Prop :=
  length cur = length orig
  /\ forall i x, cur !! i = Some x -> x = NaN \/ orig !! i = Some x.

(** ** Further calls on the sample instance *)

Module Calls.

(** The two-line example without its [dV] entry. *)
Definition no_dV : gmap string pyval := delete "dV" TwoLines.params.

(** The two-line example with a selection that is neither of the two. *)
Definition other_selection : gmap string pyval :=
  <["selection" := VStr "both"]> TwoLines.params.

(** The two-line example selecting by lines, with no [dV_ext]. *)
Definition lines_without_dV_ext : gmap string pyval :=
  <["selection" := VStr "lines"]> TwoLines.params.

(** The result of the sample run on the sixty-channel example. *)
Definition sixty : StackOutput :=
  res_default no_output (Sample.velocity_stack Sample.base_params "stack").

End Calls.

(** The chunk that is cut for a candidate at frequency [pf]: one index
    range for the observed frequencies and intensities, one for the
    simulated ones. *)
Definition window_of (ckm : fl) (find_nearest : list fl -> fl -> nat)
    (L : Locals.t) (pf : fl) (obs : ObsChunk) : Prop :=
  let w := fdiv (fmul (Locals.vel_width L) pf) ckm in
  let x := find_nearest (Locals.freq_arr L) (fsub pf w) in
  let y := find_nearest (Locals.freq_arr L) (fadd pf w) in
  let a := find_nearest (Locals.freq_sim L) (fsub pf w) in
  let b := find_nearest (Locals.freq_sim L) (fadd pf w) in
  freq_obs obs = py_slice (Locals.freq_arr L) x y
  /\ int_obs obs = mk_view (length (Locals.int_arr L)) x y
  /\ freq_sim obs = py_slice (Locals.freq_sim L) a b
  /\ int_sim obs = mk_view (length (Locals.int_sim L)) a b.

(** A chunk whose centre frequency is the middle sample of its observed
    window and whose velocity axes are taken relative to it. *)
Definition centred (ckm : fl) (obs : ObsChunk) : Prop :=
  freq_obs obs !! round_half (length (freq_obs obs)) = Some (cfreq obs)
  /\ velocity obs = doppler ckm (cfreq obs) <$> freq_obs obs
  /\ sim_velocity obs = doppler ckm (cfreq obs) <$> freq_sim obs.

(** The test of [if flag_lines is True]: the largest sample of the
    observed window that is not NaN exceeds [flag_sigma] times the noise
    estimate of the chunk. *)
Definition interloper (L : Locals.t) (M : mem) (obs : ObsChunk) : Prop :=
  Locals.flag_lines L = true
  /\ exists m, np_nanmax (obs_ints M obs) = Ok m
               /\ fgtb m (fmul (Locals.flag_sigma L) (rms obs)) = true.

(** ** Calls with flagging and blanking on the sample instance *)

Module Flagging.

(** The two-line example with the interlopers of [Spiky], flagged rather
    than blanked: [flag_lines] with [flag_sigma = 1]. *)
Definition params : gmap string pyval :=
  <["flag_lines" := VBool true]> (
  <["flag_sigma" := VFloat (fz 1)]> (
  <["int_arr" := VArray Spiky.int_arr]> TwoLines.params)).

Definition L : Locals.t :=
  Locals.mk TwoLines.freq_arr Spiky.int_arr TwoLines.freq_sim
    TwoLines.int_sim (fz 1) (fz 10) None (VFloat (fz 0)) (fz 2) (fz 1) []
    false [fz (-30); fz 30] true (fz 1).

Definition output : StackOutput :=
  res_default no_output (Sample.velocity_stack params "stack").

(** The locals of the two-line call that drops its first chunk. *)
Definition L_drop : Locals.t :=
  Locals.mk TwoLines.freq_arr TwoLines.int_arr TwoLines.freq_sim
    TwoLines.int_sim (fz 1) (fz 10) None (VFloat (fz 0)) (fz 2) (fz 1)
    [0%Z] false [fz (-30); fz 30] false (fz 5).

(** The result of the call that blanks the interlopers of [Spiky]. *)
Definition blanked_output : StackOutput :=
  res_default no_output (Sample.velocity_stack Spiky.params "stack").

End Flagging.

(** ** [sum_spectra] *)

(** The builtin [min] on a sequence: keeps the first minimal element
    according to [<]; [ValueError] on an empty sequence. *)
Definition pymin (l : list fl) : res fl :=
  match l with
  | [] => Raise ValueError
  | x :: l' => Ok (fold_left (fun m y => if fltb y m then y else m) l' x)
  end.

(** [np.concatenate] of one-dimensional arrays; [ValueError] when there is
    no array to concatenate. *)
Definition np_concatenate (arrays : list (list fl)) : res (list fl) :=
  match arrays with
  | [] => Raise ValueError
  | _ => Ok (concat arrays)
  end.

(** [ndarray.sort()]: ascending, the NaNs last. *)
Fixpoint sort_insert (x : fl) (l : list fl) : list fl :=
  match l with
  | [] => [x]
  | y :: l' => if isnan y || fltb x y then x :: l else y :: sort_insert x l'
  end.

Definition np_sort (l : list fl) : list fl := foldr sort_insert [] l.

(** [v is False] *)
Definition is_False (v : pyval) : bool :=
  match v with VBool false => true | _ => false end.

(** What [sum_spectra] reads of a simulation [x]: [x.res] and the three
    profiles of [x.spectrum]. *)
Module Simulation.
Record t : Type := mk {
  res : fl;
  freq_profile : list fl;
  int_profile : list fl;
  tau_profile : list fl
}.
End Simulation.

(** The [Spectrum] that [sum_spectra] returns, with the fields it assigns;
    [int_profile] is [None] as long as it has not been assigned. *)
Module SumSpectrum.
Record t : Type := mk {
  name : string;
  freq_profile : list fl;
  int_profile : option (list fl)
}.

#[global] Instance eq_dec : EqDecision t.
Proof. solve_decision. Defined.
End SumSpectrum.

Section SumSpectra.

(** [molsim.constants.h] and [molsim.constants.k] *)
Variable h : fl.
Variable k : fl.
(** [np.exp] on one sample *)
Variable np_exp : fl -> fl.
(** [molsim.utils.find_limits], called with [spacing_tolerance=2] and
    [padding=0]: the lower and the upper limits of the covered ranges. *)
Variable find_limits : list fl -> list fl * list fl.

(** The loop [for x in sims]: every simulation is resampled onto
    [freq_arr], zero outside its own range, and added to [int_arr]. *)
Definition add_resampled (profile : Simulation.t -> list fl)
    (freq_arr : list fl) (sims : list Simulation.t) (int_arr : list fl)
  : res (list fl) :=
  foldM (fun int_arr x =>
           int_arr0 ← np_interp freq_arr (Simulation.freq_profile x)
                        (profile x) fzero fzero;
           Ok (zip_with fadd int_arr int_arr0))
    int_arr sims.

(** [(h*f*10**6/k)*(np.exp((h*f*10**6)/(k*T)) - 1)**-1] at one
    frequency [f]. *)
Definition J (T : fl) (f : fl) : fl :=
  fmul (fdiv (fmul (fmul h f) (fz 1000000)) k)
       (fdiv (fz 1)
          (fsub (np_exp (fdiv (fmul (fmul h f) (fz 1000000)) (fmul k T)))
                (fz 1))).

(** [sum_spectra(sims, thin, Tex, Tbg, res, name)] *)
Definition sum_spectra (sims : list Simulation.t) (thin : pyval)
    (Tex Tbg : option fl) (res_arg : option fl) (name : string)
  : res SumSpectrum.t :=
  resolution ← match res_arg with
               | None => pymin (Simulation.res <$> sims)
               | Some r => Ok r
               end;
  total_freq ← np_concatenate (Simulation.freq_profile <$> sims);
  let total_freq := np_sort total_freq in
  let '(lls, uls) := find_limits total_freq in
  ranges ← forM (fun '(ll, ul) => np_arange ll ul resolution) (zip lls uls);
  freq_arr ← np_concatenate ranges;
  let int_arr := replicate (length freq_arr) fzero in
  let sum_spectrum := SumSpectrum.mk name freq_arr None in
  sum_spectrum ←
    (if is_True thin then
       int_arr ← add_resampled Simulation.int_profile freq_arr sims int_arr;
       Ok (SumSpectrum.mk name freq_arr (Some int_arr))
     else Ok sum_spectrum);
  if is_False thin then
    int_arr ← add_resampled Simulation.tau_profile freq_arr sims int_arr;
    Tex ← of_option TypeError Tex;
    let J_T := J Tex <$> freq_arr in
    Tbg ← of_option TypeError Tbg;
    let J_Tbg := J Tbg <$> freq_arr in
    let int_arr :=
      zip_with (fun j tau => fmul j (fsub (fz 1) (np_exp (fneg tau))))
        (zip_with fsub J_T J_Tbg) int_arr in
    Ok (SumSpectrum.mk name freq_arr (Some int_arr))
  else Ok sum_spectrum.

End SumSpectra.

(** The sum, over the simulations, of their profiles interpolated at the
    frequency [f], zero outside their own ranges. *)
Definition coadd (profile : Simulation.t -> list fl)
    (sims : list Simulation.t) (f : fl) : fl :=
  fold_left fadd
    ((fun x => interp_point (Simulation.freq_profile x) (profile x)
                 fzero fzero f) <$> sims)
    fzero.

(** ** Two simulations to sum

    One covers 1 to 3 MHz, the other 6 to 8 MHz.  The stand-in for
    [find_limits] returns the whole range as one, so that the grid also
    has points between the two. *)

Module Sums.

Definition h : fl := fz 1.
Definition k : fl := fz 1.

(** A stand-in for [np.exp] with rational values: [1 + x]. *)
Definition np_exp (x : fl) : fl := fadd (fz 1) x.

Definition find_limits (l : list fl) : list fl * list fl :=
  match l with
  | [] => ([], [])
  | a :: _ => ([a], [List.last l a])
  end.

Definition sum_spectra
  : list Simulation.t -> pyval -> option fl -> option fl -> option fl
    -> string -> res SumSpectrum.t :=
  sum_spectra h k np_exp find_limits.

Definition low : Simulation.t :=
  Simulation.mk (fz 1) (fz <$> [1; 2; 3]%Z) (fz <$> [1; 4; 1]%Z)
    (fz <$> [1; 2; 1]%Z).

Definition high : Simulation.t :=
  Simulation.mk (fq 1 2) (fz <$> [6; 7; 8]%Z) (fz <$> [2; 3; 2]%Z)
    (fz <$> [1; 1; 1]%Z).

Definition sims : list Simulation.t := [low; high].

Definition nothing : SumSpectrum.t := SumSpectrum.mk "none" [] None.

(** The optically thin sum at the resolution of [high], 0.5 MHz. *)
Definition thin_sum : SumSpectrum.t :=
  res_default nothing (sum_spectra sims (VBool true) None None None "sum").

(** The sum with equal excitation and background temperatures. *)
Definition thick_sum : SumSpectrum.t :=
  res_default nothing
    (sum_spectra sims (VBool false) (Some (fz 3)) (Some (fz 3)) None "sum").

(** The call with [thin=1]: truthy, but not the object [True]. *)
Definition unset_sum : SumSpectrum.t :=
  res_default nothing (sum_spectra sims (VFloat (fz 1)) None None None "sum").

End Sums.

(** A float that is neither NaN nor an infinity. *)
Definition finite (x : fl) : Prop :=
  match x with
  | Fin _ => True
  | _ => False
  end.

#[global] Instance finite_dec x : Decision (finite x).
Proof. destruct x; simpl; apply _. Defined.

#[global] Instance outside_dec x xs : Decision (outside x xs).
Proof. unfold outside. apply _. Defined.


(** * Properties *)

(** ** Reasoning about the error monad *)

Lemma bind_Ok {A B} (m : res A) (f : A -> res B) (b : B) :
  m ≫= f = Ok b -> exists a, m = Ok a /\ f a = Ok b.
Proof. destruct m as [a|e]; simpl; [eauto | discriminate]. Qed.

Lemma fmap_Ok {A B} (m : res A) (f : A -> B) (b : B) :
  f <$> m = Ok b -> exists a, m = Ok a /\ b = f a.
Proof. destruct m as [a|e]; simpl; [intros [= <-]; eauto | discriminate]. Qed.

Lemma of_option_Ok {A} (e : pyerr) (o : option A) (a : A) :
  of_option e o = Ok a -> o = Some a.
Proof. destruct o; simpl; congruence. Qed.

(** Splits the successful run of a monadic block into its steps. *)
Ltac inv_res H :=
  repeat match type of H with
  | _ ≫= _ = Ok _ =>
      let a := fresh "a" in let E := fresh "E" in
      apply bind_Ok in H; destruct H as (a & E & H)
  | Ok _ = Ok _ => injection H as H
  end.

Lemma forM_Forall2 {A B} (f : A -> res B) (l : list A) (l' : list B) :
  forM f l = Ok l' -> Forall2 (fun a b => f a = Ok b) l l'.
Proof.
  revert l'. induction l as [|a l IH]; intros l' H; simpl in H.
  - injection H as <-. constructor.
  - apply bind_Ok in H as (b & Hb & H).
    apply bind_Ok in H as (bs & Hbs & H).
    injection H as <-. constructor; auto.
Qed.

Lemma Forall2_forM {A B} (f : A -> res B) (l : list A) (l' : list B) :
  Forall2 (fun a b => f a = Ok b) l l' -> forM f l = Ok l'.
Proof.
  induction 1 as [|a b l l' Hab _ IH]; simpl; [reflexivity|].
  rewrite Hab. simpl. rewrite IH. reflexivity.
Qed.

Lemma forM_length {A B} (f : A -> res B) (l : list A) (l' : list B) :
  forM f l = Ok l' -> length l' = length l.
Proof. intros H. symmetry. eapply Forall2_length, forM_Forall2, H. Qed.

Lemma forM_total {A B} (f : A -> res B) (g : A -> B) (l : list A) :
  Forall (fun a => f a = Ok (g a)) l -> forM f l = Ok (g <$> l).
Proof.
  induction 1 as [|a l Ha _ IH]; simpl; [reflexivity|].
  rewrite Ha. simpl. rewrite IH. reflexivity.
Qed.

(** ** Lists and sums *)

Lemma fadd_zero_r (x : fl) : fadd x fzero = x.
Proof.
  destruct x; simpl; try reflexivity. f_equal. apply Qcplus_0_r.
Qed.

(** A loop over the indices of two lists of one length is a loop over
    their pairs. *)
Lemma fold_seq_zip {A B S} (F : S -> A -> B -> S) `{Inhabited A, Inhabited B}
    (la : list A) (lb : list B) (s : S) :
  length la = length lb ->
  fold_left (fun s y => F s (la !!! y) (lb !!! y)) (seq 0 (length lb)) s
  = fold_left (fun s p => F s p.1 p.2) (zip la lb) s.
Proof.
  revert lb s. induction la as [|a la IH]; intros [|b lb] s Hlen;
    simpl in Hlen; try discriminate; [reflexivity|].
  injection Hlen as Hlen. simpl.
  rewrite <- fmap_S_seq, <- (IH lb (F s a b) Hlen).
  generalize (F s a b) (seq 0 (length lb)). intros s' l. revert s'.
  induction l as [|y l IHl]; intros s'; simpl; [reflexivity|].
  apply IHl.
Qed.

Lemma fold_left_filter_fmap {A} (P : A -> Prop) `{forall a, Decision (P a)}
    (g : A -> fl) (l : list A) (s : fl) :
  fold_left (fun s a => if decide (P a) then fadd s (g a) else s) l s
  = fold_left fadd (g <$> filter P l) s.
Proof.
  revert s. induction l as [|a l IH]; intros s; simpl; [reflexivity|].
  rewrite IH. rewrite filter_cons. destruct (decide (P a)); reflexivity.
Qed.

Lemma fold_left_filter {A S} (P : A -> Prop) `{forall a, Decision (P a)}
    (f : S -> A -> S) (l : list A) (s : S) :
  fold_left f (filter P l) s
  = fold_left (fun s a => if decide (P a) then f s a else s) l s.
Proof.
  revert s. induction l as [|a l IH]; intros s; simpl; [reflexivity|].
  rewrite filter_cons. destruct (decide (P a)); simpl; apply IH.
Qed.

Lemma fold_left_ext_Forall {A S} (f g : S -> A -> S) (l : list A) (s : S) :
  Forall (fun a => forall s, f s a = g s a) l ->
  fold_left f l s = fold_left g l s.
Proof.
  intros HF. revert s. induction HF as [|a l Ha _ IH]; intros s; simpl;
    [reflexivity|].
  rewrite Ha. apply IH.
Qed.

Lemma fold_left_fmap' {A B S} (f : S -> B -> S) (g : A -> B) (l : list A) (s : S) :
  fold_left f (g <$> l) s = fold_left (fun s a => f s (g a)) l s.
Proof. revert s. induction l as [|a l IH]; intros s; simpl; auto. Qed.

(** *** What resampling leaves in a chunk *)

Lemma np_interp_length x xp fp l r s :
  np_interp x xp fp l r = Ok s -> length s = length x.
Proof.
  unfold np_interp. repeat case_bool_decide; try discriminate.
  intros [= <-]. apply length_fmap.
Qed.

Lemma resample_chunk_resampled grid obs obs' :
  resample_chunk grid obs = Ok obs' -> resampled grid obs'.
Proof.
  unfold resample_chunk. destruct (flag obs) eqn:Hf.
  - intros [= <-] Hf'. congruence.
  - intros H. inv_res H. subst obs'. intros _. simpl.
    eexists _, _. repeat split; eauto using np_interp_length.
Qed.

Lemma resample_chunk_rms grid obs obs' :
  resample_chunk grid obs = Ok obs' ->
  rms obs' = rms obs /\ flag obs' = flag obs.
Proof.
  unfold resample_chunk. destruct (flag obs) eqn:Hf.
  - intros [= <-]. auto.
  - intros H. inv_res H. subst obs'. auto.
Qed.

Lemma resample_all_resampled grid chunks0 chunks :
  forM (resample_chunk grid) chunks0 = Ok chunks ->
  Forall (resampled grid) chunks.
Proof.
  intros H. apply forM_Forall2 in H.
  induction H; constructor; eauto using resample_chunk_resampled.
Qed.

(** *** Gathering *)

Lemma gather_Ok grid chunks :
  Forall (resampled grid) chunks ->
  gather chunks
  = Ok (mkInterped ((fun obs => default [] (int_samp obs)) <$> kept chunks)
                   (rms <$> kept chunks)
                   ((fun obs => default [] (int_sim_samp obs)) <$> kept chunks)).
Proof.
  intros HF. unfold gather. fold (kept chunks).
  assert (HK : Forall (fun obs => exists s ss,
              int_samp obs = Some s /\ int_sim_samp obs = Some ss) (kept chunks)).
  { unfold kept. apply Forall_forall. intros obs Hin.
    apply list_elem_of_filter in Hin as [Hf Hin].
    rewrite Forall_forall in HF.
    destruct (HF obs Hin Hf) as (s & ss & ? & ? & _). eauto. }
  rewrite (forM_total (fun obs => of_option AttributeError (int_samp obs))
             (fun obs => default [] (int_samp obs))).
  2:{ eapply Forall_impl; [exact HK|]. intros obs (s & ss & -> & _). reflexivity. }
  simpl.
  rewrite (forM_total (fun obs => of_option AttributeError (int_sim_samp obs))
             (fun obs => default [] (int_sim_samp obs))).
  2:{ eapply Forall_impl; [exact HK|]. intros obs (s & ss & _ & ->). reflexivity. }
  reflexivity.
Qed.

Lemma sample_at_default (s : option (list fl)) (i : nat) :
  default [] s !!! i = sample_at s i.
Proof. destruct s; reflexivity. Qed.

(** *** The noise accumulator *)

Lemma rms_sum_at_kept (sel : ObsChunk -> option (list fl)) chunks i :
  rms_sum_at ((fun obs => default [] (sel obs)) <$> kept chunks)
             (rms <$> kept chunks) i
  = noise_over sel i chunks.
Proof.
  unfold rms_sum_at, noise_over, fsum.
  rewrite (fold_seq_zip
             (fun s (row : list fl) r =>
                if isnan (row !!! i) then s else fadd s (fpow2 r)))
    by (rewrite !length_fmap; reflexivity).
  rewrite zip_with_fmap_l, zip_with_fmap_r, zip_with_diag.
  rewrite fold_left_fmap'. unfold kept. rewrite fold_left_filter.
  rewrite <- fold_left_filter_fmap.
  apply fold_left_ext_Forall, Forall_forall. intros obs _ s. simpl.
  rewrite sample_at_default.
  destruct (decide (contributes sel i obs)) as [[Hf Hn]|Hc].
  - rewrite decide_True by done. rewrite Hn. reflexivity.
  - destruct (decide (flag obs = false)) as [Hf|Hf]; [|reflexivity].
    destruct (isnan (sample_at (sel obs) i)) eqn:Hn; [reflexivity|].
    exfalso. apply Hc. split; assumption.
Qed.

(** *** The missing-value-aware sums *)

Lemma nansum_column_kept (sel : ObsChunk -> option (list fl)) chunks i :
  np_nansum (column i ((fun obs => default [] (sel obs)) <$> kept chunks))
  = signal_over sel i chunks.
Proof.
  unfold np_nansum, column, signal_over, fsum.
  rewrite <- list_fmap_compose, fold_left_fmap'. unfold kept.
  rewrite fold_left_filter, <- fold_left_filter_fmap.
  apply fold_left_ext_Forall, Forall_forall. intros obs _ s. simpl.
  rewrite sample_at_default.
  destruct (decide (contributes sel i obs)) as [[Hf Hn]|Hc].
  - rewrite decide_True by done. unfold nan_to_zero. rewrite Hn. reflexivity.
  - destruct (decide (flag obs = false)) as [Hf|Hf]; [|reflexivity].
    destruct (isnan (sample_at (sel obs) i)) eqn:Hn.
    + unfold nan_to_zero. rewrite Hn. apply fadd_zero_r.
    + exfalso. apply Hc. split; assumption.
Qed.

Lemma nansum_axis0_divide (rows : list (list fl)) (d : list fl) :
  Forall (fun r => length r = length d) rows ->
  np_divide (np_nansum_axis0 rows) d
  = Ok ((fun i => fdiv (np_nansum (column i rows)) (d !!! i))
          <$> seq 0 (length d)).
Proof.
  intros HF. destruct rows as [|r rows]; simpl.
  - f_equal. apply list_eq. intros i.
    rewrite !list_lookup_fmap.
    destruct (decide (i < length d)) as [Hi|Hi].
    + rewrite lookup_seq_lt by done. simpl.
      rewrite (list_lookup_lookup_total_lt d i) by done. reflexivity.
    + rewrite lookup_seq_ge by lia. rewrite lookup_ge_None_2 by lia. reflexivity.
  - inversion HF as [|? ? Hr HF']; subst.
    rewrite bool_decide_eq_true_2 by (rewrite length_fmap, length_seq; done).
    f_equal. rewrite Hr. apply list_eq. intros i.
    rewrite lookup_zip_with, !list_lookup_fmap.
    destruct (decide (i < length d)) as [Hi|Hi].
    + rewrite lookup_seq_lt by done. simpl.
      rewrite (list_lookup_lookup_total_lt d i) by done. reflexivity.
    + rewrite lookup_seq_ge by lia. reflexivity.
Qed.

(** *** The composite *)

Lemma composite_Ok grid chunks :
  Forall (resampled grid) chunks ->
  exists I C,
    gather chunks = Ok I /\ composite grid I = Ok C /\
    rms_arr C = (fun i => noise_over int_samp i chunks) <$> seq 0 (length grid) /\
    int_avg C = (fun i => fdiv (signal_over int_samp i chunks)
                               (noise_over int_samp i chunks))
                <$> seq 0 (length grid) /\
    int_sim_avg C = (fun i => fdiv (signal_over int_sim_samp i chunks)
                                   (noise_over int_samp i chunks))
                    <$> seq 0 (length grid).
Proof.
  intros HF. eexists _, _. split; [apply (gather_Ok grid), HF|].
  assert (Hrms : make_rms_arr grid
            (mkInterped ((fun obs => default [] (int_samp obs)) <$> kept chunks)
               (rms <$> kept chunks)
               ((fun obs => default [] (int_sim_samp obs)) <$> kept chunks))
          = (fun i => noise_over int_samp i chunks) <$> seq 0 (length grid)).
  { unfold make_rms_arr. simpl. apply list_fmap_ext. intros _ i _.
    apply rms_sum_at_kept. }
  assert (HK : Forall (fun obs => length (default [] (int_samp obs)) = length grid
                 /\ length (default [] (int_sim_samp obs)) = length grid)
                 (kept chunks)).
  { apply Forall_forall. intros obs Hin. unfold kept in Hin.
    apply list_elem_of_filter in Hin as [Hf Hin].
    rewrite Forall_forall in HF.
    destruct (HF obs Hin Hf) as (s & ss & -> & -> & ? & ?). auto. }
  unfold composite. rewrite Hrms. cbn [interped_ints interped_sim_ints].
  rewrite !nansum_axis0_divide.
  2,3: apply Forall_fmap; eapply Forall_impl; [exact HK|];
       intros obs [? ?]; simpl; rewrite length_fmap, length_seq; assumption.
  simpl. rewrite length_fmap, length_seq. split; [reflexivity|].
  split; [reflexivity|].
  assert (Hd : forall k i, seq 0 (length grid) !! k = Some i ->
            ((fun i => noise_over int_samp i chunks) <$> seq 0 (length grid))
              !!! i = noise_over int_samp i chunks).
  { intros k i Hk. apply lookup_seq in Hk as [-> Hk]. simpl.
    rewrite (list_lookup_total_fmap (fun i => noise_over int_samp i chunks))
      by (rewrite length_seq; done).
    rewrite lookup_total_seq_lt by done. reflexivity. }
  split; apply list_fmap_ext; intros k i Hk; rewrite (Hd k i Hk);
    rewrite nansum_column_kept; reflexivity.
Qed.




(** Settles a closed equation between computed values. *)
Ltac by_computation :=
  match goal with
  | |- ?G => apply (bool_decide_eq_true_1 G); vm_compute; reflexivity
  end.

(** ** The two-line example runs as described *)

Example two_lines_prepare :
  Sample.prepare TwoLines.params
  = Ok (TwoLines.L, TwoLines.peak_ints, TwoLines.M,
        [PrintValue (VFloat (fz 0))], TwoLines.chunks0).
Proof. by_computation. Qed.

Example two_lines_resampled :
  weigh_and_resample TwoLines.L TwoLines.M TwoLines.peak_ints TwoLines.chunks0
  = Ok (TwoLines.grid, TwoLines.chunks).
Proof. by_computation. Qed.

Example two_lines_grid : TwoLines.grid = fz <$> [-2; -1; 0; 1]%Z.
Proof. by_computation. Qed.

Example two_lines_weights :
  weight <$> TwoLines.chunks = [Some (fz 1); Some (fq 1 8)]
  /\ rms <$> TwoLines.chunks = [fz 1; fz 2].
Proof. split; by_computation. Qed.

Example two_lines_samples :
  int_samp <$> TwoLines.chunks
  = [Some (fz <$> [1; 1; 1; 1]%Z); Some (replicate 4 (fq 1 4))]
  /\ int_sim_samp <$> TwoLines.chunks
     = [Some (fz <$> [1; 1; 2; 1]%Z); Some [NaN; fz 0; fq 1 8; fz 0]].
Proof. split; by_computation. Qed.

Example two_lines_averaged :
  gather TwoLines.chunks ≫= composite TwoLines.grid = Ok TwoLines.averaged
  /\ rms_arr TwoLines.averaged = replicate 4 (fz 5)
  /\ int_avg TwoLines.averaged = replicate 4 (fq 1 4)
  /\ int_sim_avg TwoLines.averaged = [fq 1 5; fq 1 5; fq 17 40; fq 1 5].
Proof. split; [|split; [|split]]; by_computation. Qed.


(** ** C1: the noise accumulator and the composite *)

Lemma weigh_and_resample_resampled L M peak_ints chunks0 grid chunks :
  weigh_and_resample L M peak_ints chunks0 = Ok (grid, chunks) ->
  Forall (resampled grid) chunks.
Proof.
  unfold weigh_and_resample. intros H. inv_res H. simplify_eq.
  eapply resample_all_resampled; eassumption.
Qed.

(** C1, as amended.  Once the chunks are resampled, gathering and averaging
    succeed, and at every grid index [i]: [rms_arr[i]] is the sum of [rms²]
    over exactly the unflagged chunks whose [int_samp] is not NaN at [i];
    [int_avg[i]] is the NaN-aware sum of [int_samp[i]] over the unflagged
    chunks divided by [rms_arr[i]]; and [int_sim_avg[i]] is the NaN-aware sum
    of [int_sim_samp[i]] divided by that same [rms_arr[i]], whose terms are
    chosen by [int_samp], not by [int_sim_samp]. *)
Theorem composite_is_noise_weighted_average L M peak_ints chunks0 grid chunks :
  weigh_and_resample L M peak_ints chunks0 = Ok (grid, chunks) ->
  exists I C,
    gather chunks = Ok I /\ composite grid I = Ok C /\
    forall i, i < length grid ->
      rms_arr C !! i = Some (noise_over int_samp i chunks) /\
      int_avg C !! i
      = Some (fdiv (signal_over int_samp i chunks)
                   (noise_over int_samp i chunks)) /\
      int_sim_avg C !! i
      = Some (fdiv (signal_over int_sim_samp i chunks)
                   (noise_over int_samp i chunks)).
Proof.
  intros H. apply weigh_and_resample_resampled in H.
  destruct (composite_Ok grid chunks H) as (I & C & HI & HC & Hr & Ha & Hs).
  exists I, C. split; [exact HI|]. split; [exact HC|].
  intros i Hi. rewrite Hr, Ha, Hs, !list_lookup_fmap.
  rewrite lookup_seq_lt by exact Hi. auto.
Qed.

Lemma composite_is_noise_weighted_average_witness :
  weigh_and_resample TwoLines.L TwoLines.M TwoLines.peak_ints TwoLines.chunks0
  = Ok (TwoLines.grid, TwoLines.chunks)
  /\ exists I C,
       gather TwoLines.chunks = Ok I /\ composite TwoLines.grid I = Ok C /\
       forall i, i < length TwoLines.grid ->
         rms_arr C !! i = Some (noise_over int_samp i TwoLines.chunks) /\
         int_avg C !! i
         = Some (fdiv (signal_over int_samp i TwoLines.chunks)
                      (noise_over int_samp i TwoLines.chunks)) /\
         int_sim_avg C !! i
         = Some (fdiv (signal_over int_sim_samp i TwoLines.chunks)
                      (noise_over int_samp i TwoLines.chunks)).
Proof.
  assert (H : weigh_and_resample TwoLines.L TwoLines.M TwoLines.peak_ints
                TwoLines.chunks0 = Ok (TwoLines.grid, TwoLines.chunks))
    by by_computation.
  split; [exact H|].
  exact (composite_is_noise_weighted_average _ _ _ _ _ _ H).
Defined.

(** C1, as stated, fails in the two-line example.  At the first grid point
    (-2 km/s) the second chunk has an observed sample but no simulated one.
    The code divides the simulated sum 1 by [rms_arr[0] = 1² + 2² = 5]; a
    denominator that left out the chunk whose simulated resample is missing
    would be [1² = 1]. *)
Lemma int_sim_avg_denominator_counterexample :
  gather TwoLines.chunks ≫= composite TwoLines.grid = Ok TwoLines.averaged
  /\ int_sim_avg TwoLines.averaged !! 0 = Some (fq 1 5)
  /\ fdiv (signal_over int_sim_samp 0 TwoLines.chunks)
          (noise_over int_sim_samp 0 TwoLines.chunks) = fz 1
  /\ int_sim_avg TwoLines.averaged !! 0
     <> Some (fdiv (signal_over int_sim_samp 0 TwoLines.chunks)
                   (noise_over int_sim_samp 0 TwoLines.chunks)).
Proof. split; [|split; [|split]]; by_computation. Qed.

(** ** The pipeline, stage by stage *)

Ltac inv_all :=
  repeat match goal with
  | H : _ ≫= _ = Ok _ |- _ =>
      apply bind_Ok in H; destruct H as (? & ? & H)
  | H : of_option _ _ = Ok _ |- _ => apply of_option_Ok in H
  | H : _ <$> _ = Ok _ |- _ => apply fmap_Ok in H; destruct H as (? & ? & ?)
  | H : Raise _ = Ok _ |- _ => discriminate H
  end.

Tactic Notation "inv_bind" hyp(H) "as" simple_intropattern(x) ident(E) :=
  apply bind_Ok in H; destruct H as (x & E & H).

Lemma forM_fmap_eq {A B C} (f : A -> res B) (g : B -> C) (h : A -> C)
    (l : list A) (l' : list B) :
  (forall a b, f a = Ok b -> g b = h a) ->
  forM f l = Ok l' -> g <$> l' = h <$> l.
Proof.
  intros Hf H. apply forM_Forall2 in H.
  induction H as [|a b l l' Hab _ IH]; simpl; [reflexivity|].
  f_equal; auto.
Qed.

Lemma np_take_length a idx l : np_take a idx = Ok l -> length l = length idx.
Proof. apply forM_length. Qed.

(** *** Chunks keep their identity through the pipeline *)

Lemma with_flag_rms_id obs : with_rms (with_flag obs (flag obs)) (rms obs) = obs.
Proof. destruct obs; reflexivity. Qed.

Lemma Forall2_fmap_eq {A B C} (g : A -> C) (h : B -> C) (l : list A) (k : list B) :
  Forall2 (fun a b => g a = h b) l k -> g <$> l = h <$> k.
Proof. induction 1; simpl; f_equal; auto. Qed.

Lemma Forall2_elem_of_right {A B} (R : A -> B -> Prop) (l : list A) (k : list B) b :
  Forall2 R l k -> b ∈ k -> exists a, a ∈ l /\ R a b.
Proof.
  induction 1 as [|a' b' l k HR _ IH]; intros Hin.
  - inversion Hin.
  - apply elem_of_cons in Hin as [->|Hin].
    + exists a'. split; [left|assumption].
    + destruct (IH Hin) as (a & Ha & HRa). exists a. split; [right|]; assumption.
Qed.

Lemma reflagged_refl obs : reflagged obs obs.
Proof. exists (flag obs), (rms obs). symmetry. apply with_flag_rms_id. Qed.

Lemma length_store buf v vals : length (store buf v vals) = length buf.
Proof. unfold store. apply length_inserts. Qed.

Lemma length_store_slice buf v x y vals :
  length (store_slice buf v x y vals) = length buf.
Proof. unfold store_slice. apply length_store. Qed.

Lemma length_blank_slices (v : view) (l : list (nat * nat)) buf :
  length (fold_left (fun S '(x, y) => blank_slice S v x y) l buf) = length buf.
Proof.
  revert buf. induction l as [|[x y] l IH]; intros buf; simpl; [reflexivity|].
  rewrite IH. apply length_store_slice.
Qed.

(** The theorems of this section hold for every choice of the imported
    helpers. *)
Section Pipeline.

Variable ckm : fl.
Variable get_rms : list fl -> fl.
Variable find_nearest : list fl -> fl -> nat.
Variable _find_nans : list fl -> list nat * list nat.
Variable find_peaks : list fl -> list fl -> fl -> fl -> list nat.
Variable _get_res : list fl -> fl.

Local Abbreviation ObsChunk_init := (ObsChunk_init ckm get_rms).
Local Abbreviation select := (select ckm find_nearest find_peaks).
Local Abbreviation make_chunks := (make_chunks ckm get_rms find_nearest).
Local Abbreviation safe_range := (safe_range ckm find_nearest).
Local Abbreviation blank_chunk := (blank_chunk ckm get_rms find_nearest _find_nans).
Local Abbreviation flag_chunk := (flag_chunk ckm get_rms find_nearest _find_nans).
Local Abbreviation flag_loop := (flag_loop ckm get_rms find_nearest _find_nans).
Local Abbreviation prepare :=
  (prepare ckm get_rms find_nearest _find_nans find_peaks _get_res).
Local Abbreviation stack_chunks := (stack_chunks get_rms).
Local Abbreviation velocity_stack :=
  (velocity_stack ckm get_rms find_nearest _find_nans find_peaks _get_res).

Lemma ObsChunk_init_fields M fo io fs isim p c obs :
  ObsChunk_init M fo io fs isim p c = Ok obs ->
  freq_obs obs = fo /\ int_obs obs = io /\ freq_sim obs = fs /\ int_sim obs = isim
  /\ peak_int obs = p /\ id obs = c /\ flag obs = false
  /\ rms obs = get_rms (deref (m_int_arr M) io)
  /\ velocity obs = doppler ckm (cfreq obs) <$> fo
  /\ sim_velocity obs = doppler ckm (cfreq obs) <$> fs
  /\ fo <> [].
Proof.
  unfold ObsChunk_init, set_cfreq. cbn. intros H. inv_all. simplify_eq. cbn.
  repeat split. intros ->. discriminate.
Qed.

Lemma select_lengths params L pf pi :
  select params L = Ok (pf, pi) -> length pf = length pi.
Proof.
  unfold select. intros H. inv_all.
  repeat case_bool_decide; try discriminate.
  - unfold select_peaks in H. inv_all. simplify_eq.
    repeat match goal with
    | H : np_take _ _ = Ok _ |- _ => apply np_take_length in H
    end. congruence.
  - unfold select_lines in H. inv_all. simplify_eq.
    rewrite !length_zip_with, !length_fmap. lia.
Qed.

Lemma make_chunks_peak_ints L pf pi chunks :
  make_chunks L pf pi = Ok chunks -> length pf = length pi ->
  peak_int <$> chunks = pi.
Proof.
  unfold make_chunks. intros H Hlen.
  erewrite (forM_fmap_eq _ peak_int (fun t => t.2.2.2.2.1)); [|clear H|exact H].
  2:{ intros (x & y & a & b & p & c) obs Hinit.
      apply ObsChunk_init_fields in Hinit. simpl. tauto. }
  set (fw := _ <$> pf).
  assert (Hfw : length fw = length pf) by apply length_fmap.
  transitivity (fst <$> (snd <$> (snd <$> (snd <$> (snd <$>
    zip (zip_with (fun x y => find_nearest (Locals.freq_arr L) (fsub x y)) pf fw)
     (zip (zip_with (fun x y => find_nearest (Locals.freq_arr L) (fadd x y)) pf fw)
      (zip (zip_with (fun x y => find_nearest (Locals.freq_sim L) (fsub x y)) pf fw)
       (zip (zip_with (fun x y => find_nearest (Locals.freq_sim L) (fadd x y)) pf fw)
        (zip pi (seq 0 (length
          (zip_with (fun x y => find_nearest (Locals.freq_sim L) (fadd x y))
             pf fw)))))))))))).
  { rewrite <- !list_fmap_compose. reflexivity. }
  rewrite !snd_zip, fst_zip; [reflexivity|..];
    rewrite ?length_zip_with, ?length_seq, ?length_zip_with; lia.
Qed.

Lemma blank_chunk_frame L M obs M' line obs' :
  blank_chunk L M obs = Ok (M', line, obs') ->
  same_shape M M' /\ obs' = set_rms get_rms M' obs.
Proof.
  unfold blank_chunk. intros H. inv_bind H as R HR.
  destruct (_find_nans _) as [lls uls].
  inv_bind H as vl Hvl. inv_bind H as vu Hvu. simplify_eq.
  split; [|reflexivity]. split; simpl.
  - rewrite length_store_slice, length_store. reflexivity.
  - rewrite length_store_slice, length_blank_slices. reflexivity.
Qed.

Lemma flag_chunk_frame L M out obs M' out' obs' :
  flag_chunk L (M, out) obs = Ok (M', out', obs') ->
  same_shape M M' /\ reflagged obs obs'.
Proof.
  unfold flag_chunk. intros H.
  destruct (flag obs) eqn:Hf.
  { simplify_eq. split; [split; reflexivity|apply reflagged_refl]. }
  repeat case_bool_decide;
    try (simplify_eq; split; [split; reflexivity|];
         exists true, (rms obs); destruct obs; reflexivity).
  inv_bind H as [[M1 out1] obs1] Hb.
  assert (Hframe : same_shape M M1 /\ reflagged obs obs1).
  { destruct (Locals.blank_lines L).
    - inv_bind Hb as [[M2 line] obs2] Hc. simplify_eq.
      apply blank_chunk_frame in Hc as [Hs ->]. split; [exact Hs|].
      exists (flag obs), (get_rms (obs_ints M1 obs)). destruct obs; reflexivity.
    - simplify_eq. split; [split; reflexivity|apply reflagged_refl]. }
  destruct Hframe as [Hs (b & r & ->)].
  destruct (Locals.flag_lines L).
  - inv_bind H as m Hm. destruct (fgtb _ _); simplify_eq; (split; [exact Hs|]).
    + exists true, r. destruct obs; reflexivity.
    + exists b, r. reflexivity.
  - simplify_eq. split; [exact Hs|]. exists b, r. reflexivity.
Qed.

Lemma flag_loop_frame L chunks : forall M out M' out' chunks',
  flag_loop L (M, out) chunks = Ok (M', out', chunks') ->
  same_shape M M' /\ Forall2 reflagged chunks chunks'.
Proof.
  induction chunks as [|obs rest IH]; intros M out M' out' chunks' H; simpl in H.
  - simplify_eq. split; [split; reflexivity|constructor].
  - inv_bind H as [[M1 out1] obs1] Hc.
    inv_bind H as [[M2 out2] rest'] Hl. simplify_eq.
    apply flag_chunk_frame in Hc as [[Ha Hb] Hr].
    apply IH in Hl as [[Ha' Hb'] HF].
    split; [split; congruence|constructor; assumption].
Qed.

(** *** The stages of a successful call *)

Lemma prepare_Ok params L pk M out chunks0 :
  prepare params = Ok (L, pk, M, out, chunks0) ->
  exists pf made,
    unpack _get_res params = Ok L /\ select params L = Ok (pf, pk)
    /\ make_chunks L pf pk = Ok made
    /\ flag_loop L (Mem (Locals.int_arr L) (Locals.int_sim L),
                    [PrintValue (Locals.vlsr L)]) made
       = Ok (M, out, chunks0).
Proof.
  unfold prepare. intros H.
  inv_bind H as L' HL. inv_bind H as [pf pk'] Hsel.
  inv_bind H as made Hmade. inv_bind H as [[M' out'] chunks'] Hloop.
  simplify_eq. eauto 10.
Qed.

Lemma velocity_stack_Ok params name out :
  velocity_stack params name = Ok out ->
  exists L pk chunks0 grid I C,
    prepare params = Ok (L, pk, final_mem out, stdout out, chunks0)
    /\ weigh_and_resample L (final_mem out) pk chunks0 = Ok (grid, obs_chunks out)
    /\ gather (obs_chunks out) = Ok I /\ composite grid I = Ok C
    /\ stacked_spectrum out = finish get_rms name grid C.
Proof.
  unfold velocity_stack, stack_chunks. intros H.
  inv_bind H as [[[[L pk] M] prn] chunks0] Hp.
  inv_bind H as [spectrum chunks] Hs.
  inv_bind Hs as [grid chunks'] Hw.
  inv_bind Hs as I HI. inv_bind Hs as C HC. simplify_eq. simpl.
  eauto 12.
Qed.

Lemma prepare_peak_ints params L pk M out chunks0 :
  prepare params = Ok (L, pk, M, out, chunks0) ->
  peak_int <$> chunks0 = pk.
Proof.
  intros H. apply prepare_Ok in H as (pf & made & _ & Hsel & Hmade & Hloop).
  apply select_lengths in Hsel.
  apply (make_chunks_peak_ints _ _ _ _ Hmade) in Hsel as <-.
  apply flag_loop_frame in Hloop as [_ HF]. symmetry.
  apply Forall2_fmap_eq. eapply Forall2_impl; [exact HF|].
  intros obs obs' (b & r & ->). reflexivity.
Qed.

(** *** Weighting and resampling one chunk *)

Lemma weigh_resample_chunk grid M m obs obs' :
  resample_chunk grid (weight_chunk M m obs) = Ok obs' ->
  if flag obs then obs' = obs
  else
    let w := fdiv (fdiv (peak_int obs) m) (fpow2 (rms obs)) in
    let iw := (fun x => fmul x w) <$> obs_ints M obs in
    let isw := (fun x => fmul x w) <$> sim_ints M obs in
    exists s ss,
      np_interp grid (velocity obs) iw NaN NaN = Ok s
      /\ np_interp grid (sim_velocity obs) isw NaN NaN = Ok ss
      /\ obs' = with_samples (with_weights obs w iw isw) s ss.
Proof.
  unfold resample_chunk, weight_chunk. destruct (flag obs) eqn:Hf.
  - rewrite Hf. intros [= <-]. reflexivity.
  - cbn. rewrite Hf. intros H.
    inv_bind H as s Hs. inv_bind H as ss Hss. simplify_eq.
    cbn in *. exists s, ss. auto.
Qed.

Lemma weigh_and_resample_Ok L M pk chunks0 grid chunks :
  weigh_and_resample L M pk chunks0 = Ok (grid, chunks) ->
  exists max_int,
    pymax pk = Ok max_int
    /\ np_arange (fneg (Locals.vel_width L)) (Locals.vel_width L)
         (Locals.v_res L) = Ok grid
    /\ Forall2 (fun obs obs' =>
                  resample_chunk grid (weight_chunk M max_int obs) = Ok obs')
         chunks0 chunks.
Proof.
  unfold weigh_and_resample. intros H.
  inv_bind H as m Hm. inv_bind H as g Hg. inv_bind H as cs Hcs. simplify_eq.
  exists m. split; [exact Hm|]. split; [exact Hg|].
  apply forM_Forall2 in Hcs. apply Forall2_fmap_l in Hcs. exact Hcs.
Qed.

Lemma weigh_resample_peak_int grid M m obs obs' :
  resample_chunk grid (weight_chunk M m obs) = Ok obs' ->
  peak_int obs' = peak_int obs /\ flag obs' = flag obs /\ rms obs' = rms obs
  /\ int_obs obs' = int_obs obs /\ int_sim obs' = int_sim obs
  /\ velocity obs' = velocity obs /\ sim_velocity obs' = sim_velocity obs.
Proof.
  intros H. apply weigh_resample_chunk in H. destruct (flag obs) eqn:Hf.
  - subst. auto 10.
  - destruct H as (s & ss & _ & _ & ->). cbn. auto 10.
Qed.


Lemma weigh_and_resample_peak_ints L M pk chunks0 grid chunks :
  weigh_and_resample L M pk chunks0 = Ok (grid, chunks) ->
  peak_int <$> chunks = peak_int <$> chunks0.
Proof.
  intros H. apply weigh_and_resample_Ok in H as (m & _ & _ & HF).
  symmetry. apply Forall2_fmap_eq. eapply Forall2_impl; [exact HF|].
  intros obs obs' Hr. apply weigh_resample_peak_int in Hr. symmetry. tauto.
Qed.

(** ** C2: the weight of a surviving chunk *)

(** The chunks of a result are the chunks of the flagging loop, weighted
    with the maximum over all of them and resampled. *)
Lemma output_chunks params name out :
  velocity_stack params name = Ok out ->
  exists chunks0 grid max_int,
    pymax (peak_int <$> obs_chunks out) = Ok max_int /\
    Forall2 (fun obs obs' =>
               resample_chunk grid (weight_chunk (final_mem out) max_int obs)
               = Ok obs')
      chunks0 (obs_chunks out).
Proof.
  intros H.
  apply velocity_stack_Ok in H as (L & pk & chunks0 & grid & I & C & Hp & Hw & _).
  pose proof (prepare_peak_ints _ _ _ _ _ _ Hp) as Hpk.
  pose proof (weigh_and_resample_peak_ints _ _ _ _ _ _ Hw) as Hpk'.
  apply weigh_and_resample_Ok in Hw as (m & Hm & _ & HF).
  exists chunks0, grid, m. split; [congruence|exact HF].
Qed.

(** C2.  In the result of a successful call, the maximum [max_int] of the
    peak intensities of all returned chunks (flagged ones included) exists,
    and every unflagged chunk has
    [weight = (peak_int / max_int) / rms**2],
    [int_weighted = int_obs * weight] and
    [int_sim_weighted = int_sim * weight]. *)
Theorem weight_is_relative_peak_over_variance params name out :
  velocity_stack params name = Ok out ->
  exists max_int,
    pymax (peak_int <$> obs_chunks out) = Ok max_int /\
    forall obs, obs ∈ obs_chunks out -> flag obs = false ->
      exists w,
        w = fdiv (fdiv (peak_int obs) max_int) (fpow2 (rms obs)) /\
        weight obs = Some w /\
        int_weighted obs
        = Some ((fun x => fmul x w) <$> obs_ints (final_mem out) obs) /\
        int_sim_weighted obs
        = Some ((fun x => fmul x w) <$> sim_ints (final_mem out) obs).
Proof.
  intros H. apply output_chunks in H as (chunks0 & grid & m & Hm & HF).
  exists m. split; [exact Hm|].
  intros obs' Hin Hflag.
  destruct (Forall2_elem_of_right _ _ _ _ HF Hin) as (obs & _ & Hr).
  apply weigh_resample_chunk in Hr. destruct (flag obs) eqn:Hf.
  - congruence.
  - destruct Hr as (s & ss & _ & _ & ->). cbn.
    eexists. split; [reflexivity|]. auto.
Qed.

(** ** C10: flagged chunks still take part in the normalisation *)

Lemma pymax_fold_bounded (P : Qc) (l : list fl) (a : Qc) :
  (a <= P)%Qc -> Forall (at_most P) l -> a = P \/ Fin P ∈ l ->
  fold_left (fun m y => if fgtb y m then y else m) l (Fin a) = Fin P.
Proof.
  revert a. induction l as [|y l IH]; intros a Ha HF Hin; simpl.
  - destruct Hin as [->|Hin]; [reflexivity|inversion Hin].
  - inversion HF as [|? ? Hy HF']; subst.
    destruct y as [| |q|]; simpl in Hy; try contradiction.
    unfold fgtb. simpl. case_bool_decide as Hlt.
    + apply IH; [exact Hy|exact HF'|].
      destruct Hin as [->|Hin].
      * exfalso. eapply Qclt_not_le; eassumption.
      * apply elem_of_cons in Hin as [[= <-]|Hin]; auto.
    + apply IH; [exact Ha|exact HF'|].
      destruct Hin as [->|Hin]; [auto|].
      apply elem_of_cons in Hin as [[= <-]|Hin]; [|auto].
      left. apply Qcle_antisym; [exact Ha|]. apply Qcnot_lt_le, Hlt.
Qed.

Lemma pymax_bounded (P : Qc) (l : list fl) :
  Forall (at_most P) l -> Fin P ∈ l -> pymax l = Ok (Fin P).
Proof.
  intros HF Hin. destruct l as [|x l]; [inversion Hin|].
  inversion HF as [|? ? Hx HF']; subst.
  destruct x as [| |a|]; simpl in Hx; try contradiction.
  simpl. f_equal. apply pymax_fold_bounded; [exact Hx|exact HF'|].
  apply elem_of_cons in Hin as [[= <-]|Hin]; auto.
Qed.

(** C10.  When a flagged chunk of the result carries the largest peak
    intensity [P] of all candidates, [P] is the normalising maximum: every
    unflagged chunk has [weight = (peak_int / P) / rms**2]. *)
Theorem flagged_peak_still_normalises params name out (P : Qc) :
  velocity_stack params name = Ok out ->
  Exists (fun big => flag big = true /\ peak_int big = Fin P) (obs_chunks out) ->
  Forall (fun obs => at_most P (peak_int obs)) (obs_chunks out) ->
  forall obs, obs ∈ obs_chunks out -> flag obs = false ->
    weight obs = Some (fdiv (fdiv (peak_int obs) (Fin P)) (fpow2 (rms obs))).
Proof.
  intros H Hbig Hall obs' Hin Hflag.
  apply output_chunks in H as (chunks0 & grid & m & Hm & HF).
  assert (Hmax : pymax (peak_int <$> obs_chunks out) = Ok (Fin P)).
  { apply pymax_bounded.
    - apply Forall_fmap. exact Hall.
    - apply Exists_exists in Hbig as (big & Hbin & _ & <-).
      apply list_elem_of_fmap. eauto. }
  assert (m = Fin P) as -> by congruence.
  destruct (Forall2_elem_of_right _ _ _ _ HF Hin) as (obs & _ & Hr).
  apply weigh_resample_chunk in Hr. destruct (flag obs) eqn:Hf.
  - congruence.
  - destruct Hr as (s & ss & _ & _ & ->). reflexivity.
Qed.

(** ** C3: resampling never extrapolates *)

Lemma hd_elem_of (xp : list fl) : xp <> [] -> hd NaN xp ∈ xp.
Proof. destruct xp; [congruence|]. intros _. left. Qed.

Lemma last_elem_of (xp : list fl) : xp <> [] -> List.last xp NaN ∈ xp.
Proof.
  induction xp as [|a [|b xp] IH]; [congruence| |]; intros _.
  - left.
  - right. apply IH. discriminate.
Qed.

Lemma isnan_true (x : fl) : isnan x = true -> x = NaN.
Proof. destruct x; simpl; congruence. Qed.

Lemma interp_point_outside (xp fp : list fl) (x : fl) :
  xp <> [] -> outside x xp -> interp_point xp fp NaN NaN x = NaN.
Proof.
  intros Hne Hout.
  assert (Hhd : Forall (fun v => fltb x v = true) xp -> fltb x (hd NaN xp) = true).
  { intros HF. rewrite Forall_forall in HF. apply HF, hd_elem_of, Hne. }
  assert (Hlast : Forall (fun v => fltb v x = true) xp ->
                  fgtb x (List.last xp NaN) = true).
  { intros HF. rewrite Forall_forall in HF. apply HF, last_elem_of, Hne. }
  unfold interp_point. destruct xp as [|xp0 [|xp1 xp]]; [congruence| |].
  - destruct Hout as [HF|HF].
    + apply Hhd in HF. simpl in HF. rewrite HF. reflexivity.
    + apply Hlast in HF. simpl in HF. rewrite HF.
      destruct (fltb x xp0); reflexivity.
  - destruct (isnan x) eqn:Hn; [apply isnan_true, Hn|].
    destruct (fgtb x (List.last (xp0 :: xp1 :: xp) NaN)) eqn:Hgt; [reflexivity|].
    destruct (fltb x (hd NaN (xp0 :: xp1 :: xp))) eqn:Hlt; [reflexivity|].
    destruct Hout as [HF|HF]; [apply Hhd in HF|apply Hlast in HF]; congruence.
Qed.

Lemma np_interp_Ok x xp fp l r s :
  np_interp x xp fp l r = Ok s ->
  xp <> [] /\ length fp = length xp /\ s = interp_point xp fp l r <$> x.
Proof.
  unfold np_interp. repeat case_bool_decide; try discriminate.
  intros [= <-]. auto.
Qed.

Lemma np_interp_outside grid xp fp s i x :
  np_interp grid xp fp NaN NaN = Ok s ->
  grid !! i = Some x -> outside x xp -> s !! i = Some NaN.
Proof.
  intros H Hi Hout. apply np_interp_Ok in H as (Hne & _ & ->).
  rewrite list_lookup_fmap, Hi. simpl. f_equal.
  apply interp_point_outside; assumption.
Qed.

(** C3.  In the result of a successful call, every unflagged chunk carries
    [int_samp] and [int_sim_samp] of the length of the shared grid
    [np.arange(-vel_width, vel_width, v_res)], and at every grid point that
    lies strictly below every sample, or strictly above every sample, of the
    chunk's own [velocity] (for [int_samp]) or [sim_velocity] (for
    [int_sim_samp]) the resampled value is NaN. *)
Theorem resampling_never_extrapolates params name out :
  velocity_stack params name = Ok out ->
  exists L grid,
    unpack _get_res params = Ok L /\
    np_arange (fneg (Locals.vel_width L)) (Locals.vel_width L)
      (Locals.v_res L) = Ok grid /\
    forall obs, obs ∈ obs_chunks out -> flag obs = false ->
      exists s ss,
        int_samp obs = Some s /\ int_sim_samp obs = Some ss /\
        length s = length grid /\ length ss = length grid /\
        forall i x, grid !! i = Some x ->
          (outside x (velocity obs) -> s !! i = Some NaN) /\
          (outside x (sim_velocity obs) -> ss !! i = Some NaN).
Proof.
  intros H.
  apply velocity_stack_Ok in H as (L & pk & chunks0 & grid & I & C & Hp & Hw & _).
  apply prepare_Ok in Hp as (pf & made & HL & _).
  apply weigh_and_resample_Ok in Hw as (m & _ & Hg & HF).
  exists L, grid. split; [exact HL|]. split; [exact Hg|].
  intros obs' Hin Hflag.
  destruct (Forall2_elem_of_right _ _ _ _ HF Hin) as (obs & _ & Hr).
  apply weigh_resample_chunk in Hr. destruct (flag obs) eqn:Hf; [congruence|].
  destruct Hr as (s & ss & Hs & Hss & ->). cbn.
  exists s, ss. split; [reflexivity|]. split; [reflexivity|].
  split; [eapply np_interp_length, Hs|].
  split; [eapply np_interp_length, Hss|].
  intros i x Hi. split; intros Hout.
  - eapply np_interp_outside; eassumption.
  - eapply np_interp_outside; eassumption.
Qed.

(** ** C9: the result does not depend on [vlsr] *)

Lemma bind_ext {A B} (m : res A) (f g : A -> res B) :
  (forall a, f a = g a) -> m ≫= f = m ≫= g.
Proof. intros H. destruct m; simpl; auto. Qed.

Lemma ret_bind {A B} (a : A) (f : A -> res B) : Ok a ≫= f = f a.
Proof. reflexivity. Qed.

Lemma fmap_bind {A B C} (m : res A) (f : A -> res B) (h : B -> C) :
  h <$> (m ≫= f) = m ≫= (fun a => h <$> f a).
Proof. destruct m; reflexivity. Qed.

Lemma getitem_insert_ne (params : gmap string pyval) k k' v :
  k <> k' -> getitem (<[k:=v]> params) k' = getitem params k'.
Proof. intros H. unfold getitem. rewrite lookup_insert_ne by exact H. reflexivity. Qed.

Lemma getitem_insert (params : gmap string pyval) k v :
  getitem (<[k:=v]> params) k = Ok v.
Proof. unfold getitem. rewrite lookup_insert_eq. reflexivity. Qed.

Lemma has_key_insert_ne (params : gmap string pyval) k k' v :
  k <> k' -> has_key (<[k:=v]> params) k' = has_key params k'.
Proof. intros H. unfold has_key. rewrite lookup_insert_ne by exact H. reflexivity. Qed.

Lemma unpack_insert_vlsr params v w :
  unpack _get_res (<["vlsr":=v]> params)
  = with_vlsr v <$> unpack _get_res (<["vlsr":=w]> params).
Proof.
  unfold unpack.
  rewrite !getitem_insert, !getitem_insert_ne, !has_key_insert_ne by discriminate.
  repeat first
    [ rewrite (fmap_bind _ _ (with_vlsr v)); apply bind_ext; intros ?
    | rewrite (fmap_bind _ _ (with_vlsr v)), !ret_bind ].
  reflexivity.
Qed.

Lemma select_vlsr params v w u L :
  select (<["vlsr":=v]> params) (with_vlsr u L)
  = select (<["vlsr":=w]> params) L.
Proof.
  unfold select. rewrite !getitem_insert_ne by discriminate.
  destruct L; reflexivity.
Qed.

Lemma make_chunks_vlsr u L pf pk :
  make_chunks (with_vlsr u L) pf pk = make_chunks L pf pk.
Proof. destruct L; reflexivity. Qed.

Lemma flag_chunk_vlsr u L st obs :
  flag_chunk (with_vlsr u L) st obs = flag_chunk L st obs.
Proof. destruct L; reflexivity. Qed.

Lemma flag_loop_cons L st obs rest :
  flag_loop L st (obs :: rest)
  = flag_chunk L st obs ≫= (fun '(M, out, obs') =>
      flag_loop L (M, out) rest ≫= (fun '(M', out', rest') =>
        Ok (M', out', obs' :: rest'))).
Proof. reflexivity. Qed.

Lemma flag_loop_vlsr u L chunks : forall st,
  flag_loop (with_vlsr u L) st chunks = flag_loop L st chunks.
Proof.
  induction chunks as [|obs rest IH]; intros st; [reflexivity|].
  rewrite !flag_loop_cons, flag_chunk_vlsr. apply bind_ext.
  intros [[M out] obs']. rewrite IH. reflexivity.
Qed.

Lemma stack_chunks_vlsr u name L M pk chunks :
  stack_chunks name (with_vlsr u L) M pk chunks = stack_chunks name L M pk chunks.
Proof. destruct L; reflexivity. Qed.

Lemma flag_chunk_printed L M out obs :
  flag_chunk L (M, out) obs = after out <$> flag_chunk L (M, []) obs.
Proof.
  unfold flag_chunk, after.
  destruct (flag obs); [simpl; rewrite app_nil_r; reflexivity|].
  repeat case_bool_decide; try (simpl; rewrite app_nil_r; reflexivity).
  destruct (Locals.blank_lines L).
  - destruct (blank_chunk L M obs) as [[[M' line] obs']|e]; [|reflexivity].
    simpl. destruct (Locals.flag_lines L); [|reflexivity].
    destruct (np_nanmax _); [|reflexivity]. simpl.
    destruct (fgtb _ _); reflexivity.
  - simpl. destruct (Locals.flag_lines L);
      [|simpl; rewrite app_nil_r; reflexivity].
    destruct (np_nanmax _); [|reflexivity]. simpl.
    destruct (fgtb _ _); simpl; rewrite app_nil_r; reflexivity.
Qed.

Lemma flag_loop_printed L chunks : forall M out,
  flag_loop L (M, out) chunks = after out <$> flag_loop L (M, []) chunks.
Proof.
  induction chunks as [|obs rest IH]; intros M out.
  - unfold after. simpl. rewrite app_nil_r. reflexivity.
  - rewrite !flag_loop_cons, flag_chunk_printed.
    destruct (flag_chunk L (M, []) obs) as [[[M1 l1] obs1]|e]; [|reflexivity].
    unfold after at 1. cbn [fmap res_fmap mbind res_bind fst snd].
    rewrite (IH M1 (out ++ l1)), (IH M1 l1).
    destruct (flag_loop L (M1, []) rest) as [[[M2 l2] rest']|e]; [|reflexivity].
    unfold after. simpl. rewrite app_assoc. reflexivity.
Qed.

(** C9.  Two calls whose [params] differ only in the value stored under
    ["vlsr"] raise the same exception or return the same stacked spectrum
    and the same chunk list, and leave the same arrays behind; only the
    printed line differs. *)
Theorem output_independent_of_vlsr params name v1 v2 :
  returned <$> velocity_stack (<["vlsr":=v1]> params) name
  = returned <$> velocity_stack (<["vlsr":=v2]> params) name.
Proof.
  unfold velocity_stack, prepare.
  rewrite (unpack_insert_vlsr params v1 v2).
  destruct (unpack _get_res (<["vlsr":=v2]> params)) as [L|e]; [|reflexivity].
  simpl. rewrite (select_vlsr params v1 v2).
  destruct (select (<["vlsr":=v2]> params) L) as [[pf pk]|e]; [|reflexivity].
  simpl. rewrite make_chunks_vlsr.
  destruct (make_chunks L pf pk) as [made|e]; [|reflexivity].
  simpl. rewrite flag_loop_vlsr.
  rewrite (flag_loop_printed L made _ [PrintValue v1]).
  rewrite (flag_loop_printed L made _ [PrintValue (Locals.vlsr L)]).
  destruct (flag_loop L _ made) as [[[M l] chunks0]|e]; [|reflexivity].
  simpl. rewrite stack_chunks_vlsr.
  destruct (stack_chunks name L M pk chunks0) as [[sp cs]|e]; reflexivity.
Qed.

(** ** C7: blanking leaves the safe range alone *)

Lemma length_deref buf v : view_ok buf v -> length (deref buf v) = v_len v.
Proof.
  unfold view_ok, deref. intros H. rewrite length_take, length_drop. lia.
Qed.

(** Reading back a slice that was just written through the view. *)
Lemma py_slice_store_slice buf v x y vals :
  view_ok buf v ->
  length vals = (y `min` v_len v) - (x `min` v_len v) ->
  py_slice (deref (store_slice buf v x y vals) v) x y = vals.
Proof.
  unfold view_ok, py_slice, deref, store_slice, store. simpl.
  intros Hok Hlen. rewrite <- Hlen, firstn_all.
  apply list_eq. intros i.
  rewrite lookup_take, lookup_drop, lookup_take, lookup_drop.
  destruct (decide (i < length vals)) as [Hi|Hi].
  - rewrite decide_True by lia. rewrite decide_True by lia.
    rewrite list_lookup_inserts by lia. f_equal. lia.
  - rewrite (lookup_ge_None_2 vals) by lia.
    repeat case_decide; try reflexivity. lia.
Qed.

Lemma length_py_slice_deref buf v x y :
  view_ok buf v ->
  length (py_slice (deref buf v) x y) = (y `min` v_len v) - (x `min` v_len v).
Proof.
  intros H. unfold py_slice. rewrite length_take, length_drop, length_deref by exact H.
  lia.
Qed.

Lemma view_ok_length buf buf' v :
  length buf' = length buf -> view_ok buf v -> view_ok buf' v.
Proof. unfold view_ok. intros ->. auto. Qed.

Lemma views_ok_same_shape M M' obs :
  same_shape M M' -> views_ok M obs -> views_ok M' obs.
Proof.
  intros [Ha Hb] [Hoa Hob]. split; eapply view_ok_length; eassumption.
Qed.

Lemma mk_view_ok buf x y : view_ok buf (mk_view (length buf) x y).
Proof. unfold view_ok, mk_view. simpl. lia. Qed.

Lemma forM_Forall {A B} (f : A -> res B) (Q : B -> Prop) (l : list A) l' :
  (forall a b, f a = Ok b -> Q b) -> forM f l = Ok l' -> Forall Q l'.
Proof.
  intros Hf H. apply forM_Forall2 in H.
  induction H; constructor; eauto.
Qed.

(** C7.  For a chunk whose windows lie within the arrays, the blanking pass
    leaves the safe range [int_obs[ll_obs:ul_obs]] and
    [int_sim[ll_sim:ul_sim]] exactly as it was before the pass, whatever was
    blanked in between, and the chunk's [rms] afterwards is [get_rms] of
    [int_obs] as the pass left it. *)
Theorem blanking_preserves_safe_range L M obs R M' line obs' :
  views_ok M obs ->
  safe_range L obs = Ok R ->
  blank_chunk L M obs = Ok (M', line, obs') ->
  py_slice (obs_ints M' obs') (ll_obs R) (ul_obs R)
  = py_slice (obs_ints M obs) (ll_obs R) (ul_obs R)
  /\ py_slice (sim_ints M' obs') (ll_sim R) (ul_sim R)
     = py_slice (sim_ints M obs) (ll_sim R) (ul_sim R)
  /\ rms obs' = get_rms (obs_ints M' obs').
Proof.
  intros [Hvo Hvs] HR H. unfold blank_chunk in H. rewrite HR in H.
  rewrite ret_bind in H.
  destruct (_find_nans _) as [lls uls].
  inv_bind H as vl Hvl. inv_bind H as vu Hvu. simplify_eq.
  unfold obs_ints, sim_ints, set_rms. cbn.
  split; [|split; [|reflexivity]].
  - apply py_slice_store_slice.
    + eapply view_ok_length; [apply length_store|exact Hvo].
    + apply length_py_slice_deref, Hvo.
  - apply py_slice_store_slice.
    + eapply view_ok_length; [apply length_blank_slices|exact Hvs].
    + apply length_py_slice_deref, Hvs.
Qed.

Lemma make_chunks_views_ok L pf pk made :
  make_chunks L pf pk = Ok made ->
  Forall (views_ok (Mem (Locals.int_arr L) (Locals.int_sim L))) made.
Proof.
  unfold make_chunks. apply forM_Forall.
  intros (x & y & a & b & p & c) obs Hinit.
  apply ObsChunk_init_fields in Hinit as (_ & Ho & _ & Hs & _).
  unfold views_ok. rewrite Ho, Hs. split; apply mk_view_ok.
Qed.

(** The windows stay within the arrays through the flagging loop: the
    chunks keep their windows and the arrays keep their lengths. *)
Lemma reflagged_views_ok M obs obs' :
  reflagged obs obs' -> views_ok M obs -> views_ok M obs'.
Proof. intros (b & r & ->) H. exact H. Qed.

Lemma flag_loop_views_ok L chunks M out M' out' chunks' :
  flag_loop L (M, out) chunks = Ok (M', out', chunks') ->
  Forall (views_ok M) chunks -> Forall (views_ok M') chunks'.
Proof.
  intros H HF. apply flag_loop_frame in H as [Hs HR].
  induction HR as [|obs obs' l l' Hr _ IH]; [constructor|].
  inversion HF as [|? ? Hv HF']; subst.
  constructor; [|apply IH, HF'].
  eapply views_ok_same_shape; [exact Hs|].
  eapply reflagged_views_ok; eassumption.
Qed.

(** ** C8: how the weight varies with the peak and the noise *)

Local Open Scope Qc_scope.

Lemma Qcinv_nonneg (x : Qc) : 0 < x -> 0 <= / x.
Proof. intros H. apply Qclt_le_weak, Qcinv_pos, H. Qed.

Lemma Qcinv_antitone (a b : Qc) : 0 < a -> a <= b -> / b <= / a.
Proof.
  intros Ha Hab.
  assert (Hb : 0 < b) by (eapply Qclt_le_trans; eassumption).
  assert (Hna : a <> 0) by (intros ->; eapply Qclt_not_eq; [exact Ha|reflexivity]).
  assert (Hnb : b <> 0) by (intros ->; eapply Qclt_not_eq; [exact Hb|reflexivity]).
  rewrite <- (Qcmult_1_r (/ b)), <- (Qcmult_1_l (/ a)).
  rewrite <- (Qcmult_inv_r a Hna) at 1. rewrite <- (Qcmult_inv_l b Hnb).
  rewrite Qcmult_assoc.
  apply Qcmult_le_mono_nonneg_r; [apply Qcinv_nonneg, Ha|].
  apply Qcmult_le_mono_nonneg_l; [apply Qcinv_nonneg, Hb|exact Hab].
Qed.

Lemma Qcsquare_pos (r : Qc) : r <> 0 -> 0 < r * r.
Proof.
  intros Hr. destruct (Qclt_le_dec 0 r) as [Hp|Hn].
  - apply Qcmult_pos_pos; assumption.
  - assert (Hneg : 0 < - r).
    { apply Qcle_lt_or_eq in Hn as [Hn| ->]; [|congruence].
      apply Qclt_minus_iff in Hn. rewrite Qcplus_0_l in Hn. exact Hn. }
    replace (r * r) with ((- r) * (- r)) by ring.
    apply Qcmult_pos_pos; assumption.
Qed.

Lemma Qcsquare_mono (r r' : Qc) : 0 < r -> r <= r' -> r * r <= r' * r'.
Proof.
  intros Hr Hrr'.
  apply Qcle_trans with (r * r').
  - apply Qcmult_le_mono_nonneg_l; [apply Qclt_le_weak, Hr|exact Hrr'].
  - apply Qcmult_le_mono_nonneg_r; [|exact Hrr'].
    eapply Qcle_trans; [apply Qclt_le_weak, Hr|exact Hrr'].
Qed.

Lemma pos_neq_0 (x : Qc) : 0 < x -> x <> 0.
Proof. intros H ->. eapply Qclt_not_eq; [exact H|reflexivity]. Qed.

(** The weight of an unflagged chunk with finite peak, maximum and noise. *)
Lemma weight_chunk_finite M (p m r : Qc) obs :
  flag obs = false -> peak_int obs = Fin p -> rms obs = Fin r ->
  m <> 0 -> r <> 0 ->
  weight (weight_chunk M (Fin m) obs) = Some (Fin (p / m / (r * r))).
Proof.
  intros Hf Hp Hr Hm Hr0. unfold weight_chunk. rewrite Hf.
  cbn [weight with_weights]. rewrite Hp, Hr.
  unfold fpow2, fmul, fdiv at 2.
  rewrite (bool_decide_eq_false_2 (m = 0)) by exact Hm.
  unfold fdiv. rewrite bool_decide_eq_false_2; [reflexivity|].
  intros H0. apply Qcmult_integral in H0 as [?|?]; contradiction.
Qed.

Lemma at_most_weaken (P Q : Qc) (x : fl) : P <= Q -> at_most P x -> at_most Q x.
Proof.
  intros HPQ. destruct x; simpl; try contradiction.
  intros H. eapply Qcle_trans; eassumption.
Qed.

(** The maximum of the candidates when one peak [p] joins others whose
    largest is [Mx]. *)
Lemma pymax_with_others (before after : list fl) (Mx p : Qc) :
  Forall (at_most Mx) (before ++ after) -> Fin Mx ∈ before ++ after ->
  pymax (before ++ Fin p :: after)
  = Ok (Fin (if bool_decide (p <= Mx) then Mx else p)).
Proof.
  intros HF Hin. apply Forall_app in HF as [HFb HFa].
  apply elem_of_app in Hin.
  case_bool_decide as Hle; apply pymax_bounded.
  - apply Forall_app. split; [exact HFb|]. constructor; [exact Hle|exact HFa].
  - apply elem_of_app. destruct Hin; [left|right; right]; assumption.
  - apply Qcnot_le_lt, Qclt_le_weak in Hle.
    apply Forall_app. split; [|constructor; [apply Qcle_refl|]];
      (eapply Forall_impl; [eassumption|]); intros x; apply at_most_weaken, Hle.
  - apply elem_of_app. right. left.
Qed.

Lemma relative_peak_monotone (Mx p p' : Qc) :
  0 < Mx -> p <= p' ->
  p / (if bool_decide (p <= Mx) then Mx else p)
  <= p' / (if bool_decide (p' <= Mx) then Mx else p').
Proof.
  intros HMx Hpp'. unfold Qcdiv.
  case_bool_decide as Hp; case_bool_decide as Hp'.
  - apply Qcmult_le_mono_nonneg_r; [apply Qcinv_nonneg, HMx|exact Hpp'].
  - apply Qcnot_le_lt in Hp'.
    assert (H0 : p' <> 0) by (apply pos_neq_0; eapply Qclt_trans; eassumption).
    rewrite (Qcmult_inv_r p' H0), <- (Qcmult_inv_r Mx (pos_neq_0 _ HMx)).
    apply Qcmult_le_mono_nonneg_r; [apply Qcinv_nonneg, HMx|exact Hp].
  - exfalso. apply Hp. eapply Qcle_trans; eassumption.
  - apply Qcnot_le_lt in Hp, Hp'.
    assert (H0 : p <> 0) by (apply pos_neq_0; eapply Qclt_trans; eassumption).
    assert (H0' : p' <> 0) by (apply pos_neq_0; eapply Qclt_trans; eassumption).
    rewrite (Qcmult_inv_r p H0), (Qcmult_inv_r p' H0'). apply Qcle_refl.
Qed.

Lemma max_with_others_neq_0 (Mx p : Qc) :
  0 < Mx -> (if bool_decide (p <= Mx) then Mx else p) <> 0.
Proof.
  intros HMx. case_bool_decide as Hp; [apply pos_neq_0, HMx|].
  apply Qcnot_le_lt in Hp. apply pos_neq_0. eapply Qclt_trans; eassumption.
Qed.

(** C8, as amended.  For finite values: when the largest peak intensity
    [Mx] among the other candidates is positive, raising a chunk's own
    [peak_int] from [p] to [p'] (other peaks and the chunk's non-zero [rms]
    fixed, the maximum recomputed) never lowers its weight; and when
    [peak_int / max_int] is not negative, raising [rms] from [r > 0] to [r']
    (peaks fixed) never raises the weight. *)
Theorem weight_monotone (M : mem) :
  (forall (before after : list fl) (Mx p p' r : Qc) (obs obs' : ObsChunk),
     Forall (at_most Mx) (before ++ after) -> Fin Mx ∈ before ++ after ->
     0 < Mx -> r <> 0 ->
     flag obs = false -> flag obs' = false ->
     rms obs = Fin r -> rms obs' = Fin r ->
     peak_int obs = Fin p -> peak_int obs' = Fin p' -> p <= p' ->
     exists m m' w w',
       pymax (before ++ Fin p :: after) = Ok m
       /\ pymax (before ++ Fin p' :: after) = Ok m'
       /\ weight (weight_chunk M m obs) = Some (Fin w)
       /\ weight (weight_chunk M m' obs') = Some (Fin w')
       /\ w <= w')
  /\ (forall (mx p r r' : Qc) (obs obs' : ObsChunk),
        mx <> 0 -> 0 <= p / mx -> 0 < r -> r <= r' ->
        flag obs = false -> flag obs' = false ->
        peak_int obs = Fin p -> peak_int obs' = Fin p ->
        rms obs = Fin r -> rms obs' = Fin r' ->
        exists w w',
          weight (weight_chunk M (Fin mx) obs) = Some (Fin w)
          /\ weight (weight_chunk M (Fin mx) obs') = Some (Fin w')
          /\ w' <= w).
Proof.
  split.
  - intros before after Mx p p' r obs obs' HF Hin HMx Hr Hf Hf' Hrms Hrms'
      Hp Hp' Hpp'.
    eexists _, _, _, _.
    split; [apply pymax_with_others; eassumption|].
    split; [apply pymax_with_others; eassumption|].
    split; [apply weight_chunk_finite; eauto using max_with_others_neq_0|].
    split; [apply weight_chunk_finite; eauto using max_with_others_neq_0|].
    apply Qcmult_le_mono_nonneg_r.
    + apply Qcinv_nonneg, Qcsquare_pos, Hr.
    + apply relative_peak_monotone; assumption.
  - intros mx p r r' obs obs' Hmx Hc Hr Hrr' Hf Hf' Hp Hp' Hrms Hrms'.
    assert (Hr' : 0 < r') by (eapply Qclt_le_trans; eassumption).
    eexists _, _.
    split; [apply weight_chunk_finite; eauto using pos_neq_0|].
    split; [apply weight_chunk_finite; eauto using pos_neq_0|].
    apply Qcmult_le_mono_nonneg_l; [exact Hc|].
    apply Qcinv_antitone.
    + apply Qcsquare_pos, pos_neq_0, Hr.
    + apply Qcsquare_mono; assumption.
Qed.

Local Close Scope Qc_scope.

(** ** C4: a chunk with an empty observed window *)

(** Constructing a chunk on an empty observed window raises [IndexError]:
    [set_cfreq] reads [freq_obs[0]]. *)
Lemma ObsChunk_init_empty M io fs isim p c :
  ObsChunk_init M [] io fs isim p c = Raise IndexError.
Proof. reflexivity. Qed.

(** Hence no chunk that reaches the flagging loop has an empty observed
    window, and the test [len(obs.freq_obs) == 0] there never succeeds. *)
Lemma make_chunks_nonempty L pf pk made :
  make_chunks L pf pk = Ok made -> Forall (fun obs => freq_obs obs <> []) made.
Proof.
  unfold make_chunks. apply forM_Forall.
  intros (x & y & a & b & p & c) obs Hinit.
  apply ObsChunk_init_fields in Hinit as (-> & _ & _ & _ & _ & _ & _ & _ & _ & _ & H).
  exact H.
Qed.

(** A drop listed in [drops] is flagged, whatever the other settings. *)
Lemma flag_chunk_drops L M out obs M' out' obs' :
  flag_chunk L (M, out) obs = Ok (M', out', obs') ->
  Z.of_nat (id obs) ∈ Locals.drops L -> flag obs' = true.
Proof.
  unfold flag_chunk. intros H Hin.
  destruct (flag obs) eqn:Hf; [simplify_eq; exact Hf|].
  case_bool_decide; [simplify_eq; reflexivity|].
  rewrite bool_decide_eq_true_2 in H by exact Hin. simplify_eq. reflexivity.
Qed.

(** ** C6: the default of [v_res] *)

(** Without ["drops"] the grid step is [0.1*dV], whether or not ["v_res"]
    is given. *)
Lemma unpack_v_res_without_drops params L :
  unpack _get_res params = Ok L -> params !! "drops" = None ->
  Locals.v_res L = fmul (fq 1 10) (Locals.dV L).
Proof.
  unfold unpack. intros H Hd.
  assert (Hk : has_key params "drops" = false).
  { unfold has_key. rewrite Hd. apply bool_decide_eq_false_2.
    intros [? ?]. discriminate. }
  rewrite Hk in H.
  inv_bind H as freq_arr H1. inv_bind H as int_arr H2.
  inv_bind H as freq_sim H3. inv_bind H as int_sim H4.
  inv_bind H as res_inp H5. inv_bind H as dV H6. inv_bind H as dV_ext H7.
  inv_bind H as vlsr H8. inv_bind H as vel_width H9.
  rewrite ret_bind in H.
  inv_bind H as drops H10.
  inv_bind H as blank_lines H11. inv_bind H as bkr H12.
  inv_bind H as flag_lines H13. inv_bind H as flag_sigma H14.
  simplify_eq. reflexivity.
Qed.

(** With ["drops"] and without ["v_res"] the call does not return. *)
Lemma drops_without_v_res params name out :
  is_Some (params !! "drops") -> params !! "v_res" = None ->
  velocity_stack params name <> Ok out.
Proof.
  intros Hd Hv H.
  apply velocity_stack_Ok in H as (L & pk & chunks0 & grid & I & C & Hp & _).
  apply prepare_Ok in Hp as (pf & made & HL & _).
  unfold unpack in HL.
  assert (Hk : has_key params "drops" = true)
    by (apply bool_decide_eq_true_2, Hd).
  rewrite Hk in HL.
  inv_bind HL as freq_arr H1. inv_bind HL as int_arr H2.
  inv_bind HL as freq_sim H3. inv_bind HL as int_sim H4.
  inv_bind HL as res_inp H5. inv_bind HL as dV H6. inv_bind HL as dV_ext H7.
  inv_bind HL as vlsr H8. inv_bind HL as vel_width H9.
  inv_bind HL as v_res H10.
  unfold getitem in H10. rewrite Hv in H10. discriminate.
Qed.

(** ** C5: every chunk flagged *)

Lemma trim_edges_replicate {A} (n : nat) (x : A) :
  trim_edges (replicate n x) = replicate (n - 10) x.
Proof.
  unfold trim_edges. rewrite length_replicate, drop_replicate, take_replicate.
  f_equal. lia.
Qed.

Lemma weight_flagged M m chunks :
  Forall (fun obs => flag obs = true) chunks ->
  weight_chunk M m <$> chunks = chunks.
Proof.
  induction 1 as [|obs l Hf _ IH]; [reflexivity|].
  rewrite fmap_cons, IH. unfold weight_chunk. rewrite Hf. reflexivity.
Qed.

Lemma resample_flagged grid chunks :
  Forall (fun obs => flag obs = true) chunks ->
  forM (resample_chunk grid) chunks = Ok chunks.
Proof.
  intros HF. rewrite <- (list_fmap_id chunks) at 2. apply forM_total.
  eapply Forall_impl; [exact HF|]. intros obs Hf.
  unfold resample_chunk. rewrite Hf. reflexivity.
Qed.

Lemma kept_flagged chunks :
  Forall (fun obs => flag obs = true) chunks -> kept chunks = [].
Proof.
  induction 1 as [|obs l Hf _ IH]; [reflexivity|].
  unfold kept in *. rewrite filter_cons, decide_False by congruence. exact IH.
Qed.

Lemma gather_flagged chunks :
  Forall (fun obs => flag obs = true) chunks ->
  gather chunks = Ok (mkInterped [] [] []).
Proof.
  intros HF. unfold gather. fold (kept chunks). rewrite (kept_flagged _ HF).
  reflexivity.
Qed.

Lemma composite_nothing grid :
  composite grid (mkInterped [] [] [])
  = Ok (mkComposite (replicate (length grid) fzero)
          (replicate (length grid) NaN) (replicate (length grid) NaN)).
Proof.
  unfold composite, make_rms_arr. cbn.
  assert (H0 : (rms_sum_at [] [] <$> seq 0 (length grid))
               = replicate (length grid) fzero).
  { generalize 0. induction (length grid) as [|n IH]; intros k;
      [reflexivity|]. cbn [seq replicate]. rewrite fmap_cons, IH.
    reflexivity. }
  rewrite H0.
  assert (Hn : fdiv fzero <$> replicate (length grid) fzero
               = replicate (length grid) NaN).
  { rewrite fmap_replicate. reflexivity. }
  rewrite Hn. reflexivity.
Qed.

Lemma finish_nothing name grid :
  finish get_rms name grid
    (mkComposite (replicate (length grid) fzero)
       (replicate (length grid) NaN) (replicate (length grid) NaN))
  = Spectrum.mk name (trim_edges grid)
      (replicate (length grid - 10) NaN) (replicate (length grid - 10) NaN).
Proof.
  unfold finish. cbn [int_avg int_sim_avg].
  rewrite !trim_edges_replicate, !fmap_replicate. reflexivity.
Qed.

(** C5, as amended.  When the flagging loop leaves at least one chunk and
    every chunk flagged, and the velocity grid can be built, the call raises
    nothing: it returns the chunk list and a spectrum on the trimmed grid
    whose [snr] and [int_sim] are NaN at every sample. *)
Theorem all_flagged_returns_nan_spectrum params name L pk M out chunks grid :
  prepare params = Ok (L, pk, M, out, chunks) ->
  chunks <> [] ->
  Forall (fun obs => flag obs = true) chunks ->
  np_arange (fneg (Locals.vel_width L)) (Locals.vel_width L)
    (Locals.v_res L) = Ok grid ->
  velocity_stack params name
  = Ok (mkStackOutput
          (Spectrum.mk name (trim_edges grid)
             (replicate (length grid - 10) NaN)
             (replicate (length grid - 10) NaN))
          chunks M out).
Proof.
  intros Hp Hne HF Hg.
  pose proof (prepare_peak_ints _ _ _ _ _ _ Hp) as Hpk.
  unfold velocity_stack. rewrite Hp, ret_bind.
  unfold stack_chunks, weigh_and_resample.
  destruct pk as [|p0 pk]; [destruct chunks; [congruence|discriminate]|].
  cbn [pymax]. rewrite ret_bind, (weight_flagged _ _ _ HF), Hg, ret_bind.
  rewrite (resample_flagged _ _ HF), !ret_bind.
  rewrite (gather_flagged _ HF), ret_bind, composite_nothing, ret_bind.
  rewrite finish_nothing. reflexivity.
Qed.

(** With no candidate at all, [max(peak_ints)] raises [ValueError]. *)
Lemma no_candidates_raises params name L M out :
  prepare params = Ok (L, [], M, out, []) ->
  velocity_stack params name = Raise ValueError.
Proof. intros Hp. unfold velocity_stack. rewrite Hp. reflexivity. Qed.

(** * Further properties of [velocity_stack] *)

(** ** Reading the dictionary *)

Lemma getitem_as_array (params : gmap string pyval) k a :
  getitem params k ≫= as_array = Ok a -> params !! k = Some (VArray a).
Proof.
  unfold getitem. destruct (params !! k) as [[]|]; simpl; congruence.
Qed.

Lemma getitem_as_float (params : gmap string pyval) k x :
  getitem params k ≫= as_float = Ok x -> params !! k = Some (VFloat x).
Proof.
  unfold getitem. destruct (params !! k) as [[]|]; simpl; congruence.
Qed.

Lemma getitem_as_ints (params : gmap string pyval) k l :
  getitem params k ≫= as_ints = Ok l -> params !! k = Some (VInts l).
Proof.
  unfold getitem. destruct (params !! k) as [[]|]; simpl; congruence.
Qed.

Lemma getitem_Ok (params : gmap string pyval) k v :
  getitem params k = Ok v -> params !! k = Some v.
Proof. apply of_option_Ok. Qed.

Lemma has_key_false (params : gmap string pyval) k :
  params !! k = None -> has_key params k = false.
Proof.
  intros H. unfold has_key. rewrite H. apply bool_decide_eq_false_2.
  intros [? ?]. discriminate.
Qed.

Lemma has_key_true (params : gmap string pyval) k v :
  params !! k = Some v -> has_key params k = true.
Proof. intros H. unfold has_key. rewrite H. apply bool_decide_eq_true_2. eauto. Qed.

(** What a successful [unpack] says about the dictionary. *)
Lemma unpack_Ok_required params L :
  unpack _get_res params = Ok L ->
  params !! "freq_arr" = Some (VArray (Locals.freq_arr L))
  /\ params !! "int_arr" = Some (VArray (Locals.int_arr L))
  /\ params !! "freq_sim" = Some (VArray (Locals.freq_sim L))
  /\ params !! "int_sim" = Some (VArray (Locals.int_sim L))
  /\ params !! "dV" = Some (VFloat (Locals.dV L))
  /\ params !! "vlsr" = Some (Locals.vlsr L)
  /\ params !! "vel_width" = Some (VFloat (Locals.vel_width L)).
Proof.
  unfold unpack. intros H.
  inv_bind H as freq_arr H1. inv_bind H as int_arr H2.
  inv_bind H as freq_sim H3. inv_bind H as int_sim H4.
  inv_bind H as res_inp H5. inv_bind H as dV H6. inv_bind H as dV_ext H7.
  inv_bind H as vlsr H8. inv_bind H as vel_width H9.
  inv_bind H as v_res H10. inv_bind H as drops H11.
  inv_bind H as blank_lines H12. inv_bind H as bkr H13.
  inv_bind H as flag_lines H14. inv_bind H as flag_sigma H15.
  simplify_eq. cbn.
  auto 10 using getitem_as_array, getitem_as_float, getitem_Ok.
Qed.

Lemma unpack_Ok_optional params L :
  unpack _get_res params = Ok L ->
  (params !! "dV_ext" = None -> Locals.dV_ext L = None)
  /\ (params !! "drops" = None -> Locals.drops L = [])
  /\ (forall d, params !! "drops" = Some d -> d = VInts (Locals.drops L))
  /\ (params !! "blank_lines" = None -> Locals.blank_lines L = false)
  /\ (forall v, params !! "blank_lines" = Some v ->
        Locals.blank_lines L = is_True v)
  /\ (params !! "flag_lines" = None -> Locals.flag_lines L = false)
  /\ (forall v, params !! "flag_lines" = Some v ->
        Locals.flag_lines L = is_True v)
  /\ (params !! "flag_sigma" = None -> Locals.flag_sigma L = fz 5)
  /\ (params !! "blank_keep_range" = None ->
        Locals.blank_keep_range L
        = [fmul (fz (-3)) (Locals.dV L); fmul (fz 3) (Locals.dV L)])
  /\ (params !! "res_inp" = None ->
        Locals.res_inp L = _get_res (Locals.freq_arr L)).
Proof.
  unfold unpack. intros H.
  inv_bind H as freq_arr H1. inv_bind H as int_arr H2.
  inv_bind H as freq_sim H3. inv_bind H as int_sim H4.
  inv_bind H as res_inp H5. inv_bind H as dV H6. inv_bind H as dV_ext H7.
  inv_bind H as vlsr H8. inv_bind H as vel_width H9.
  inv_bind H as v_res H10. inv_bind H as drops H11.
  inv_bind H as blank_lines H12. inv_bind H as bkr H13.
  inv_bind H as flag_lines H14. inv_bind H as flag_sigma H15.
  simplify_eq. cbn.
  repeat split.
  - intros Hn. rewrite (has_key_false _ _ Hn) in H7. injection H7 as <-. reflexivity.
  - intros Hn. rewrite (has_key_false _ _ Hn) in H11. injection H11 as <-. reflexivity.
  - intros d Hd. rewrite (has_key_true _ _ _ Hd) in H11.
    apply getitem_as_ints in H11. congruence.
  - intros Hn. rewrite (has_key_false _ _ Hn) in H12. injection H12 as <-. reflexivity.
  - intros v Hv. rewrite (has_key_true _ _ _ Hv) in H12.
    unfold getitem in H12. rewrite Hv in H12. cbn in H12. injection H12 as <-. reflexivity.
  - intros Hn. rewrite (has_key_false _ _ Hn) in H14. injection H14 as <-. reflexivity.
  - intros v Hv. rewrite (has_key_true _ _ _ Hv) in H14.
    unfold getitem in H14. rewrite Hv in H14. cbn in H14. injection H14 as <-. reflexivity.
  - intros Hn. rewrite (has_key_false _ _ Hn) in H15. injection H15 as <-. reflexivity.
  - intros Hn. rewrite (has_key_false _ _ Hn) in H13. injection H13 as <-. reflexivity.
  - intros Hn. rewrite (has_key_false _ _ Hn) in H5. injection H5 as <-. reflexivity.
Qed.

(** The stages of a successful call, from the dictionary to the chunks. *)
Lemma velocity_stack_stages params name out :
  velocity_stack params name = Ok out ->
  exists L pf pk made chunks0 grid max_int,
    unpack _get_res params = Ok L
    /\ select params L = Ok (pf, pk)
    /\ make_chunks L pf pk = Ok made
    /\ flag_loop L (Mem (Locals.int_arr L) (Locals.int_sim L),
                    [PrintValue (Locals.vlsr L)]) made
       = Ok (final_mem out, stdout out, chunks0)
    /\ pymax pk = Ok max_int
    /\ np_arange (fneg (Locals.vel_width L)) (Locals.vel_width L)
         (Locals.v_res L) = Ok grid
    /\ Forall2 (fun obs obs' =>
                  resample_chunk grid
                    (weight_chunk (final_mem out) max_int obs) = Ok obs')
         chunks0 (obs_chunks out)
    /\ Forall (resampled grid) (obs_chunks out)
    /\ exists I C, gather (obs_chunks out) = Ok I
                   /\ composite grid I = Ok C
                   /\ stacked_spectrum out = finish get_rms name grid C.
Proof.
  intros H.
  apply velocity_stack_Ok in H
    as (L & pk & chunks0 & grid & I & C & Hp & Hw & HI & HC & Hs).
  apply prepare_Ok in Hp as (pf & made & HL & Hsel & Hmade & Hloop).
  pose proof (weigh_and_resample_resampled _ _ _ _ _ _ Hw) as Hres.
  apply weigh_and_resample_Ok in Hw as (m & Hm & Hg & HF).
  exists L, pf, pk, made, chunks0, grid, m. eauto 15.
Qed.

(** ** Windows and weights along the pipeline *)

Lemma same_window_refl obs : same_window obs obs.
Proof. unfold same_window. auto 10. Qed.

Lemma same_window_trans a b c :
  same_window a b -> same_window b c -> same_window a c.
Proof. unfold same_window. intuition congruence. Qed.

Lemma reflagged_same_window obs obs' : reflagged obs obs' -> same_window obs obs'.
Proof. intros (b & r & ->). unfold same_window. cbn. auto 10. Qed.

Lemma reflagged_unweighted obs obs' :
  reflagged obs obs' -> unweighted obs -> unweighted obs'.
Proof. intros (b & r & ->) H. exact H. Qed.

Lemma Forall2_compose {A B C} (R : A -> B -> Prop) (S : B -> C -> Prop)
    (T : A -> C -> Prop) la lb lc :
  (forall a b c, R a b -> S b c -> T a c) ->
  Forall2 R la lb -> Forall2 S lb lc -> Forall2 T la lc.
Proof.
  intros HT HR. revert lc. induction HR as [|a b la lb Hab _ IH]; intros lc HS.
  - inversion HS. constructor.
  - inversion HS as [|? c ? lc' Hbc HS']; subst. constructor; eauto.
Qed.

Lemma Forall2_Forall_left {A B} (R : A -> B -> Prop) (P : A -> Prop)
    (Q : B -> Prop) la lb :
  (forall a b, R a b -> P a -> Q b) ->
  Forall2 R la lb -> Forall P la -> Forall Q lb.
Proof.
  intros HPQ HR. induction HR as [|a b la lb Hab _ IH]; intros HP.
  - constructor.
  - inversion HP; subst. constructor; eauto.
Qed.

Lemma weigh_resample_same_window grid M m obs obs' :
  resample_chunk grid (weight_chunk M m obs) = Ok obs' ->
  same_window obs obs' /\ flag obs' = flag obs /\ rms obs' = rms obs.
Proof.
  intros H. apply weigh_resample_chunk in H. destruct (flag obs) eqn:Hf.
  - subst. split; [apply same_window_refl|]. auto.
  - destruct H as (s & ss & _ & _ & ->). unfold same_window. cbn. auto 12.
Qed.

Lemma weigh_resample_weighted grid M m obs obs' :
  resample_chunk grid (weight_chunk M m obs) = Ok obs' ->
  unweighted obs ->
  if flag obs' then unweighted obs' else weighted obs'.
Proof.
  intros H Hu. apply weigh_resample_chunk in H. destruct (flag obs) eqn:Hf.
  - subst. rewrite Hf. exact Hu.
  - destruct H as (s & ss & _ & _ & ->). cbn. rewrite Hf.
    unfold weighted. cbn. eauto 10.
Qed.

(** ** Configuration errors *)

(** X1.  A call whose dictionary lacks one of the eight keys that
    [velocity_stack] reads unconditionally ([freq_arr], [int_arr],
    [freq_sim], [int_sim], [dV], [vlsr], [vel_width], [selection]) does
    not return: it raises. *)
Theorem missing_required_key_raises params name k :
  k ∈ required_keys -> params !! k = None ->
  exists e, velocity_stack params name = Raise e.
Proof.
  intros Hk Hnone.
  destruct (velocity_stack params name) as [out|e] eqn:H; [exfalso|eauto].
  apply velocity_stack_stages in H
    as (L & pf & pk & made & chunks0 & grid & m & HL & Hsel & _).
  apply unpack_Ok_required in HL as (H1 & H2 & H3 & H4 & H5 & H6 & H7).
  assert (H8 : is_Some (params !! "selection")).
  { unfold select in Hsel. inv_bind Hsel as v Hv.
    apply getitem_Ok in Hv. eauto. }
  destruct H8 as [v H8].
  unfold required_keys in Hk.
  repeat (apply elem_of_cons in Hk as [->|Hk]; [congruence|]).
  inversion Hk.
Qed.

(** X2.  When the dictionary unpacks but [selection] is neither
    ['peaks'] nor ['lines'], neither branch binds [peak_freqs], and the
    call raises [NameError] at the next statement, which reads it. *)
Theorem unknown_selection_raises_NameError params name L v :
  unpack _get_res params = Ok L ->
  params !! "selection" = Some v ->
  v <> VStr "peaks" -> v <> VStr "lines" ->
  velocity_stack params name = Raise NameError.
Proof.
  intros HL Hv Hp Hl. unfold velocity_stack, prepare. rewrite HL, ret_bind.
  unfold select, getitem. rewrite Hv. cbn [of_option]. rewrite ret_bind.
  rewrite !bool_decide_eq_false_2 by assumption. reflexivity.
Qed.

(** X3.  With [selection = 'lines'] and no [dV_ext] entry, [dV_ext] is
    [None] and the window half-width [dV*dV_ext*...] raises [TypeError]. *)
Theorem lines_without_dV_ext_raises_TypeError params name L :
  unpack _get_res params = Ok L ->
  params !! "selection" = Some (VStr "lines") ->
  params !! "dV_ext" = None ->
  velocity_stack params name = Raise TypeError.
Proof.
  intros HL Hv Hd.
  pose proof HL as Hopt. apply unpack_Ok_optional in Hopt as (Hext & _).
  unfold velocity_stack, prepare. rewrite HL, ret_bind.
  unfold select, getitem. rewrite Hv. cbn [of_option]. rewrite ret_bind.
  rewrite bool_decide_eq_false_2 by discriminate.
  rewrite bool_decide_eq_true_2 by reflexivity.
  unfold select_lines. rewrite (Hext Hd). reflexivity.
Qed.

(** ** The shape of the result *)

Lemma length_trim_edges {A} (l : list A) : length (trim_edges l) = length l - 10.
Proof. unfold trim_edges. rewrite length_take, length_drop. lia. Qed.

Lemma gather_composite_lengths grid chunks I C :
  Forall (resampled grid) chunks ->
  gather chunks = Ok I -> composite grid I = Ok C ->
  length (rms_arr C) = length grid /\ length (int_avg C) = length grid
  /\ length (int_sim_avg C) = length grid.
Proof.
  intros HF HI HC.
  destruct (composite_Ok grid chunks HF) as (I' & C' & HI' & HC' & Hr & Ha & Hs).
  assert (I' = I) as -> by congruence. assert (C' = C) as -> by congruence.
  rewrite Hr, Ha, Hs, !length_fmap, length_seq. auto.
Qed.

(** X4.  Whenever the call returns, the spectrum carries the given
    name, its velocity axis is the resampling grid without its five first
    and five last points, and [snr] and [int_sim] have that same length. *)
Theorem spectrum_axes_have_one_length params name out :
  velocity_stack params name = Ok out ->
  exists L grid,
    unpack _get_res params = Ok L /\
    np_arange (fneg (Locals.vel_width L)) (Locals.vel_width L)
      (Locals.v_res L) = Ok grid /\
    Spectrum.name (stacked_spectrum out) = name /\
    Spectrum.velocity (stacked_spectrum out) = trim_edges grid /\
    length (Spectrum.velocity (stacked_spectrum out)) = length grid - 10 /\
    length (Spectrum.snr (stacked_spectrum out)) = length grid - 10 /\
    length (Spectrum.int_sim (stacked_spectrum out)) = length grid - 10.
Proof.
  intros H. apply velocity_stack_stages in H
    as (L & pf & pk & made & chunks0 & grid & m & HL & _ & _ & _ & _ & Hg & _
        & Hres & I & C & HI & HC & ->).
  destruct (gather_composite_lengths _ _ _ _ Hres HI HC) as (_ & Ha & Hs).
  exists L, grid. split; [exact HL|]. split; [exact Hg|].
  unfold finish. cbn [Spectrum.name Spectrum.velocity Spectrum.snr Spectrum.int_sim].
  rewrite !length_fmap, !length_trim_edges, Ha, Hs. auto.
Qed.

(** ** The chunk list *)

Lemma make_chunks_ids L pf pk made :
  make_chunks L pf pk = Ok made -> length pf = length pk ->
  id <$> made = seq 0 (length pk).
Proof.
  unfold make_chunks. intros H Hlen.
  erewrite (forM_fmap_eq _ id (fun t => t.2.2.2.2.2)); [|clear H|exact H].
  2:{ intros (x & y & a & b & p & c) obs Hinit.
      apply ObsChunk_init_fields in Hinit. simpl. tauto. }
  set (fw := _ <$> pf).
  assert (Hfw : length fw = length pf) by apply length_fmap.
  transitivity (snd <$> (snd <$> (snd <$> (snd <$> (snd <$>
    zip (zip_with (fun x y => find_nearest (Locals.freq_arr L) (fsub x y)) pf fw)
     (zip (zip_with (fun x y => find_nearest (Locals.freq_arr L) (fadd x y)) pf fw)
      (zip (zip_with (fun x y => find_nearest (Locals.freq_sim L) (fsub x y)) pf fw)
       (zip (zip_with (fun x y => find_nearest (Locals.freq_sim L) (fadd x y)) pf fw)
        (zip pk (seq 0 (length
          (zip_with (fun x y => find_nearest (Locals.freq_sim L) (fadd x y))
             pf fw)))))))))))).
  { rewrite <- !list_fmap_compose. reflexivity. }
  rewrite !snd_zip;
    rewrite ?length_zip_with, ?length_seq, ?length_zip_with; try lia.
  f_equal. lia.
Qed.

Lemma made_to_output L M out made chunks0 grid m chunks :
  flag_loop L (Mem (Locals.int_arr L) (Locals.int_sim L),
               [PrintValue (Locals.vlsr L)]) made = Ok (M, out, chunks0) ->
  Forall2 (fun obs obs' =>
             resample_chunk grid (weight_chunk M m obs) = Ok obs')
    chunks0 chunks ->
  Forall2 same_window made chunks.
Proof.
  intros Hloop HF. apply flag_loop_frame in Hloop as [_ HR].
  eapply Forall2_compose; [|exact HR|exact HF].
  intros a b c Hab Hbc. apply reflagged_same_window in Hab.
  apply weigh_resample_same_window in Hbc as [Hbc _].
  eapply same_window_trans; eassumption.
Qed.

(** X5.  Whenever the call returns, [obs_chunks] holds one chunk per
    selected candidate, flagged ones included, in selection order: the
    chunks' [peak_int]s are the selected intensities and their [id]s
    count up from 0. *)
Theorem one_chunk_per_candidate params name out :
  velocity_stack params name = Ok out ->
  exists L peak_freqs peak_ints,
    unpack _get_res params = Ok L /\
    select params L = Ok (peak_freqs, peak_ints) /\
    length peak_freqs = length peak_ints /\
    peak_int <$> obs_chunks out = peak_ints /\
    id <$> obs_chunks out = seq 0 (length peak_ints).
Proof.
  intros H. apply velocity_stack_stages in H
    as (L & pf & pk & made & chunks0 & grid & m & HL & Hsel & Hmade & Hloop & _
        & _ & HF & _).
  pose proof Hsel as Hlen. apply select_lengths in Hlen.
  pose proof (made_to_output _ _ _ _ _ _ _ _ Hloop HF) as HW.
  exists L, pf, pk. split; [exact HL|]. split; [exact Hsel|].
  split; [exact Hlen|]. split.
  - pose proof Hmade as Hp. eapply make_chunks_peak_ints in Hp; [|exact Hlen].
    rewrite <- Hp. symmetry. apply Forall2_fmap_eq.
    eapply Forall2_impl; [exact HW|]. unfold same_window. intuition congruence.
  - pose proof Hmade as Hi. eapply make_chunks_ids in Hi; [|exact Hlen].
    rewrite <- Hi. symmetry. apply Forall2_fmap_eq.
    eapply Forall2_impl; [exact HW|]. unfold same_window. intuition congruence.
Qed.

(** ** The windows of the chunks *)

Lemma ObsChunk_init_centred M fo io fs isim p c obs :
  ObsChunk_init M fo io fs isim p c = Ok obs ->
  centred ckm obs /\ unweighted obs.
Proof.
  unfold ObsChunk_init, set_cfreq. cbn. intros H. inv_all. simplify_eq.
  unfold centred, unweighted. cbn. auto 10.
Qed.

Lemma same_window_centred obs obs' :
  same_window obs obs' -> centred ckm obs -> centred ckm obs'.
Proof.
  unfold same_window, centred.
  intros (-> & _ & -> & _ & _ & _ & -> & -> & ->) H. exact H.
Qed.

Lemma same_window_window_of L pf obs obs' :
  same_window obs obs' ->
  window_of ckm find_nearest L pf obs -> window_of ckm find_nearest L pf obs'.
Proof.
  unfold same_window, window_of.
  intros (-> & -> & -> & -> & _) H. exact H.
Qed.

Lemma make_chunks_windows L pf pk made :
  make_chunks L pf pk = Ok made ->
  forall i obs, made !! i = Some obs ->
    exists f, pf !! i = Some f /\ window_of ckm find_nearest L f obs.
Proof.
  unfold make_chunks. intros H i obs Hi. apply forM_Forall2 in H.
  destruct (Forall2_lookup_r _ _ _ _ _ H Hi) as (t & Ht & Hinit).
  destruct t as (x & y & a & b & p & c).
  apply ObsChunk_init_fields in Hinit as (Hfo & Hio & Hfs & His & _).
  apply lookup_zip_with_Some in Ht as (x' & t1 & [= <- <-] & Hx & Ht).
  apply lookup_zip_with_Some in Ht as (y' & t2 & [= <- <-] & Hy & Ht).
  apply lookup_zip_with_Some in Ht as (a' & t3 & [= <- <-] & Ha & Ht).
  apply lookup_zip_with_Some in Ht as (b' & t4 & [= <- <-] & Hb & _).
  apply lookup_zip_with_Some in Hx as (f & w & -> & Hf & Hw).
  apply lookup_zip_with_Some in Hy as (f1 & w1 & -> & Hf1 & Hw1).
  apply lookup_zip_with_Some in Ha as (f2 & w2 & -> & Hf2 & Hw2).
  apply lookup_zip_with_Some in Hb as (f3 & w3 & -> & Hf3 & Hw3).
  rewrite list_lookup_fmap, Hf in Hw, Hw1, Hw2, Hw3.
  cbn in Hw, Hw1, Hw2, Hw3. simplify_eq.
  exists f. split; [exact Hf|]. unfold window_of. cbn. auto.
Qed.

Lemma make_chunks_centred L pf pk made :
  make_chunks L pf pk = Ok made ->
  Forall (fun obs => centred ckm obs /\ unweighted obs) made.
Proof.
  unfold make_chunks. apply forM_Forall.
  intros (x & y & a & b & p & c) obs Hinit.
  apply ObsChunk_init_centred in Hinit. exact Hinit.
Qed.

(** X6.  Whenever the call returns, chunk number [i] is the window of
    candidate number [i]: its observed frequencies and intensities are
    the same index range of [freq_arr] and [int_arr], between the samples
    nearest [pf - vel_width*pf/ckm] and [pf + vel_width*pf/ckm], and its
    simulated ones the like range of [freq_sim] and [int_sim]. *)
Theorem chunk_is_window_of_its_candidate params name out L peak_freqs peak_ints :
  velocity_stack params name = Ok out ->
  unpack _get_res params = Ok L ->
  select params L = Ok (peak_freqs, peak_ints) ->
  forall i obs, obs_chunks out !! i = Some obs ->
    exists pf, peak_freqs !! i = Some pf
               /\ window_of ckm find_nearest L pf obs.
Proof.
  intros H HL Hsel i obs Hi. apply velocity_stack_stages in H
    as (L' & pf & pk & made & chunks0 & grid & m & HL' & Hsel' & Hmade & Hloop
        & _ & _ & HF & _).
  assert (L' = L) as -> by congruence.
  assert (pf = peak_freqs) as -> by congruence.
  pose proof (made_to_output _ _ _ _ _ _ _ _ Hloop HF) as HW.
  destruct (Forall2_lookup_r _ _ _ _ _ HW Hi) as (obs0 & H0 & Hsame).
  destruct (make_chunks_windows _ _ _ _ Hmade _ _ H0) as (f & Hf & Hwin).
  exists f. split; [exact Hf|].
  eapply same_window_window_of; eassumption.
Qed.

(** X7.  Whenever the call returns, every chunk's centre frequency is
    sample [int(round(len/2))] of its observed window (which is thus not
    empty), and both of its velocity axes are the shifts
    [(f - cfreq)*ckm/cfreq] of its frequencies: flagging, weighting and
    resampling leave them as the constructor set them. *)
Theorem chunks_are_centred params name out :
  velocity_stack params name = Ok out ->
  Forall (centred ckm) (obs_chunks out).
Proof.
  intros H. apply velocity_stack_stages in H
    as (L & pf & pk & made & chunks0 & grid & m & _ & _ & Hmade & Hloop
        & _ & _ & HF & _).
  pose proof (made_to_output _ _ _ _ _ _ _ _ Hloop HF) as HW.
  apply make_chunks_centred in Hmade.
  eapply Forall2_Forall_left; [|exact HW|exact Hmade].
  intros a b Hab [Hc _]. eapply same_window_centred; eassumption.
Qed.

Lemma doppler_centre (k c : Qc) :
  c <> 0%Qc -> doppler (Fin k) (Fin c) (Fin c) = fzero.
Proof.
  intros Hc. unfold doppler, fsub, fzero. cbn.
  rewrite bool_decide_eq_false_2 by exact Hc. f_equal.
  rewrite Qcplus_opp_r, Qcmult_0_l. unfold Qcdiv. rewrite Qcmult_0_l.
  apply Qcplus_0_l.
Qed.

(** X8.  When the speed of light and a chunk's centre frequency are
    finite and the centre frequency is not zero, the chunk's velocity
    axis reads exactly 0 at its centre sample. *)
Theorem centre_sample_has_zero_velocity params name out obs (k c : Qc) :
  velocity_stack params name = Ok out ->
  obs ∈ obs_chunks out ->
  ckm = Fin k -> cfreq obs = Fin c -> c <> 0%Qc ->
  velocity obs !! round_half (length (freq_obs obs)) = Some fzero.
Proof.
  intros H Hin Hk Hc Hne. apply velocity_stack_stages in H
    as (L & pf & pk & made & chunks0 & grid & m & _ & _ & Hmade & Hloop
        & _ & _ & HF & _).
  pose proof (made_to_output _ _ _ _ _ _ _ _ Hloop HF) as HW.
  apply make_chunks_centred in Hmade.
  assert (HC : Forall (centred ckm) (obs_chunks out)).
  { eapply Forall2_Forall_left; [|exact HW|exact Hmade].
    intros a b Hab [Hcen _]. eapply same_window_centred; eassumption. }
  rewrite Forall_forall in HC. destruct (HC obs Hin) as (Hmid & Hv & _).
  rewrite Hv, list_lookup_fmap, Hmid. cbn. rewrite Hk, Hc.
  f_equal. apply doppler_centre, Hne.
Qed.

(** ** The flagging loop *)

Lemma with_flag_same obs : with_flag obs (flag obs) = obs.
Proof. destruct obs; reflexivity. Qed.

Lemma flag_chunk_without_blanking L M out obs M' out' obs' :
  Locals.blank_lines L = false ->
  flag_chunk L (M, out) obs = Ok (M', out', obs') ->
  M' = M /\ out' = out /\ (exists b, obs' = with_flag obs b)
  /\ (flag obs = false -> freq_obs obs <> [] ->
      (flag obs' = true <->
       Z.of_nat (id obs) ∈ Locals.drops L \/ interloper L M obs)).
Proof.
  unfold flag_chunk, interloper. intros Hb H. rewrite Hb in H.
  destruct (flag obs) eqn:Hf.
  { simplify_eq. split; [reflexivity|]. split; [reflexivity|].
    split; [|discriminate]. exists true. rewrite <- Hf. symmetry.
    apply with_flag_same. }
  case_bool_decide as Hlen.
  { simplify_eq. split; [reflexivity|]. split; [reflexivity|].
    split; [eauto|]. intros _ Hne. exfalso. apply Hne.
    apply length_zero_iff_nil, Hlen. }
  case_bool_decide as Hd.
  { simplify_eq. split; [reflexivity|]. split; [reflexivity|].
    split; [eauto|]. intros _ _. cbn. tauto. }
  rewrite ret_bind in H. destruct (Locals.flag_lines L) eqn:Hfl.
  - inv_bind H as m Hm.
    destruct (fgtb m _) eqn:Hgt; simplify_eq;
      (split; [reflexivity|]; split; [reflexivity|]).
    + split; [eauto|]. intros _ _. cbn. split; [|reflexivity].
      intros _. right. split; [reflexivity|]. eauto.
    + split. { exists false. rewrite <- Hf. symmetry. apply with_flag_same. }
      intros _ _. rewrite Hf. split; [discriminate|].
      intros [Hin|(_ & m' & Hm' & Hgt')]; [contradiction|].
      rewrite Hm in Hm'. simplify_eq. congruence.
  - simplify_eq. split; [reflexivity|]. split; [reflexivity|].
    split. { exists false. rewrite <- Hf. symmetry. apply with_flag_same. }
    intros _ _. rewrite Hf. split; [discriminate|].
    intros [Hin|(Hx & _)]; [contradiction|discriminate].
Qed.

Lemma flag_loop_without_blanking L chunks : forall M out M' out' chunks',
  Locals.blank_lines L = false ->
  flag_loop L (M, out) chunks = Ok (M', out', chunks') ->
  M' = M /\ out' = out
  /\ Forall2 (fun obs obs' =>
       (exists b, obs' = with_flag obs b)
       /\ (flag obs = false -> freq_obs obs <> [] ->
           (flag obs' = true <->
            Z.of_nat (id obs) ∈ Locals.drops L \/ interloper L M obs)))
       chunks chunks'.
Proof.
  induction chunks as [|obs rest IH]; intros M out M' out' chunks' Hb H;
    simpl in H.
  - simplify_eq. auto.
  - inv_bind H as [[M1 out1] obs1] Hc.
    inv_bind H as [[M2 out2] rest'] Hl. simplify_eq.
    apply flag_chunk_without_blanking in Hc as (-> & -> & Hc); [|exact Hb].
    apply IH in Hl as (-> & -> & HF); [|exact Hb].
    split; [reflexivity|]. split; [reflexivity|]. constructor; assumption.
Qed.

(** X9.  When [blank_lines] is not [True], the call changes neither
    [int_arr] nor [int_sim], prints the [vlsr] and nothing else, and every
    chunk keeps the noise estimate of its window of the observed
    intensities. *)
Theorem without_blanking_arrays_are_untouched params name out L :
  velocity_stack params name = Ok out ->
  unpack _get_res params = Ok L ->
  Locals.blank_lines L = false ->
  final_mem out = Mem (Locals.int_arr L) (Locals.int_sim L)
  /\ stdout out = [PrintValue (Locals.vlsr L)]
  /\ Forall (fun obs => rms obs = get_rms (obs_ints (final_mem out) obs))
       (obs_chunks out).
Proof.
  intros H HL Hb. apply velocity_stack_stages in H
    as (L' & pf & pk & made & chunks0 & grid & m & HL' & _ & Hmade & Hloop
        & _ & _ & HF & _).
  assert (L' = L) as -> by congruence.
  apply flag_loop_without_blanking in Hloop as (HM & Hout & HR); [|exact Hb].
  split; [exact HM|]. split; [exact Hout|]. rewrite HM.
  assert (Hrms : Forall (fun obs =>
            rms obs = get_rms (deref (Locals.int_arr L) (int_obs obs))) made).
  { revert Hmade. unfold make_chunks. apply forM_Forall.
    intros (x & y & a & b & p & c) obs Hinit.
    apply ObsChunk_init_fields in Hinit
      as (_ & -> & _ & _ & _ & _ & _ & Hr & _). exact Hr. }
  assert (Hrms0 : Forall (fun obs =>
            rms obs = get_rms (deref (Locals.int_arr L) (int_obs obs)))
            chunks0).
  { eapply Forall2_Forall_left; [|exact HR|exact Hrms].
    intros a b [(f & ->) _] Ha. exact Ha. }
  eapply Forall2_Forall_left; [|exact HF|exact Hrms0].
  intros a b Hab Ha. apply weigh_resample_same_window in Hab
    as ((_ & Hio & _) & _ & Hr).
  unfold obs_ints. cbn [m_int_arr]. rewrite Hr, Hio. exact Ha.
Qed.

(** X10.  When [blank_lines] is not [True], a returned chunk is flagged
    exactly when its [id] is in [drops], or [flag_lines] is [True] and the
    largest sample of its observed window exceeds [flag_sigma] times its
    noise estimate. *)
Theorem flags_without_blanking params name out L :
  velocity_stack params name = Ok out ->
  unpack _get_res params = Ok L ->
  Locals.blank_lines L = false ->
  Forall (fun obs =>
            flag obs = true <->
            Z.of_nat (id obs) ∈ Locals.drops L
            \/ interloper L (final_mem out) obs)
    (obs_chunks out).
Proof.
  intros H HL Hb. apply velocity_stack_stages in H
    as (L' & pf & pk & made & chunks0 & grid & m & HL' & _ & Hmade & Hloop
        & _ & _ & HF & _).
  assert (L' = L) as -> by congruence.
  apply flag_loop_without_blanking in Hloop as (HM & _ & HR); [|exact Hb].
  rewrite HM in *.
  assert (Hnew : Forall (fun obs => flag obs = false /\ freq_obs obs <> [])
                   made).
  { revert Hmade. unfold make_chunks. apply forM_Forall.
    intros (x & y & a & b & p & c) obs Hinit.
    apply ObsChunk_init_fields in Hinit
      as (-> & _ & _ & _ & _ & _ & Hf & _ & _ & _ & Hne). auto. }
  assert (H0 : Forall (fun obs =>
            flag obs = true <->
            Z.of_nat (id obs) ∈ Locals.drops L
            \/ interloper L (Mem (Locals.int_arr L) (Locals.int_sim L)) obs)
            chunks0).
  { eapply Forall2_Forall_left; [|exact HR|exact Hnew].
    intros a b [(f & ->) Hiff] [Hf Hne]. exact (Hiff Hf Hne). }
  eapply Forall2_Forall_left; [|exact HF|exact H0].
  intros a b Hab Ha. apply weigh_resample_same_window in Hab
    as ((_ & Hio & _ & _ & _ & Hid & _) & Hf & Hr).
  unfold interloper, obs_ints in *. rewrite Hf, Hid, Hio, Hr. exact Ha.
Qed.

Lemma flag_loop_drops L chunks : forall M out M' out' chunks',
  flag_loop L (M, out) chunks = Ok (M', out', chunks') ->
  Forall2 (fun obs obs' =>
             Z.of_nat (id obs) ∈ Locals.drops L -> flag obs' = true)
    chunks chunks'.
Proof.
  induction chunks as [|obs rest IH]; intros M out M' out' chunks' H;
    simpl in H.
  - simplify_eq. constructor.
  - inv_bind H as [[M1 out1] obs1] Hc.
    inv_bind H as [[M2 out2] rest'] Hl. simplify_eq.
    constructor; [|eapply IH; exact Hl].
    intros Hin. eapply flag_chunk_drops; eassumption.
Qed.

(** X11.  Whenever the call returns, every chunk whose [id] is listed in
    [drops] comes back flagged, whatever the other options are. *)
Theorem dropped_chunks_are_flagged params name out L :
  velocity_stack params name = Ok out ->
  unpack _get_res params = Ok L ->
  Forall (fun obs => Z.of_nat (id obs) ∈ Locals.drops L -> flag obs = true)
    (obs_chunks out).
Proof.
  intros H HL. apply velocity_stack_stages in H
    as (L' & pf & pk & made & chunks0 & grid & m & HL' & _ & Hmade & Hloop
        & _ & _ & HF & _).
  assert (L' = L) as -> by congruence.
  pose proof Hloop as HD. apply flag_loop_drops in HD.
  apply flag_loop_frame in Hloop as [_ HR].
  assert (H0 : Forall2 (fun obs obs' =>
            Z.of_nat (id obs') ∈ Locals.drops L -> flag obs' = true)
            made chunks0).
  { clear -HD HR. induction HD as [|a b la lb Hab _ IH]; [constructor|].
    inversion HR as [|? ? ? ? (f & r & ->) HR']; subst.
    constructor; [exact Hab|apply IH, HR']. }
  apply Forall_forall. intros obs Hin.
  apply list_elem_of_lookup in Hin as [i Hi].
  destruct (Forall2_lookup_r _ _ _ _ _ HF Hi) as (obs0 & Hi0 & Hwr).
  destruct (Forall2_lookup_r _ _ _ _ _ H0 Hi0) as (_ & _ & Hdrop).
  apply weigh_resample_same_window in Hwr
    as ((_ & _ & _ & _ & _ & Hid & _) & Hf & _).
  rewrite Hf, Hid. exact Hdrop.
Qed.

(** X12.  Whenever the call returns, [flag] tells which fields of a chunk
    are set: a flagged chunk has no [weight], [int_weighted],
    [int_sim_weighted], [int_samp] or [int_sim_samp]; a chunk that is not
    flagged has all five. *)
Theorem flag_decides_which_fields_are_set params name out :
  velocity_stack params name = Ok out ->
  Forall (fun obs => if flag obs then unweighted obs else weighted obs)
    (obs_chunks out).
Proof.
  intros H. apply velocity_stack_stages in H
    as (L & pf & pk & made & chunks0 & grid & m & _ & _ & Hmade & Hloop
        & _ & _ & HF & _).
  apply make_chunks_centred in Hmade.
  apply flag_loop_frame in Hloop as [_ HR].
  assert (H0 : Forall unweighted chunks0).
  { eapply Forall2_Forall_left; [|exact HR|exact Hmade].
    intros a b Hab [_ Hu]. eapply reflagged_unweighted; eassumption. }
  eapply Forall2_Forall_left; [|exact HF|exact H0].
  intros a b Hab Hu. exact (weigh_resample_weighted _ _ _ _ _ Hab Hu).
Qed.

(** ** What blanking writes *)

Lemma only_blanked_refl l : only_blanked l l.
Proof. split; [reflexivity|]. auto. Qed.

Lemma deref_lookup buf v j x :
  deref buf v !! j = Some x -> j < v_len v /\ buf !! (v_off v + j) = Some x.
Proof.
  unfold deref. intros H. apply lookup_take_Some in H as [H Hj].
  rewrite lookup_drop in H. auto.
Qed.

(** Writing, through a window, values that are NaN or a sample of [src]
    at the place they are written to. *)
Lemma only_blanked_store orig src cur v vals :
  only_blanked orig cur -> only_blanked orig src ->
  (forall j x, vals !! j = Some x ->
     x = NaN \/ src !! (v_off v + j) = Some x) ->
  only_blanked orig (store cur v vals).
Proof.
  intros [Hlen Hcur] [_ Hsrc] Hvals. split.
  - rewrite length_store. exact Hlen.
  - intros i x Hi. unfold store in Hi.
    apply list_lookup_inserts_Some in Hi as [[_ Hi]|(Hr & _ & Hi)].
    + eauto.
    + apply lookup_take_Some in Hi as [Hi _].
      destruct (Hvals _ _ Hi) as [->|Hs]; [auto|].
      replace (v_off v + (i - v_off v)) with i in Hs by lia. eauto.
Qed.

Lemma only_blanked_store_slice orig src cur v x y :
  only_blanked orig cur -> only_blanked orig src ->
  only_blanked orig
    (store_slice cur v x y (py_slice (deref src v) x y)).
Proof.
  intros Hcur Hsrc. unfold store_slice.
  apply (only_blanked_store orig src); [exact Hcur|exact Hsrc|].
  intros j a Hj. right. unfold py_slice in Hj.
  apply lookup_take_Some in Hj as [Hj _]. rewrite lookup_drop in Hj.
  apply deref_lookup in Hj as [Hlt Hj]. cbn [v_off].
  replace (v_off v + x `min` v_len v + j) with (v_off v + (x + j)) by lia.
  exact Hj.
Qed.

Lemma only_blanked_blank_slices orig v (l : list (nat * nat)) : forall cur,
  only_blanked orig cur ->
  only_blanked orig (fold_left (fun S '(x, y) => blank_slice S v x y) l cur).
Proof.
  induction l as [|[x y] l IH]; intros cur Hcur; simpl; [exact Hcur|].
  apply IH. unfold blank_slice, store_slice.
  apply (only_blanked_store orig orig); [exact Hcur|apply only_blanked_refl|].
  intros j a Hj. apply lookup_replicate in Hj as [-> _]. auto.
Qed.

Lemma blank_chunk_only_blanked oi os L M obs M' line obs' :
  only_blanked oi (m_int_arr M) -> only_blanked os (m_int_sim M) ->
  blank_chunk L M obs = Ok (M', line, obs') ->
  only_blanked oi (m_int_arr M') /\ only_blanked os (m_int_sim M').
Proof.
  unfold blank_chunk. intros Hi Hs H. inv_bind H as R HR.
  destruct (_find_nans _) as [lls uls].
  inv_bind H as vl Hvl. inv_bind H as vu Hvu. simplify_eq.
  cbn [m_int_arr m_int_sim]. split.
  - apply only_blanked_store_slice; [|exact Hi].
    apply (only_blanked_store oi (m_int_arr M)); [exact Hi|exact Hi|].
    intros j x Hj. rewrite list_lookup_fmap in Hj.
    destruct (obs_ints M obs !! j) as [x0|] eqn:E; [|discriminate].
    cbn in Hj. injection Hj as <-.
    destruct (fgtb (fabs x0) _); [auto|]. right.
    apply deref_lookup in E as [_ E]. exact E.
  - apply only_blanked_store_slice; [|exact Hs].
    apply only_blanked_blank_slices. exact Hs.
Qed.

Lemma flag_chunk_only_blanked oi os L M out obs M' out' obs' :
  only_blanked oi (m_int_arr M) -> only_blanked os (m_int_sim M) ->
  flag_chunk L (M, out) obs = Ok (M', out', obs') ->
  only_blanked oi (m_int_arr M') /\ only_blanked os (m_int_sim M').
Proof.
  unfold flag_chunk. intros Hi Hs H.
  destruct (flag obs); [simplify_eq; auto|].
  repeat case_bool_decide; try (simplify_eq; auto; fail).
  inv_bind H as [[M1 out1] obs1] Hb.
  assert (Hkeep : only_blanked oi (m_int_arr M1)
               /\ only_blanked os (m_int_sim M1)).
  { destruct (Locals.blank_lines L).
    - inv_bind Hb as [[M2 line] obs2] Hc. simplify_eq.
      eapply blank_chunk_only_blanked; eassumption.
    - simplify_eq. auto. }
  destruct (Locals.flag_lines L).
  - inv_bind H as m Hm. destruct (fgtb _ _); simplify_eq; exact Hkeep.
  - simplify_eq. exact Hkeep.
Qed.

Lemma flag_loop_only_blanked oi os L chunks : forall M out M' out' chunks',
  only_blanked oi (m_int_arr M) -> only_blanked os (m_int_sim M) ->
  flag_loop L (M, out) chunks = Ok (M', out', chunks') ->
  only_blanked oi (m_int_arr M') /\ only_blanked os (m_int_sim M').
Proof.
  induction chunks as [|obs rest IH]; intros M out M' out' chunks' Hi Hs H;
    simpl in H.
  - simplify_eq. auto.
  - inv_bind H as [[M1 out1] obs1] Hc.
    inv_bind H as [[M2 out2] rest'] Hl. simplify_eq.
    destruct (flag_chunk_only_blanked _ _ _ _ _ _ _ _ _ Hi Hs Hc) as [Hi1 Hs1].
    exact (IH _ _ _ _ _ Hi1 Hs1 Hl).
Qed.

(** X13.  Whenever the call returns, the arrays [int_arr] and [int_sim]
    have kept their lengths, and every sample either still has the value
    it was passed in with or has become NaN: blanking writes nothing
    else into the caller's arrays. *)
Theorem blanking_only_writes_NaN params name out L :
  velocity_stack params name = Ok out ->
  unpack _get_res params = Ok L ->
  only_blanked (Locals.int_arr L) (m_int_arr (final_mem out))
  /\ only_blanked (Locals.int_sim L) (m_int_sim (final_mem out)).
Proof.
  intros H HL. apply velocity_stack_stages in H
    as (L' & pf & pk & made & chunks0 & grid & m & HL' & _ & _ & Hloop & _).
  assert (L' = L) as -> by congruence.
  eapply flag_loop_only_blanked; [| |exact Hloop];
    cbn [m_int_arr m_int_sim]; apply only_blanked_refl.
Qed.

(** ** The velocity axis of the stack *)


(** ** What blanking prints *)

Lemma blank_chunk_line L M obs M' line obs' :
  blank_chunk L M obs = Ok (M', line, obs') ->
  exists R, safe_range L obs = Ok R /\ line = range_line R.
Proof.
  unfold blank_chunk. intros H. inv_bind H as R HR.
  destruct (_find_nans _) as [lls uls].
  inv_bind H as vl Hvl. inv_bind H as vu Hvu. simplify_eq. eauto.
Qed.

Lemma safe_range_same_window L obs obs' :
  same_window obs obs' -> safe_range L obs' = safe_range L obs.
Proof.
  intros (Hfo & _ & Hfs & _ & _ & _ & Hc & _). unfold safe_range.
  rewrite Hfo, Hfs, Hc. reflexivity.
Qed.

Lemma flag_chunk_prints L M out obs M' out' obs' :
  Locals.blank_lines L = true ->
  flag obs = false -> freq_obs obs <> [] ->
  flag_chunk L (M, out) obs = Ok (M', out', obs') ->
  if decide (Z.of_nat (id obs) ∉ Locals.drops L)
  then exists R, safe_range L obs = Ok R /\ out' = out ++ [range_line R]
  else out' = out.
Proof.
  unfold flag_chunk. intros Hb Hf Hne H. rewrite Hf, Hb in H.
  rewrite bool_decide_eq_false_2 in H.
  2:{ intros Hlen. apply Hne, length_zero_iff_nil, Hlen. }
  case_bool_decide as Hd.
  - simplify_eq. rewrite decide_False by tauto. reflexivity.
  - rewrite decide_True by exact Hd.
    inv_bind H as [[M1 out1] obs1] Hstep.
    inv_bind Hstep as [[M2 line] obs2] Hblank. simplify_eq.
    apply blank_chunk_line in Hblank as (R & HR & ->).
    exists R. split; [exact HR|].
    destruct (Locals.flag_lines L).
    + inv_bind H as m Hm. destruct (fgtb _ _); simplify_eq; reflexivity.
    + simplify_eq. reflexivity.
Qed.

Lemma flag_loop_prints L chunks : forall M out M' out' chunks',
  Locals.blank_lines L = true ->
  Forall (fun obs => flag obs = false /\ freq_obs obs <> []) chunks ->
  flag_loop L (M, out) chunks = Ok (M', out', chunks') ->
  exists Rs,
    forM (safe_range L)
      (filter (fun obs => Z.of_nat (id obs) ∉ Locals.drops L) chunks) = Ok Rs
    /\ out' = out ++ (range_line <$> Rs).
Proof.
  induction chunks as [|obs rest IH]; intros M out M' out' chunks' Hb HF H;
    simpl in H.
  - simplify_eq. exists []. split; [reflexivity|]. symmetry. apply app_nil_r.
  - inversion HF as [|? ? [Hf Hne] HF']; subst.
    inv_bind H as [[M1 out1] obs1] Hc.
    inv_bind H as [[M2 out2] rest'] Hl. simplify_eq.
    apply flag_chunk_prints in Hc; [|assumption..].
    apply IH in Hl as (Rs & HRs & ->); [|assumption..].
    rewrite filter_cons.
    destruct (decide (Z.of_nat (id obs) ∉ Locals.drops L)).
    + destruct Hc as (R & HR & ->). exists (R :: Rs). split.
      * cbn [forM]. rewrite HR, ret_bind, HRs. reflexivity.
      * rewrite fmap_cons, <- app_assoc. reflexivity.
    + subst out1. exists Rs. auto.
Qed.

Lemma forM_safe_range_same_window L l l' :
  Forall2 same_window l l' ->
  forM (safe_range L)
    (filter (fun obs => Z.of_nat (id obs) ∉ Locals.drops L) l')
  = forM (safe_range L)
      (filter (fun obs => Z.of_nat (id obs) ∉ Locals.drops L) l).
Proof.
  induction 1 as [|a b l l' Hab _ IH]; [reflexivity|].
  rewrite !filter_cons.
  assert (Hid : id b = id a) by (unfold same_window in Hab; tauto).
  rewrite Hid.
  destruct (decide (Z.of_nat (id a) ∉ Locals.drops L)); [|exact IH].
  cbn [forM]. rewrite IH, (safe_range_same_window L a b Hab). reflexivity.
Qed.

(** X15.  When [blank_lines] is [True], the call prints the [vlsr] and
    then, for every returned chunk whose [id] is not in [drops] and in
    their order, one line with the lower limit, the centre and the upper
    limit of its safe range; nothing else is printed. *)
Theorem blanking_prints_one_range_per_chunk params name out L :
  velocity_stack params name = Ok out ->
  unpack _get_res params = Ok L ->
  Locals.blank_lines L = true ->
  exists Rs,
    forM (safe_range L)
      (filter (fun obs => Z.of_nat (id obs) ∉ Locals.drops L)
         (obs_chunks out)) = Ok Rs
    /\ stdout out = PrintValue (Locals.vlsr L) :: (range_line <$> Rs).
Proof.
  intros H HL Hb. apply velocity_stack_stages in H
    as (L' & pf & pk & made & chunks0 & grid & m & HL' & _ & Hmade & Hloop
        & _ & _ & HF & _).
  assert (L' = L) as -> by congruence.
  pose proof (made_to_output _ _ _ _ _ _ _ _ Hloop HF) as HW.
  assert (Hnew : Forall (fun obs => flag obs = false /\ freq_obs obs <> [])
                   made).
  { revert Hmade. unfold make_chunks. apply forM_Forall.
    intros (x & y & a & b & p & c) obs Hinit.
    apply ObsChunk_init_fields in Hinit
      as (-> & _ & _ & _ & _ & _ & Hf & _ & _ & _ & Hne). auto. }
  apply flag_loop_prints in Hloop as (Rs & HRs & Hout); [|assumption..].
  exists Rs. split; [|exact Hout].
  rewrite (forM_safe_range_same_window L _ _ HW). exact HRs.
Qed.

End Pipeline.

(** ** Witnesses on the sample instance *)

Lemma weight_is_relative_peak_over_variance_witness :
  Sample.velocity_stack TwoLines.params "stack" = Ok TwoLines.output
  /\ exists max_int,
       pymax (peak_int <$> obs_chunks TwoLines.output) = Ok max_int /\
       forall obs, obs ∈ obs_chunks TwoLines.output -> flag obs = false ->
         exists w,
           w = fdiv (fdiv (peak_int obs) max_int) (fpow2 (rms obs)) /\
           weight obs = Some w /\
           int_weighted obs
           = Some ((fun x => fmul x w)
                     <$> obs_ints (final_mem TwoLines.output) obs) /\
           int_sim_weighted obs
           = Some ((fun x => fmul x w)
                     <$> sim_ints (final_mem TwoLines.output) obs).
Proof.
  assert (H : Sample.velocity_stack TwoLines.params "stack"
              = Ok TwoLines.output) by by_computation.
  split; [exact H|].
  exact (weight_is_relative_peak_over_variance _ _ _ _ _ _ _ _ _ H).
Defined.

Lemma resampling_never_extrapolates_witness :
  Sample.velocity_stack TwoLines.params "stack" = Ok TwoLines.output
  /\ exists L grid,
       unpack Sample._get_res TwoLines.params = Ok L /\
       np_arange (fneg (Locals.vel_width L)) (Locals.vel_width L)
         (Locals.v_res L) = Ok grid /\
       forall obs, obs ∈ obs_chunks TwoLines.output -> flag obs = false ->
         exists s ss,
           int_samp obs = Some s /\ int_sim_samp obs = Some ss /\
           length s = length grid /\ length ss = length grid /\
           forall i x, grid !! i = Some x ->
             (outside x (velocity obs) -> s !! i = Some NaN) /\
             (outside x (sim_velocity obs) -> ss !! i = Some NaN).
Proof.
  assert (H : Sample.velocity_stack TwoLines.params "stack"
              = Ok TwoLines.output) by by_computation.
  split; [exact H|].
  exact (resampling_never_extrapolates _ _ _ _ _ _ _ _ _ H).
Defined.

(** In the two-line example with the stronger line dropped, the surviving
    chunk still has weight [(1/2)/2² = 1/8]. *)
Example two_lines_drop_weights :
  flag <$> obs_chunks TwoLines.output_drop = [true; false]
  /\ peak_int <$> obs_chunks TwoLines.output_drop = [fz 2; fz 1]
  /\ weight <$> obs_chunks TwoLines.output_drop = [None; Some (fq 1 8)].
Proof. split; [|split]; by_computation. Qed.

Lemma flagged_peak_still_normalises_witness :
  Sample.velocity_stack TwoLines.params_drop "stack" = Ok TwoLines.output_drop
  /\ Exists (fun big => flag big = true /\ peak_int big = fz 2)
       (obs_chunks TwoLines.output_drop)
  /\ Forall (fun obs => at_most (Q2Qc 2) (peak_int obs))
       (obs_chunks TwoLines.output_drop)
  /\ forall obs, obs ∈ obs_chunks TwoLines.output_drop -> flag obs = false ->
       weight obs
       = Some (fdiv (fdiv (peak_int obs) (fz 2)) (fpow2 (rms obs))).
Proof.
  assert (H : Sample.velocity_stack TwoLines.params_drop "stack"
              = Ok TwoLines.output_drop) by by_computation.
  assert (Hbig : Exists (fun big => flag big = true /\ peak_int big = fz 2)
                   (obs_chunks TwoLines.output_drop)) by by_computation.
  assert (Hall : Forall (fun obs => at_most (Q2Qc 2) (peak_int obs))
                   (obs_chunks TwoLines.output_drop)) by by_computation.
  split; [exact H|]. split; [exact Hbig|]. split; [exact Hall|].
  exact (flagged_peak_still_normalises _ _ _ _ _ _ _ _ _ (Q2Qc 2) H Hbig Hall).
Defined.

(** The interloper outside the safe range is blanked, the one inside it is
    restored. *)
Example spiky_blanked :
  blank_chunk Sample.ckm Sample.get_rms Sample.find_nearest Sample._find_nans
    Spiky.L Spiky.M Spiky.obs = Ok Spiky.blanked
  /\ obs_ints Spiky.M Spiky.obs = fz <$> [100; 1; 100; 1]%Z
  /\ obs_ints Spiky.blanked.1.1 Spiky.blanked.2 = [NaN; fz 1; fz 100; fz 1]
  /\ rms Spiky.obs = fq 101 2
  /\ rms Spiky.blanked.2 = fz 34.
Proof. split; [|split; [|split; [|split]]]; by_computation. Qed.

Lemma blanking_preserves_safe_range_witness :
  views_ok Spiky.M Spiky.obs
  /\ safe_range Sample.ckm Sample.find_nearest Spiky.L Spiky.obs = Ok Spiky.R
  /\ blank_chunk Sample.ckm Sample.get_rms Sample.find_nearest
       Sample._find_nans Spiky.L Spiky.M Spiky.obs
     = Ok (Spiky.blanked.1.1, Spiky.blanked.1.2, Spiky.blanked.2)
  /\ py_slice (obs_ints Spiky.blanked.1.1 Spiky.blanked.2) 1 3
     = py_slice (obs_ints Spiky.M Spiky.obs) 1 3
  /\ py_slice (sim_ints Spiky.blanked.1.1 Spiky.blanked.2) 1 3
     = py_slice (sim_ints Spiky.M Spiky.obs) 1 3
  /\ rms Spiky.blanked.2
     = Sample.get_rms (obs_ints Spiky.blanked.1.1 Spiky.blanked.2).
Proof.
  assert (Hv : views_ok Spiky.M Spiky.obs) by (split; vm_compute; lia).
  assert (HR : safe_range Sample.ckm Sample.find_nearest Spiky.L Spiky.obs
               = Ok Spiky.R) by by_computation.
  assert (H : blank_chunk Sample.ckm Sample.get_rms Sample.find_nearest
                Sample._find_nans Spiky.L Spiky.M Spiky.obs
              = Ok (Spiky.blanked.1.1, Spiky.blanked.1.2, Spiky.blanked.2))
    by by_computation.
  split; [exact Hv|]. split; [exact HR|]. split; [exact H|].
  exact (blanking_preserves_safe_range _ _ _ _ _ _ _ _ _ _ _ Hv HR H).
Defined.

Lemma weight_monotone_witness :
  (Forall (at_most (Q2Qc 1)) ([] ++ [fz 1]) /\ fz 1 ∈ [] ++ [fz 1]
   /\ exists m m' w w',
        pymax ([] ++ fq 1 2 :: [fz 1]) = Ok m
        /\ pymax ([] ++ fz 2 :: [fz 1]) = Ok m'
        /\ weight (weight_chunk TwoLines.M m (probe (fq 1 2) (fz 1)))
           = Some (Fin w)
        /\ weight (weight_chunk TwoLines.M m' (probe (fz 2) (fz 1)))
           = Some (Fin w')
        /\ (w <= w')%Qc)
  /\ exists w w',
       weight (weight_chunk TwoLines.M (fz 1) (probe (fz 1) (fz 1)))
       = Some (Fin w)
       /\ weight (weight_chunk TwoLines.M (fz 1) (probe (fz 1) (fz 2)))
          = Some (Fin w')
       /\ (w' <= w)%Qc.
Proof.
  destruct (weight_monotone TwoLines.M) as [Hpeak Hrms].
  assert (HF : Forall (at_most (Q2Qc 1)) ([] ++ [fz 1])) by by_computation.
  assert (Hin : fz 1 ∈ [] ++ [fz 1]) by by_computation.
  split; [split; [exact HF|split; [exact Hin|]]|].
  - apply (Hpeak [] [fz 1] (Q2Qc 1) (Q2Qc (1 # 2)) (Q2Qc 2) (Q2Qc 1)
             (probe (fq 1 2) (fz 1)) (probe (fz 2) (fz 1)));
      try reflexivity; try exact HF; try exact Hin; by_computation.
  - apply (Hrms (Q2Qc 1) (Q2Qc 1) (Q2Qc 1) (Q2Qc 2)
             (probe (fz 1) (fz 1)) (probe (fz 1) (fz 2)));
      try reflexivity; by_computation.
Defined.

(** C8, as stated, fails on negative simulated intensities, all else fixed.
    With the other peak at -1, raising the first peak from -3 to -2 lowers
    the first weight from 3 to 2.  With peaks -1 and 1, raising the noise of
    the first chunk from 1 to 2 raises its weight from -1 to -1/4. *)
Lemma weight_monotone_counterexample :
  (Sample.velocity_stack (Negative.params Negative.sim_a 1) "stack"
   = Ok (Negative.run Negative.sim_a 1)
   /\ Sample.velocity_stack (Negative.params Negative.sim_b 1) "stack"
      = Ok (Negative.run Negative.sim_b 1)
   /\ peak_int <$> obs_chunks (Negative.run Negative.sim_a 1)
      = [fz (-3); fz (-1)]
   /\ peak_int <$> obs_chunks (Negative.run Negative.sim_b 1)
      = [fz (-2); fz (-1)]
   /\ rms <$> obs_chunks (Negative.run Negative.sim_a 1) = [fz 1; fz 2]
   /\ rms <$> obs_chunks (Negative.run Negative.sim_b 1) = [fz 1; fz 2]
   /\ weight <$> obs_chunks (Negative.run Negative.sim_a 1)
      = [Some (fz 3); Some (fq 1 4)]
   /\ weight <$> obs_chunks (Negative.run Negative.sim_b 1)
      = [Some (fz 2); Some (fq 1 4)])
  /\ (Sample.velocity_stack (Negative.params Negative.sim_c 1) "stack"
      = Ok (Negative.run Negative.sim_c 1)
      /\ Sample.velocity_stack (Negative.params Negative.sim_c 2) "stack"
         = Ok (Negative.run Negative.sim_c 2)
      /\ peak_int <$> obs_chunks (Negative.run Negative.sim_c 1)
         = [fz (-1); fz 1]
      /\ peak_int <$> obs_chunks (Negative.run Negative.sim_c 2)
         = [fz (-1); fz 1]
      /\ rms <$> obs_chunks (Negative.run Negative.sim_c 1) = [fz 1; fz 2]
      /\ rms <$> obs_chunks (Negative.run Negative.sim_c 2) = [fz 2; fz 2]
      /\ weight <$> obs_chunks (Negative.run Negative.sim_c 1)
         = [Some (fz (-1)); Some (fq 1 4)]
      /\ weight <$> obs_chunks (Negative.run Negative.sim_c 2)
         = [Some (fq (-1) 4); Some (fq 1 4)]).
Proof.
  split; (split; [|split; [|split; [|split; [|split; [|split; [|split]]]]]]);
    by_computation.
Qed.

(** C4 fails on the code.  The second line of [Inputs.uncovered] lies
    outside the observed axis, its observed window is empty, and the call
    raises [IndexError] while the chunks are constructed, before the flagging
    loop that was to flag the chunk. *)
Theorem empty_window_raises_IndexError :
  Sample.velocity_stack Inputs.uncovered "stack" = Raise IndexError.
Proof. by_computation. Qed.

(** C6 fails on the code.  With an exclusion list, even an empty one, and no
    ["v_res"], the call raises [KeyError] instead of stepping the grid by
    [0.1*dV]. *)
Theorem drops_without_v_res_raises_KeyError :
  Sample.velocity_stack Inputs.drops_only "stack" = Raise (KeyError "v_res").
Proof. by_computation. Qed.

(** The other face of the same line: without ["drops"], a ["v_res"] that
    is given is not used ([dV] is 10 here, the step is 1, not 2). *)
Example v_res_without_drops_is_ignored :
  Locals.v_res <$> unpack Sample._get_res Inputs.v_res_only = Ok (fz 1).
Proof. by_computation. Qed.

Lemma all_flagged_returns_nan_spectrum_witness :
  Sample.prepare Inputs.all_dropped
  = Ok (Inputs.all_dropped_prepared.1.1.1.1, Inputs.all_dropped_prepared.1.1.1.2,
        Inputs.all_dropped_prepared.1.1.2, Inputs.all_dropped_prepared.1.2,
        Inputs.all_dropped_prepared.2)
  /\ Inputs.all_dropped_prepared.2 <> []
  /\ Forall (fun obs => flag obs = true) Inputs.all_dropped_prepared.2
  /\ np_arange (fneg (Locals.vel_width Inputs.all_dropped_prepared.1.1.1.1))
       (Locals.vel_width Inputs.all_dropped_prepared.1.1.1.1)
       (Locals.v_res Inputs.all_dropped_prepared.1.1.1.1) = Ok Inputs.grid20
  /\ Sample.velocity_stack Inputs.all_dropped "stack"
     = Ok (mkStackOutput
             (Spectrum.mk "stack" (trim_edges Inputs.grid20)
                (replicate (length Inputs.grid20 - 10) NaN)
                (replicate (length Inputs.grid20 - 10) NaN))
             Inputs.all_dropped_prepared.2 Inputs.all_dropped_prepared.1.1.2
             Inputs.all_dropped_prepared.1.2).
Proof.
  assert (Hp : Sample.prepare Inputs.all_dropped
     = Ok (Inputs.all_dropped_prepared.1.1.1.1,
           Inputs.all_dropped_prepared.1.1.1.2,
           Inputs.all_dropped_prepared.1.1.2, Inputs.all_dropped_prepared.1.2,
           Inputs.all_dropped_prepared.2)) by by_computation.
  assert (Hne : Inputs.all_dropped_prepared.2 <> []) by by_computation.
  assert (HF : Forall (fun obs => flag obs = true)
                 Inputs.all_dropped_prepared.2) by by_computation.
  assert (Hg : np_arange
                 (fneg (Locals.vel_width Inputs.all_dropped_prepared.1.1.1.1))
                 (Locals.vel_width Inputs.all_dropped_prepared.1.1.1.1)
                 (Locals.v_res Inputs.all_dropped_prepared.1.1.1.1)
               = Ok Inputs.grid20) by by_computation.
  split; [exact Hp|]. split; [exact Hne|]. split; [exact HF|].
  split; [exact Hg|].
  exact (all_flagged_returns_nan_spectrum _ _ _ _ _ _ _ "stack" _ _ _ _ _ _
           Hp Hne HF Hg).
Defined.

(** C5, as stated, fails: with both chunks of the sixty-channel example
    listed in [drops], every chunk is flagged and the call returns a
    spectrum of ten NaN samples instead of raising. *)
Lemma all_flagged_counterexample :
  Sample.velocity_stack Inputs.all_dropped "stack"
  = Ok Inputs.all_dropped_output
  /\ flag <$> obs_chunks Inputs.all_dropped_output = [true; true]
  /\ Spectrum.snr (stacked_spectrum Inputs.all_dropped_output)
     = replicate 10 NaN
  /\ Spectrum.int_sim (stacked_spectrum Inputs.all_dropped_output)
     = replicate 10 NaN.
Proof. split; [|split; [|split]]; by_computation. Qed.

(** The locals of the example with interlopers, and its first window after
    the whole flagging loop. *)
Example spiky_prepare :
  unpack Sample._get_res Spiky.params = Ok Spiky.L
  /\ (fun r : Locals.t * list fl * mem * list printed * list ObsChunk =>
        obs_ints r.1.1.2 <$> r.2)
       <$> Sample.prepare Spiky.params
     = Ok [[NaN; fz 1; fz 100; fz 1]; replicate 4 (fz 2)].
Proof. split; by_computation. Qed.

(** Two values of [vlsr] on the two-line example: the printed line differs,
    what is returned does not. *)
Example two_lines_vlsr :
  stdout <$> Sample.velocity_stack
               (<["vlsr" := VFloat (fz 5)]> TwoLines.params) "stack"
  = Ok [PrintValue (VFloat (fz 5))]
  /\ stdout <$> Sample.velocity_stack TwoLines.params "stack"
     = Ok [PrintValue (VFloat (fz 0))]
  /\ returned <$> Sample.velocity_stack
                    (<["vlsr" := VFloat (fz 5)]> TwoLines.params) "stack"
     = returned <$> Sample.velocity_stack TwoLines.params "stack".
Proof. split; [|split]; by_computation. Qed.

(** Even with positive intensities the weight does not grow strictly: a
    chunk that holds the largest peak has weight [1/rms**2] whatever that
    peak is. *)
Example weight_saturates_at_the_maximum :
  peak_int <$> obs_chunks (Negative.run Negative.sim_2 1) = [fz 2; fz 1]
  /\ peak_int <$> obs_chunks (Negative.run Negative.sim_3 1) = [fz 3; fz 1]
  /\ weight <$> obs_chunks (Negative.run Negative.sim_2 1)
     = [Some (fz 1); Some (fq 1 8)]
  /\ weight <$> obs_chunks (Negative.run Negative.sim_3 1)
     = [Some (fz 1); Some (fq 1 12)].
Proof. split; [|split; [|split]]; by_computation. Qed.

(** ** Further properties on the sample instance *)

Lemma missing_required_key_raises_witness :
  "dV" ∈ required_keys /\ Calls.no_dV !! "dV" = None
  /\ exists e, Sample.velocity_stack Calls.no_dV "stack" = Raise e.
Proof.
  assert (Hk : "dV" ∈ required_keys) by by_computation.
  assert (Hn : Calls.no_dV !! "dV" = None) by by_computation.
  split; [exact Hk|]. split; [exact Hn|].
  exact (missing_required_key_raises _ _ _ _ _ _ _ "stack" _ Hk Hn).
Defined.

Lemma unknown_selection_raises_NameError_witness :
  unpack Sample._get_res Calls.other_selection = Ok TwoLines.L
  /\ Calls.other_selection !! "selection" = Some (VStr "both")
  /\ VStr "both" <> VStr "peaks" /\ VStr "both" <> VStr "lines"
  /\ Sample.velocity_stack Calls.other_selection "stack" = Raise NameError.
Proof.
  assert (HL : unpack Sample._get_res Calls.other_selection = Ok TwoLines.L)
    by by_computation.
  assert (Hv : Calls.other_selection !! "selection" = Some (VStr "both"))
    by by_computation.
  assert (Hp : VStr "both" <> VStr "peaks") by discriminate.
  assert (Hl : VStr "both" <> VStr "lines") by discriminate.
  split; [exact HL|]. split; [exact Hv|]. split; [exact Hp|].
  split; [exact Hl|].
  exact (unknown_selection_raises_NameError Sample.ckm Sample.get_rms
           Sample.find_nearest Sample._find_nans Sample.find_peaks _
           _ "stack" _ _ HL Hv Hp Hl).
Defined.

Lemma lines_without_dV_ext_raises_TypeError_witness :
  unpack Sample._get_res Calls.lines_without_dV_ext = Ok TwoLines.L
  /\ Calls.lines_without_dV_ext !! "selection" = Some (VStr "lines")
  /\ Calls.lines_without_dV_ext !! "dV_ext" = None
  /\ Sample.velocity_stack Calls.lines_without_dV_ext "stack"
     = Raise TypeError.
Proof.
  assert (HL : unpack Sample._get_res Calls.lines_without_dV_ext
               = Ok TwoLines.L) by by_computation.
  assert (Hv : Calls.lines_without_dV_ext !! "selection"
               = Some (VStr "lines")) by by_computation.
  assert (Hd : Calls.lines_without_dV_ext !! "dV_ext" = None)
    by by_computation.
  split; [exact HL|]. split; [exact Hv|]. split; [exact Hd|].
  exact (lines_without_dV_ext_raises_TypeError Sample.ckm Sample.get_rms
           Sample.find_nearest Sample._find_nans Sample.find_peaks _
           _ "stack" _ HL Hv Hd).
Defined.

Lemma spectrum_axes_have_one_length_witness :
  Sample.velocity_stack Sample.base_params "stack" = Ok Calls.sixty
  /\ exists L grid,
       unpack Sample._get_res Sample.base_params = Ok L /\
       np_arange (fneg (Locals.vel_width L)) (Locals.vel_width L)
         (Locals.v_res L) = Ok grid /\
       Spectrum.name (stacked_spectrum Calls.sixty) = "stack" /\
       Spectrum.velocity (stacked_spectrum Calls.sixty) = trim_edges grid /\
       length (Spectrum.velocity (stacked_spectrum Calls.sixty))
       = length grid - 10 /\
       length (Spectrum.snr (stacked_spectrum Calls.sixty))
       = length grid - 10 /\
       length (Spectrum.int_sim (stacked_spectrum Calls.sixty))
       = length grid - 10.
Proof.
  assert (H : Sample.velocity_stack Sample.base_params "stack"
              = Ok Calls.sixty) by by_computation.
  split; [exact H|].
  exact (spectrum_axes_have_one_length _ _ _ _ _ _ _ _ _ H).
Defined.

Lemma one_chunk_per_candidate_witness :
  Sample.velocity_stack TwoLines.params_drop "stack" = Ok TwoLines.output_drop
  /\ exists L peak_freqs peak_ints,
       unpack Sample._get_res TwoLines.params_drop = Ok L /\
       select Sample.ckm Sample.find_nearest Sample.find_peaks
         TwoLines.params_drop L = Ok (peak_freqs, peak_ints) /\
       length peak_freqs = length peak_ints /\
       peak_int <$> obs_chunks TwoLines.output_drop = peak_ints /\
       id <$> obs_chunks TwoLines.output_drop = seq 0 (length peak_ints).
Proof.
  assert (H : Sample.velocity_stack TwoLines.params_drop "stack"
              = Ok TwoLines.output_drop) by by_computation.
  split; [exact H|].
  exact (one_chunk_per_candidate _ _ _ _ _ _ _ _ _ H).
Defined.

Lemma chunk_is_window_of_its_candidate_witness :
  Sample.velocity_stack TwoLines.params "stack" = Ok TwoLines.output
  /\ unpack Sample._get_res TwoLines.params = Ok TwoLines.L
  /\ select Sample.ckm Sample.find_nearest Sample.find_peaks
       TwoLines.params TwoLines.L
     = Ok (TwoLines.peak_freqs, TwoLines.peak_ints)
  /\ forall i obs, obs_chunks TwoLines.output !! i = Some obs ->
       exists pf, TwoLines.peak_freqs !! i = Some pf
                  /\ window_of Sample.ckm Sample.find_nearest TwoLines.L pf obs.
Proof.
  assert (H : Sample.velocity_stack TwoLines.params "stack"
              = Ok TwoLines.output) by by_computation.
  assert (HL : unpack Sample._get_res TwoLines.params = Ok TwoLines.L)
    by by_computation.
  assert (Hs : select Sample.ckm Sample.find_nearest Sample.find_peaks
                 TwoLines.params TwoLines.L
               = Ok (TwoLines.peak_freqs, TwoLines.peak_ints))
    by by_computation.
  split; [exact H|]. split; [exact HL|]. split; [exact Hs|].
  exact (chunk_is_window_of_its_candidate _ _ _ _ _ _ _ _ _ _ _ _ H HL Hs).
Defined.

Lemma chunks_are_centred_witness :
  Sample.velocity_stack Sample.base_params "stack" = Ok Calls.sixty
  /\ Forall (centred Sample.ckm) (obs_chunks Calls.sixty).
Proof.
  assert (H : Sample.velocity_stack Sample.base_params "stack"
              = Ok Calls.sixty) by by_computation.
  split; [exact H|].
  exact (chunks_are_centred _ _ _ _ _ _ _ _ _ H).
Defined.

Lemma centre_sample_has_zero_velocity_witness :
  Sample.velocity_stack TwoLines.params "stack" = Ok TwoLines.output
  /\ obs_chunks TwoLines.output !!! 0 ∈ obs_chunks TwoLines.output
  /\ Sample.ckm = Fin (Q2Qc (299792458 # 1000))
  /\ cfreq (obs_chunks TwoLines.output !!! 0) = Fin (Q2Qc (299792458 # 1000))
  /\ Q2Qc (299792458 # 1000) <> 0%Qc
  /\ velocity (obs_chunks TwoLines.output !!! 0)
       !! round_half (length (freq_obs (obs_chunks TwoLines.output !!! 0)))
     = Some fzero.
Proof.
  assert (H : Sample.velocity_stack TwoLines.params "stack"
              = Ok TwoLines.output) by by_computation.
  assert (Hin : obs_chunks TwoLines.output !!! 0 ∈ obs_chunks TwoLines.output)
    by by_computation.
  assert (Hk : Sample.ckm = Fin (Q2Qc (299792458 # 1000))) by reflexivity.
  assert (Hc : cfreq (obs_chunks TwoLines.output !!! 0)
               = Fin (Q2Qc (299792458 # 1000))) by by_computation.
  assert (Hne : Q2Qc (299792458 # 1000) <> 0%Qc) by by_computation.
  split; [exact H|]. split; [exact Hin|]. split; [exact Hk|].
  split; [exact Hc|]. split; [exact Hne|].
  exact (centre_sample_has_zero_velocity _ _ _ _ _ _ _ _ _ _ _ _ H Hin Hk Hc Hne).
Defined.

Lemma without_blanking_arrays_are_untouched_witness :
  Sample.velocity_stack Flagging.params "stack" = Ok Flagging.output
  /\ unpack Sample._get_res Flagging.params = Ok Flagging.L
  /\ Locals.blank_lines Flagging.L = false
  /\ final_mem Flagging.output
     = Mem (Locals.int_arr Flagging.L) (Locals.int_sim Flagging.L)
  /\ stdout Flagging.output = [PrintValue (Locals.vlsr Flagging.L)]
  /\ Forall (fun obs =>
               rms obs
               = Sample.get_rms (obs_ints (final_mem Flagging.output) obs))
       (obs_chunks Flagging.output).
Proof.
  assert (H : Sample.velocity_stack Flagging.params "stack"
              = Ok Flagging.output) by by_computation.
  assert (HL : unpack Sample._get_res Flagging.params = Ok Flagging.L)
    by by_computation.
  assert (Hb : Locals.blank_lines Flagging.L = false) by reflexivity.
  split; [exact H|]. split; [exact HL|]. split; [exact Hb|].
  exact (without_blanking_arrays_are_untouched _ _ _ _ _ _ _ _ _ _ H HL Hb).
Defined.

Lemma flags_without_blanking_witness :
  Sample.velocity_stack Flagging.params "stack" = Ok Flagging.output
  /\ unpack Sample._get_res Flagging.params = Ok Flagging.L
  /\ Locals.blank_lines Flagging.L = false
  /\ Forall (fun obs =>
               flag obs = true <->
               Z.of_nat (id obs) ∈ Locals.drops Flagging.L
               \/ interloper Flagging.L (final_mem Flagging.output) obs)
       (obs_chunks Flagging.output).
Proof.
  assert (H : Sample.velocity_stack Flagging.params "stack"
              = Ok Flagging.output) by by_computation.
  assert (HL : unpack Sample._get_res Flagging.params = Ok Flagging.L)
    by by_computation.
  assert (Hb : Locals.blank_lines Flagging.L = false) by reflexivity.
  split; [exact H|]. split; [exact HL|]. split; [exact Hb|].
  exact (flags_without_blanking _ _ _ _ _ _ _ _ _ _ H HL Hb).
Defined.

(** On the sample call the first chunk is flagged as an interloper and
    the second is kept. *)
Example flagging_flags : flag <$> obs_chunks Flagging.output = [true; false].
Proof. by_computation. Qed.

Lemma dropped_chunks_are_flagged_witness :
  Sample.velocity_stack TwoLines.params_drop "stack" = Ok TwoLines.output_drop
  /\ unpack Sample._get_res TwoLines.params_drop = Ok Flagging.L_drop
  /\ Forall (fun obs =>
               Z.of_nat (id obs) ∈ Locals.drops Flagging.L_drop ->
               flag obs = true)
       (obs_chunks TwoLines.output_drop).
Proof.
  assert (H : Sample.velocity_stack TwoLines.params_drop "stack"
              = Ok TwoLines.output_drop) by by_computation.
  assert (HL : unpack Sample._get_res TwoLines.params_drop
               = Ok Flagging.L_drop) by by_computation.
  split; [exact H|]. split; [exact HL|].
  exact (dropped_chunks_are_flagged _ _ _ _ _ _ _ _ _ _ H HL).
Defined.

Lemma flag_decides_which_fields_are_set_witness :
  Sample.velocity_stack TwoLines.params_drop "stack" = Ok TwoLines.output_drop
  /\ Forall (fun obs => if flag obs then unweighted obs else weighted obs)
       (obs_chunks TwoLines.output_drop).
Proof.
  assert (H : Sample.velocity_stack TwoLines.params_drop "stack"
              = Ok TwoLines.output_drop) by by_computation.
  split; [exact H|].
  exact (flag_decides_which_fields_are_set _ _ _ _ _ _ _ _ _ H).
Defined.

Lemma blanking_only_writes_NaN_witness :
  Sample.velocity_stack Spiky.params "stack" = Ok Flagging.blanked_output
  /\ unpack Sample._get_res Spiky.params = Ok Spiky.L
  /\ only_blanked (Locals.int_arr Spiky.L)
       (m_int_arr (final_mem Flagging.blanked_output))
  /\ only_blanked (Locals.int_sim Spiky.L)
       (m_int_sim (final_mem Flagging.blanked_output)).
Proof.
  assert (H : Sample.velocity_stack Spiky.params "stack"
              = Ok Flagging.blanked_output) by by_computation.
  assert (HL : unpack Sample._get_res Spiky.params = Ok Spiky.L)
    by by_computation.
  split; [exact H|]. split; [exact HL|].
  exact (blanking_only_writes_NaN _ _ _ _ _ _ _ _ _ _ H HL).
Defined.

(** On the sample call blanking does write: the interloper outside the
    safe range has become NaN in the caller's array. *)
Example blanking_writes :
  m_int_arr (final_mem Flagging.blanked_output) !! 1 = Some NaN
  /\ Spiky.int_arr !! 1 = Some (fz 100).
Proof. split; by_computation. Qed.


Lemma blanking_prints_one_range_per_chunk_witness :
  Sample.velocity_stack Spiky.params "stack" = Ok Flagging.blanked_output
  /\ unpack Sample._get_res Spiky.params = Ok Spiky.L
  /\ Locals.blank_lines Spiky.L = true
  /\ exists Rs,
       forM (safe_range Sample.ckm Sample.find_nearest Spiky.L)
         (filter (fun obs => Z.of_nat (id obs) ∉ Locals.drops Spiky.L)
            (obs_chunks Flagging.blanked_output)) = Ok Rs
       /\ stdout Flagging.blanked_output
          = PrintValue (Locals.vlsr Spiky.L) :: (range_line <$> Rs).
Proof.
  assert (H : Sample.velocity_stack Spiky.params "stack"
              = Ok Flagging.blanked_output) by by_computation.
  assert (HL : unpack Sample._get_res Spiky.params = Ok Spiky.L)
    by by_computation.
  assert (Hb : Locals.blank_lines Spiky.L = true) by reflexivity.
  split; [exact H|]. split; [exact HL|]. split; [exact Hb|].
  exact (blanking_prints_one_range_per_chunk _ _ _ _ _ _ _ _ _ _ H HL Hb).
Defined.

(** The sample call with blanking prints three lines: the [vlsr] and one
    range for each of its two chunks. *)
Example blanking_prints_three_lines :
  length (stdout Flagging.blanked_output) = 3.
Proof. by_computation. Qed.

(** * Properties of [sum_spectra] *)

Lemma interp_point_outside_fill (xp fp : list fl) (v x : fl) :
  xp <> [] -> outside x xp -> interp_point xp fp v v x = v.
Proof.
  intros Hne Hout.
  assert (Hhd : Forall (fun v => fltb x v = true) xp ->
                fltb x (hd NaN xp) = true).
  { intros HF. rewrite Forall_forall in HF. apply HF, hd_elem_of, Hne. }
  assert (Hlast : Forall (fun v => fltb v x = true) xp ->
                  fgtb x (List.last xp NaN) = true).
  { intros HF. rewrite Forall_forall in HF. apply HF, last_elem_of, Hne. }
  assert (Hx : isnan x = false).
  { destruct x; try reflexivity. exfalso.
    destruct Hout as [HF|HF]; [apply Hhd in HF|apply Hlast in HF].
    - discriminate.
    - unfold fgtb in HF. destruct (List.last xp NaN); discriminate. }
  unfold interp_point. destruct xp as [|xp0 [|xp1 xp]]; [congruence| |].
  - destruct Hout as [HF|HF].
    + apply Hhd in HF. simpl in HF. rewrite HF. reflexivity.
    + apply Hlast in HF. simpl in HF. rewrite HF.
      destruct (fltb x xp0); reflexivity.
  - rewrite Hx.
    destruct (fgtb x (List.last (xp0 :: xp1 :: xp) NaN)) eqn:Hgt;
      [reflexivity|].
    destruct (fltb x (hd NaN (xp0 :: xp1 :: xp))) eqn:Hlt; [reflexivity|].
    destruct Hout as [HF|HF]; [apply Hhd in HF|apply Hlast in HF]; congruence.
Qed.

Lemma np_concatenate_Ok arrays out :
  np_concatenate arrays = Ok out -> arrays <> [] /\ out = concat arrays.
Proof.
  destruct arrays; simpl; [discriminate|]. intros [= <-]. split; [|reflexivity].
  discriminate.
Qed.

Lemma fsub_diag (q : Qc) : fsub (Fin q) (Fin q) = fzero.
Proof. unfold fsub, fzero. simpl. f_equal. apply Qcplus_opp_r. Qed.

Lemma fmul_zero_l (y : fl) : fmul fzero y = fzero \/ fmul fzero y = NaN.
Proof.
  unfold fzero. destruct y; simpl; auto.
  left. f_equal. apply Qcmult_0_l.
Qed.

Lemma coadd_outside profile sims f :
  Forall (fun x => Simulation.freq_profile x <> []
                   /\ outside f (Simulation.freq_profile x)) sims ->
  coadd profile sims f = fzero.
Proof.
  unfold coadd. induction 1 as [|x sims [Hne Hout] _ IH]; [reflexivity|].
  rewrite fmap_cons. cbn [fold_left].
  rewrite interp_point_outside_fill by assumption.
  rewrite fadd_zero_r. exact IH.
Qed.

Section SumSpectraProperties.

Variable h : fl.
Variable k : fl.
Variable np_exp : fl -> fl.
Variable find_limits : list fl -> list fl * list fl.

Local Abbreviation sum_spectra := (sum_spectra h k np_exp find_limits).
Local Abbreviation J := (J h k np_exp).

(** ** The co-adding loop *)

Lemma add_resampled_Ok profile freq sims : forall acc out,
  add_resampled profile freq sims acc = Ok out ->
  length acc = length freq ->
  length out = length freq
  /\ Forall (fun x => Simulation.freq_profile x <> []) sims
  /\ forall i f a, freq !! i = Some f -> acc !! i = Some a ->
       out !! i
       = Some (fold_left fadd
                 ((fun x => interp_point (Simulation.freq_profile x)
                              (profile x) fzero fzero f) <$> sims) a).
Proof.
  unfold add_resampled.
  induction sims as [|x sims IH]; intros acc out H Hlen; simpl in H.
  - simplify_eq. split; [exact Hlen|]. split; [constructor|].
    intros i f a _ Ha. exact Ha.
  - inv_bind H as acc' Hstep. inv_bind Hstep as s Hs. simplify_eq.
    apply np_interp_Ok in Hs as (Hne & _ & ->).
    apply IH in H as (Hl & HF & Hpt).
    2:{ rewrite length_zip_with, length_fmap. lia. }
    split; [exact Hl|]. split; [constructor; assumption|].
    intros i f a Hf Ha. rewrite fmap_cons. cbn [fold_left].
    apply Hpt; [exact Hf|].
    rewrite lookup_zip_with, Ha, list_lookup_fmap, Hf. reflexivity.
Qed.

(** ** The stages of a call that returns *)

Lemma sum_spectra_stages sims thin Tex Tbg res_arg name s :
  sum_spectra sims thin Tex Tbg res_arg name = Ok s ->
  exists resolution lls uls ranges,
    match res_arg with
    | None => pymin (Simulation.res <$> sims)
    | Some r => Ok r
    end = Ok resolution
    /\ sims <> []
    /\ find_limits (np_sort (concat (Simulation.freq_profile <$> sims)))
       = (lls, uls)
    /\ forM (fun '(ll, ul) => np_arange ll ul resolution) (zip lls uls)
       = Ok ranges
    /\ ranges <> []
    /\ SumSpectrum.name s = name
    /\ SumSpectrum.freq_profile s = concat ranges
    /\ (is_True thin = true ->
        exists ip,
          add_resampled Simulation.int_profile (concat ranges) sims
            (replicate (length (concat ranges)) fzero) = Ok ip
          /\ SumSpectrum.int_profile s = Some ip)
    /\ (is_False thin = true ->
        exists tau T1 T2,
          add_resampled Simulation.tau_profile (concat ranges) sims
            (replicate (length (concat ranges)) fzero) = Ok tau
          /\ Tex = Some T1 /\ Tbg = Some T2
          /\ SumSpectrum.int_profile s
             = Some (zip_with
                       (fun j t => fmul j (fsub (fz 1) (np_exp (fneg t))))
                       (zip_with fsub (J T1 <$> concat ranges)
                          (J T2 <$> concat ranges))
                       tau))
    /\ (is_True thin = false -> is_False thin = false ->
        SumSpectrum.int_profile s = None).
Proof.
  unfold sum_spectra. intros H.
  inv_bind H as resolution Hres.
  inv_bind H as total Htot.
  apply np_concatenate_Ok in Htot as [Hsims ->].
  destruct (find_limits _) as [lls uls] eqn:Hlim.
  inv_bind H as ranges Hr.
  inv_bind H as freq_arr Hf.
  apply np_concatenate_Ok in Hf as [Hranges ->].
  inv_bind H as s0 Hs0.
  exists resolution, lls, uls, ranges.
  split; [exact Hres|]. split.
  { intros ->. apply Hsims. reflexivity. }
  split; [reflexivity|]. split; [exact Hr|]. split; [exact Hranges|].
  destruct (is_True thin) eqn:Ht.
  - assert (Hfalse : is_False thin = false).
    { destruct thin as [| |[]| |]; try reflexivity; discriminate. }
    rewrite Hfalse in H |- *. inv_bind Hs0 as ip Hip. simplify_eq. cbn.
    split; [reflexivity|]. split; [reflexivity|].
    split; [eauto|]. split; discriminate.
  - simplify_eq. destruct (is_False thin) eqn:Hfl.
    + inv_bind H as tau Htau. inv_bind H as T1 HT1. inv_bind H as T2 HT2.
      simplify_eq. cbn.
      destruct Tex as [T1'|]; [|discriminate].
      destruct Tbg as [T2'|]; [|discriminate].
      cbn in HT1, HT2. simplify_eq.
      split; [reflexivity|]. split; [reflexivity|].
      split; [discriminate|]. split; [|discriminate].
      intros _. eauto 10.
    + simplify_eq. cbn. split; [reflexivity|]. split; [reflexivity|].
      split; [discriminate|]. split; [discriminate|]. reflexivity.
Qed.

Lemma length_replicate_zero (l : list fl) :
  length (replicate (length l) fzero) = length l.
Proof. apply length_replicate. Qed.

(** ** What the call raises *)

(** X16.  With an empty list of simulations the call raises
    [ValueError], whatever the other arguments are: from [min] when no
    resolution is given, from [np.concatenate] when one is. *)
Theorem sum_of_no_spectra_raises_ValueError thin Tex Tbg res_arg name :
  sum_spectra [] thin Tex Tbg res_arg name = Raise ValueError.
Proof. unfold sum_spectra. destruct res_arg; reflexivity. Qed.

(** X17.  With [thin=False] and no excitation or no background
    temperature (both default to [None]) the call does not return: it
    raises. *)
Theorem thick_sum_needs_both_temperatures sims thin Tex Tbg res_arg name :
  is_False thin = true -> Tex = None \/ Tbg = None ->
  exists e, sum_spectra sims thin Tex Tbg res_arg name = Raise e.
Proof.
  intros Hthin HT.
  destruct (sum_spectra sims thin Tex Tbg res_arg name) as [s|e] eqn:H;
    [exfalso|eauto].
  apply sum_spectra_stages in H
    as (r & lls & uls & ranges & _ & _ & _ & _ & _ & _ & _ & _ & Hthick & _).
  destruct (Hthick Hthin) as (tau & T1 & T2 & _ & -> & -> & _).
  destruct HT; discriminate.
Qed.

(** ** The shape of the result *)

(** X18.  Whenever the call returns, the spectrum carries the given
    name; its [int_profile] is unassigned exactly when [thin] is neither
    [True] nor [False], and otherwise has one sample per sample of
    [freq_profile]. *)
Theorem int_profile_matches_freq_profile sims thin Tex Tbg res_arg name s :
  sum_spectra sims thin Tex Tbg res_arg name = Ok s ->
  SumSpectrum.name s = name
  /\ (SumSpectrum.int_profile s = None <->
      is_True thin = false /\ is_False thin = false)
  /\ forall ip, SumSpectrum.int_profile s = Some ip ->
       length ip = length (SumSpectrum.freq_profile s).
Proof.
  intros H. apply sum_spectra_stages in H
    as (r & lls & uls & ranges & _ & _ & _ & _ & _ & Hname & Hfreq & Hthin
        & Hthick & Hnone).
  split; [exact Hname|]. rewrite Hfreq.
  destruct (is_True thin) eqn:Ht; [|destruct (is_False thin) eqn:Hf].
  - destruct (Hthin eq_refl) as (ip & Hip & ->).
    apply add_resampled_Ok in Hip as (Hlen & _);
      [|apply length_replicate_zero].
    split; [split; [discriminate|intros [? _]; discriminate]|].
    intros ip' [= <-]. exact Hlen.
  - destruct (Hthick eq_refl) as (tau & T1 & T2 & Htau & _ & _ & ->).
    apply add_resampled_Ok in Htau as (Hlen & _);
      [|apply length_replicate_zero].
    split; [split; [discriminate|intros [_ ?]; discriminate]|].
    intros ip' [= <-]. rewrite !length_zip_with, !length_fmap, Hlen. lia.
  - rewrite (Hnone eq_refl eq_refl). split; [tauto|]. discriminate.
Qed.

(** X19.  The frequency axis of the sum depends on the simulations and on
    the resolution only: two calls that return and differ in [thin], in
    the temperatures or in the name give the same [freq_profile]. *)
Theorem frequency_axis_ignores_mode sims res_arg
    thin Tex Tbg name s thin' Tex' Tbg' name' s' :
  sum_spectra sims thin Tex Tbg res_arg name = Ok s ->
  sum_spectra sims thin' Tex' Tbg' res_arg name' = Ok s' ->
  SumSpectrum.freq_profile s = SumSpectrum.freq_profile s'.
Proof.
  intros H H'.
  apply sum_spectra_stages in H
    as (r & lls & uls & ranges & Hr & _ & Hl & Hrs & _ & _ & -> & _).
  apply sum_spectra_stages in H'
    as (r' & lls' & uls' & ranges' & Hr' & _ & Hl' & Hrs' & _ & _ & -> & _).
  assert (r' = r) as -> by congruence.
  assert (lls' = lls) as -> by congruence.
  assert (uls' = uls) as -> by congruence.
  congruence.
Qed.

(** ** The optically thin sum *)

(** X20.  With [thin=True], sample [i] of the returned [int_profile] is
    the sum, over the simulations in their order, of their intensity
    profiles linearly interpolated at [freq_profile[i]], each counted as 0
    outside its own frequency range. *)
Theorem thin_sum_is_pointwise_coadd sims thin Tex Tbg res_arg name s :
  sum_spectra sims thin Tex Tbg res_arg name = Ok s ->
  is_True thin = true ->
  exists ip,
    SumSpectrum.int_profile s = Some ip
    /\ forall i f, SumSpectrum.freq_profile s !! i = Some f ->
         ip !! i = Some (coadd Simulation.int_profile sims f).
Proof.
  intros H Ht. apply sum_spectra_stages in H
    as (r & lls & uls & ranges & _ & _ & _ & _ & _ & _ & -> & Hthin & _).
  destruct (Hthin Ht) as (ip & Hip & ->).
  apply add_resampled_Ok in Hip as (_ & _ & Hpt);
    [|apply length_replicate_zero].
  exists ip. split; [reflexivity|].
  intros i f Hf. apply Hpt; [exact Hf|].
  apply lookup_replicate_2. eapply lookup_lt_Some, Hf.
Qed.

(** X21.  With [thin=True], a point of the frequency axis that lies
    below or above all the samples of every simulation gets the intensity
    exactly 0, not NaN. *)
Theorem thin_sum_is_zero_outside_coverage sims thin Tex Tbg res_arg name s i f :
  sum_spectra sims thin Tex Tbg res_arg name = Ok s ->
  is_True thin = true ->
  SumSpectrum.freq_profile s !! i = Some f ->
  Forall (fun x => outside f (Simulation.freq_profile x)) sims ->
  exists ip, SumSpectrum.int_profile s = Some ip /\ ip !! i = Some fzero.
Proof.
  intros H Ht Hf Hout. apply sum_spectra_stages in H
    as (r & lls & uls & ranges & _ & _ & _ & _ & _ & _ & Hfreq & Hthin & _).
  rewrite Hfreq in Hf. destruct (Hthin Ht) as (ip & Hip & ->).
  apply add_resampled_Ok in Hip as (_ & Hne & Hpt);
    [|apply length_replicate_zero].
  exists ip. split; [reflexivity|].
  rewrite (Hpt i f fzero Hf)
    by (apply lookup_replicate_2; eapply lookup_lt_Some, Hf).
  f_equal. apply (coadd_outside Simulation.int_profile).
  rewrite Forall_forall in *. auto.
Qed.

(** ** The optically thick sum *)

(** X22.  With [thin=False] and equal excitation and background
    temperatures, wherever the source function [J] is finite on the
    frequency axis the returned intensity is 0 (or NaN where the opacity
    factor [1 - exp(-tau)] is not finite). *)
Theorem equal_temperatures_give_no_signal sims thin T res_arg name s ip :
  sum_spectra sims thin (Some T) (Some T) res_arg name = Ok s ->
  is_False thin = true ->
  Forall (fun f => finite (J T f)) (SumSpectrum.freq_profile s) ->
  SumSpectrum.int_profile s = Some ip ->
  Forall (fun x => x = fzero \/ x = NaN) ip.
Proof.
  intros H Hthin Hfin Hip. apply sum_spectra_stages in H
    as (r & lls & uls & ranges & _ & _ & _ & _ & _ & _ & Hfreq & _ & Hthick
        & _).
  destruct (Hthick Hthin) as (tau & T1 & T2 & _ & [= <-] & [= <-] & Hs).
  rewrite Hfreq in Hfin. rewrite Hs in Hip. injection Hip as <-.
  apply Forall_forall. intros x Hx. apply list_elem_of_lookup in Hx as [i Hi].
  apply lookup_zip_with_Some in Hi as (j & t & -> & Hj & _).
  apply lookup_zip_with_Some in Hj as (a & b & -> & Ha & Hb).
  rewrite list_lookup_fmap in Ha, Hb.
  destruct (concat ranges !! i) as [f|] eqn:Hf; [|discriminate].
  cbn in Ha, Hb. simplify_eq.
  rewrite Forall_forall in Hfin.
  assert (Hfinite : finite (J T f)).
  { apply Hfin. eapply list_elem_of_lookup_2, Hf. }
  destruct (J T f) as [| |q|]; try contradiction.
  rewrite fsub_diag. apply fmul_zero_l.
Qed.

End SumSpectraProperties.

(** ** [sum_spectra] on the two sample simulations *)

Lemma thick_sum_needs_both_temperatures_witness :
  is_False (VBool false) = true
  /\ (@None fl = None \/ Some (fz 3) = None)
  /\ exists e,
       Sums.sum_spectra Sums.sims (VBool false) None (Some (fz 3)) None "sum"
       = Raise e.
Proof.
  assert (Hthin : is_False (VBool false) = true) by reflexivity.
  assert (HT : @None fl = None \/ Some (fz 3) = None) by (left; reflexivity).
  split; [exact Hthin|]. split; [exact HT|].
  exact (thick_sum_needs_both_temperatures Sums.h Sums.k Sums.np_exp
           Sums.find_limits Sums.sims _ _ _ None "sum" Hthin HT).
Defined.

Lemma int_profile_matches_freq_profile_witness :
  Sums.sum_spectra Sums.sims (VFloat (fz 1)) None None None "sum"
  = Ok Sums.unset_sum
  /\ SumSpectrum.name Sums.unset_sum = "sum"
  /\ (SumSpectrum.int_profile Sums.unset_sum = None <->
      is_True (VFloat (fz 1)) = false /\ is_False (VFloat (fz 1)) = false)
  /\ forall ip, SumSpectrum.int_profile Sums.unset_sum = Some ip ->
       length ip = length (SumSpectrum.freq_profile Sums.unset_sum).
Proof.
  assert (H : Sums.sum_spectra Sums.sims (VFloat (fz 1)) None None None "sum"
              = Ok Sums.unset_sum) by by_computation.
  split; [exact H|].
  unfold Sums.sum_spectra in H.
  exact (int_profile_matches_freq_profile Sums.h Sums.k Sums.np_exp
           Sums.find_limits _ _ _ _ _ _ _ H).
Defined.

Lemma frequency_axis_ignores_mode_witness :
  Sums.sum_spectra Sums.sims (VBool true) None None None "sum"
  = Ok Sums.thin_sum
  /\ Sums.sum_spectra Sums.sims (VBool false) (Some (fz 3)) (Some (fz 3))
       None "sum" = Ok Sums.thick_sum
  /\ SumSpectrum.freq_profile Sums.thin_sum
     = SumSpectrum.freq_profile Sums.thick_sum.
Proof.
  assert (H : Sums.sum_spectra Sums.sims (VBool true) None None None "sum"
              = Ok Sums.thin_sum) by by_computation.
  assert (H' : Sums.sum_spectra Sums.sims (VBool false) (Some (fz 3))
                 (Some (fz 3)) None "sum" = Ok Sums.thick_sum)
    by by_computation.
  split; [exact H|]. split; [exact H'|].
  unfold Sums.sum_spectra in H, H'.
  exact (frequency_axis_ignores_mode Sums.h Sums.k Sums.np_exp
           Sums.find_limits _ _ _ _ _ _ _ _ _ _ _ _ H H').
Defined.

Lemma thin_sum_is_pointwise_coadd_witness :
  Sums.sum_spectra Sums.sims (VBool true) None None None "sum"
  = Ok Sums.thin_sum
  /\ is_True (VBool true) = true
  /\ exists ip,
       SumSpectrum.int_profile Sums.thin_sum = Some ip
       /\ forall i f, SumSpectrum.freq_profile Sums.thin_sum !! i = Some f ->
            ip !! i = Some (coadd Simulation.int_profile Sums.sims f).
Proof.
  assert (H : Sums.sum_spectra Sums.sims (VBool true) None None None "sum"
              = Ok Sums.thin_sum) by by_computation.
  assert (Ht : is_True (VBool true) = true) by reflexivity.
  split; [exact H|]. split; [exact Ht|].
  unfold Sums.sum_spectra in H.
  exact (thin_sum_is_pointwise_coadd Sums.h Sums.k Sums.np_exp
           Sums.find_limits _ _ _ _ _ _ _ H Ht).
Defined.

Lemma thin_sum_is_zero_outside_coverage_witness :
  Sums.sum_spectra Sums.sims (VBool true) None None None "sum"
  = Ok Sums.thin_sum
  /\ is_True (VBool true) = true
  /\ SumSpectrum.freq_profile Sums.thin_sum !! 6 = Some (fz 4)
  /\ Forall (fun x => outside (fz 4) (Simulation.freq_profile x)) Sums.sims
  /\ exists ip, SumSpectrum.int_profile Sums.thin_sum = Some ip
                /\ ip !! 6 = Some fzero.
Proof.
  assert (H : Sums.sum_spectra Sums.sims (VBool true) None None None "sum"
              = Ok Sums.thin_sum) by by_computation.
  assert (Ht : is_True (VBool true) = true) by reflexivity.
  assert (Hf : SumSpectrum.freq_profile Sums.thin_sum !! 6 = Some (fz 4))
    by by_computation.
  assert (Hout : Forall (fun x => outside (fz 4) (Simulation.freq_profile x))
                   Sums.sims) by by_computation.
  split; [exact H|]. split; [exact Ht|]. split; [exact Hf|].
  split; [exact Hout|].
  unfold Sums.sum_spectra in H.
  exact (thin_sum_is_zero_outside_coverage Sums.h Sums.k Sums.np_exp
           Sums.find_limits _ _ _ _ _ _ _ _ _ H Ht Hf Hout).
Defined.

(** Inside the coverage the sample sum is the interpolated intensity:
    2.5 at 1.5 MHz, between the samples 1 and 4 of [low]. *)
Example thin_sum_inside :
  SumSpectrum.freq_profile Sums.thin_sum !! 1 = Some (fq 3 2)
  /\ (SumSpectrum.int_profile Sums.thin_sum ≫= (.!! 1)) = Some (fq 5 2).
Proof. split; by_computation. Qed.

Lemma equal_temperatures_give_no_signal_witness :
  Sums.sum_spectra Sums.sims (VBool false) (Some (fz 3)) (Some (fz 3))
    None "sum" = Ok Sums.thick_sum
  /\ is_False (VBool false) = true
  /\ Forall (fun f => finite (J Sums.h Sums.k Sums.np_exp (fz 3) f))
       (SumSpectrum.freq_profile Sums.thick_sum)
  /\ SumSpectrum.int_profile Sums.thick_sum
     = Some (default [] (SumSpectrum.int_profile Sums.thick_sum))
  /\ Forall (fun x => x = fzero \/ x = NaN)
       (default [] (SumSpectrum.int_profile Sums.thick_sum)).
Proof.
  assert (H : Sums.sum_spectra Sums.sims (VBool false) (Some (fz 3))
                (Some (fz 3)) None "sum" = Ok Sums.thick_sum)
    by by_computation.
  assert (Hthin : is_False (VBool false) = true) by reflexivity.
  assert (Hfin : Forall (fun f => finite (J Sums.h Sums.k Sums.np_exp (fz 3) f))
                   (SumSpectrum.freq_profile Sums.thick_sum))
    by by_computation.
  assert (Hip : SumSpectrum.int_profile Sums.thick_sum
                = Some (default [] (SumSpectrum.int_profile Sums.thick_sum)))
    by by_computation.
  split; [exact H|]. split; [exact Hthin|]. split; [exact Hfin|].
  split; [exact Hip|].
  unfold Sums.sum_spectra in H.
  exact (equal_temperatures_give_no_signal Sums.h Sums.k Sums.np_exp
           Sums.find_limits _ _ _ _ _ _ _ H Hthin Hfin Hip).
Defined.
